(** * Outline MCP proxy: container lifecycle of [proxy.py]

    A shallow embedding of the gateway in [proxy.py]: the naming of
    containers ([hash_api_key]), the credential check
    ([validate_outline_key]), the port allocator
    ([get_next_available_port]), the lifecycle controller
    ([create_or_start_container]), the idle sweeper
    ([cleanup_idle_containers]) and the request handlers ([proxy],
    [proxy_request]).

    The module-level globals of the source ([container_registry],
    [allocated_ports], the Docker client) are the fields of one [World]
    that every function threads.  Python exceptions are results of an
    error-and-state monad in which the state survives a raise, as the
    mutations of a [try] block survive in Python. *)

From Stdlib Require Import ZArith List String Ascii Bool Lia.
From stdpp Require Import base decidable option gmap strings list fin_maps.

Local Open Scope Z_scope.

(* ===================================================================== *)
(** ** hashlib.sha256 *)
(* ===================================================================== *)

(** [hash_api_key] calls [hashlib.sha256(...).hexdigest()].  The digest is
    computed here over 32-bit words held in [Z], every addition reduced
    modulo [2^32]. *)
Module Sha256.

Definition mask32 : Z := 0xFFFFFFFF.
Definition w32 (x : Z) : Z := Z.land x mask32.
Definition add32 (x y : Z) : Z := w32 (x + y).

Definition rotr (n x : Z) : Z :=
  Z.lor (Z.shiftr x n) (w32 (Z.shiftl x (32 - n))).

Definition ch (x y z : Z) : Z :=
  Z.lxor (Z.land x y) (Z.land (Z.lxor x mask32) z).
Definition maj (x y z : Z) : Z :=
  Z.lxor (Z.lxor (Z.land x y) (Z.land x z)) (Z.land y z).
Definition bsig0 (x : Z) : Z := Z.lxor (Z.lxor (rotr 2 x) (rotr 13 x)) (rotr 22 x).
Definition bsig1 (x : Z) : Z := Z.lxor (Z.lxor (rotr 6 x) (rotr 11 x)) (rotr 25 x).
Definition ssig0 (x : Z) : Z := Z.lxor (Z.lxor (rotr 7 x) (rotr 18 x)) (Z.shiftr x 3).
Definition ssig1 (x : Z) : Z := Z.lxor (Z.lxor (rotr 17 x) (rotr 19 x)) (Z.shiftr x 10).

(** The constants of the standard are taken from their definition: the
    first 32 bits of the fractional parts of the cube roots (round
    constants) and of the square roots (initial hash value) of the first
    primes. *)
Definition primes : list Z :=
  [2; 3; 5; 7; 11; 13; 17; 19; 23; 29; 31; 37; 41; 43; 47; 53; 59; 61; 67; 71;
   73; 79; 83; 89; 97; 101; 103; 107; 109; 113; 127; 131; 137; 139; 149; 151;
   157; 163; 167; 173; 179; 181; 191; 193; 197; 199; 211; 223; 227; 229; 233;
   239; 241; 251; 257; 263; 269; 271; 277; 281; 283; 293; 307; 311].

(** Integer cube root, one bit at a time from bit 35 down. *)
Definition cube_root (n : Z) : Z :=
  List.fold_left (fun r b => let r' := r + 2 ^ b in if r' * r' * r' <=? n then r' else r)
                 (List.map Z.of_nat (List.rev (List.seq 0 36))) 0.

Definition round_constants : list Z :=
  Eval vm_compute in List.map (fun p => w32 (cube_root (p * 2 ^ 96))) primes.

(** The eight working words; also the running hash value. *)
Record regs := Regs { ra : Z; rb : Z; rc : Z; rd : Z;
                      re : Z; rf : Z; rg : Z; rh : Z }.

Definition root_bits (p : Z) : Z := w32 (Z.sqrt (p * 2 ^ 64)).

Definition initial_hash : regs :=
  Eval vm_compute in
  Regs (root_bits 2) (root_bits 3) (root_bits 5) (root_bits 7)
       (root_bits 11) (root_bits 13) (root_bits 17) (root_bits 19).

(** Message padding: a [0x80] byte, zeros up to 56 modulo 64, and the bit
    length as eight big-endian bytes. *)
Definition be_bytes (n : nat) (x : Z) : list Z :=
  List.map (fun i => Z.land (Z.shiftr x (8 * Z.of_nat i)) 0xFF) (List.rev (List.seq 0 n)).

Definition pad (msg : list Z) : list Z :=
  let len := Z.of_nat (List.length msg) in
  let zeros := Z.to_nat ((55 - len) mod 64) in
  msg ++ 0x80 :: List.repeat 0 zeros ++ be_bytes 8 (8 * len).

Fixpoint be_words (n : nat) (bs : list Z) : list Z :=
  match n, bs with
  | S n', b0 :: b1 :: b2 :: b3 :: rest =>
      (Z.shiftl b0 24 + Z.shiftl b1 16 + Z.shiftl b2 8 + b3) :: be_words n' rest
  | _, _ => []
  end.

(** Message schedule, most recent word first: each new word is computed
    from the words 2, 7, 15 and 16 places back. *)
Fixpoint extend (n : nat) (recent : list Z) : list Z :=
  match n with
  | O => recent
  | S n' =>
      let at_ (i : nat) := List.nth i recent 0 in
      let w := add32 (add32 (ssig1 (at_ 1%nat)) (at_ 6%nat))
                     (add32 (ssig0 (at_ 14%nat)) (at_ 15%nat)) in
      extend n' (w :: recent)
  end.

Definition schedule (block : list Z) : list Z :=
  List.rev (extend 48 (List.rev (be_words 16 block))).

Definition round (s : regs) (kw : Z * Z) : regs :=
  let t1 := add32 (add32 (add32 (rh s) (bsig1 (re s)))
                         (add32 (ch (re s) (rf s) (rg s)) (fst kw))) (snd kw) in
  let t2 := add32 (bsig0 (ra s)) (maj (ra s) (rb s) (rc s)) in
  Regs (add32 t1 t2) (ra s) (rb s) (rc s) (add32 (rd s) t1) (re s) (rf s) (rg s).

Definition compress (h : regs) (block : list Z) : regs :=
  let s := List.fold_left round (List.combine round_constants (schedule block)) h in
  Regs (add32 (ra h) (ra s)) (add32 (rb h) (rb s))
       (add32 (rc h) (rc s)) (add32 (rd h) (rd s))
       (add32 (re h) (re s)) (add32 (rf h) (rf s))
       (add32 (rg h) (rg s)) (add32 (rh h) (rh s)).

Fixpoint blocks (n : nat) (h : regs) (bs : list Z) : regs :=
  match n with
  | O => h
  | S n' => blocks n' (compress h (List.firstn 64 bs)) (List.skipn 64 bs)
  end.

Definition digest (msg : list Z) : regs :=
  let padded := pad msg in
  blocks (List.length padded / 64)%nat initial_hash padded.

(** [hexdigest]: lowercase hexadecimal, eight digits per word. *)
Definition hexchar (n : Z) : ascii :=
  if n <? 10 then ascii_of_nat (Z.to_nat (48 + n))
  else ascii_of_nat (Z.to_nat (87 + n)).

Definition nibble (i x : Z) : ascii := hexchar (Z.land (Z.shiftr x (4 * i)) 0xF).

Definition hexword (x : Z) (tail : string) : string :=
  String (nibble 7 x) (String (nibble 6 x) (String (nibble 5 x)
 (String (nibble 4 x) (String (nibble 3 x) (String (nibble 2 x)
 (String (nibble 1 x) (String (nibble 0 x) tail))))))).

Definition hexdigest (msg : list Z) : string :=
  let h := digest msg in
  hexword (ra h) (hexword (rb h) (hexword (rc h) (hexword (rd h)
 (hexword (re h) (hexword (rf h) (hexword (rg h) (hexword (rh h) ""))))))).

End Sha256.

(** [str.encode()]: UTF-8.  A header value reaches the handlers decoded as
    Latin-1, so every character of a token is a code point below 256 and
    takes one or two bytes. *)
Definition encode_char (c : ascii) : list Z :=
  let n := Z.of_nat (nat_of_ascii c) in
  if n <? 128 then [n] else [Z.lor 0xC0 (Z.shiftr n 6); Z.lor 0x80 (Z.land n 0x3F)].

Fixpoint encode (s : string) : list Z :=
  match s with
  | EmptyString => []
  | String c rest => encode_char c ++ encode rest
  end.

(** [s[:n]] on a string. *)
Fixpoint slice_to (n : nat) (s : string) : string :=
  match n, s with
  | S n', String c rest => String c (slice_to n' rest)
  | _, _ => EmptyString
  end.

(** [hash_api_key], proxy.py lines 77-80. *)
Definition hash_api_key (api_key : string) : string :=
  let hash_obj := Sha256.hexdigest (encode api_key) in
  "mcp-" ++ slice_to 12 hash_obj.

(* ===================================================================== *)
(** ** Data model and global state *)
(* ===================================================================== *)

(** [ContainerInfo], proxy.py lines 35-46.  Times are the readings of
    [time()], in seconds, held as integers. *)
Record ContainerInfo := mkContainerInfo {
  container_name : string;
  api_key_hash : string;
  port : Z;
  last_used : Z;
  created_at : Z;
  status : string          (* 'running' or 'stopped' *)
}.

Definition set_last_used (t : Z) (i : ContainerInfo) : ContainerInfo :=
  mkContainerInfo (container_name i) (api_key_hash i) (port i) t (created_at i) (status i).
Definition set_status (s : string) (i : ContainerInfo) : ContainerInfo :=
  mkContainerInfo (container_name i) (api_key_hash i) (port i) (last_used i) (created_at i) s.

(** What the Docker SDK shows of a container: [name], [status] and
    [ports], the dictionary from ["3000/tcp"] and the like to [None] (exposed,
    not published) or the list of host bindings; a binding is held as its
    [HostPort] number.  The source reads [ports] of containers in any state,
    so the model lets a container of any status show any [ports]. *)
Record Container := mkContainer {
  name : string;
  c_status : string;
  ports : gmap string (option (list Z))
}.

(** The container runtime is outside the repository.  The model keeps the
    inventory the source reads and the conditions under which the calls the
    source makes raise: the daemon does not answer; the image is neither
    local nor pullable; the host port a container publishes is held by
    another process, so the container does not start. *)
Record Runtime := mkRuntime {
  daemon_up : bool;
  image_local : bool;
  registry_reachable : bool;
  busy_host_ports : gset Z;
  containers : list Container
}.

Inductive DockerCall :=
| ContainersList
| ContainersGet (n : string)
| ContainerStart (n : string)
| ContainerStop (n : string)
| ContainerRemove (n : string)
| ImagesPull
| ImagesGet (n : string)        (* the image of container [n] *)
| ContainersCreate (n : string) (host_port : Z).

(** Ghost record of the order of effects: runtime calls, and additions to
    [allocated_ports]. *)
Inductive Event :=
| Call (c : DockerCall)
| Leased (p : Z).

Record World := mkWorld {
  container_registry : gmap string ContainerInfo;   (* hash -> ContainerInfo *)
  allocated_ports : gset Z;
  runtime : Runtime;
  clock : Z;
  trace : list Event                                 (* latest first *)
}.

Definition NEXT_PORT : Z := 4000.
Definition MAX_PORT : Z := 5000.
Definition IDLE_TIMEOUT_SECONDS : Z := 15 * 60.
Definition REQUEST_TIMEOUT : Z := 90.

Definition with_registry (r : gmap string ContainerInfo) (w : World) : World :=
  mkWorld r (allocated_ports w) (runtime w) (clock w) (trace w).
Definition with_ports (s : gset Z) (w : World) : World :=
  mkWorld (container_registry w) s (runtime w) (clock w) (trace w).
Definition with_runtime (d : Runtime) (w : World) : World :=
  mkWorld (container_registry w) (allocated_ports w) d (clock w) (trace w).
Definition with_event (e : Event) (w : World) : World :=
  mkWorld (container_registry w) (allocated_ports w) (runtime w) (clock w) (e :: trace w).
Definition with_containers (cs : list Container) (d : Runtime) : Runtime :=
  mkRuntime (daemon_up d) (image_local d) (registry_reachable d) (busy_host_ports d) cs.
Definition with_image (b : bool) (d : Runtime) : Runtime :=
  mkRuntime (daemon_up d) b (registry_reachable d) (busy_host_ports d) (containers d).

(* ===================================================================== *)
(** ** Exceptions and the monad of the handlers *)
(* ===================================================================== *)

Inductive exn :=
| NotFound                      (* docker.errors.NotFound *)
| ImageNotFound                 (* docker.errors.ImageNotFound *)
| APIError                      (* docker.errors.APIError *)
| DockerException               (* the daemon does not answer *)
| TypeError
| IndexError
| RuntimeError (msg : string)
| TimeoutException              (* httpx.TimeoutException *)
| ConnectError                  (* httpx.ConnectError and other transport errors *)
| HTTPException (status_code : Z) (detail : string).

Inductive result (A : Type) :=
| Ok (a : A)
| Raise (e : exn).
Arguments Ok {A} a.
Arguments Raise {A} e.

(** A computation runs in a world and leaves a world, also when it raises. *)
Definition M (A : Type) : Type := World → result A * World.

#[global] Instance M_ret : MRet M := λ A a w, (Ok a, w).
#[global] Instance M_bind : MBind M := λ A B f m w,
  match m w with
  | (Ok a, w') => f a w'
  | (Raise e, w') => (Raise e, w')
  end.

Definition raise {A} (e : exn) : M A := λ w, (Raise e, w).

(** [try: body except Exception as e: handler]. *)
Definition try_except {A} (body : M A) (handler : exn → M A) : M A := λ w,
  match body w with
  | (Ok a, w') => (Ok a, w')
  | (Raise e, w') => handler e w'
  end.

Definition get_world : M World := λ w, (Ok w, w).
Definition modify (f : World → World) : M unit := λ w, (Ok tt, f w).
Definition time : M Z := λ w, (Ok (clock w), w).

(* ===================================================================== *)
(** ** The calls of the Docker SDK *)
(* ===================================================================== *)

(** Every call is recorded, and raises when the daemon does not answer. *)
Definition docker_call (c : DockerCall) : M unit := λ w,
  let w' := with_event (Call c) w in
  if daemon_up (runtime w) then (Ok tt, w') else (Raise DockerException, w').

Definition find_container (n : string) (cs : list Container) : option Container :=
  List.find (λ c, String.eqb (name c) n) cs.

Definition set_c_status (s : string) (c : Container) : Container :=
  mkContainer (name c) s (ports c).

Definition update_container (n : string) (f : Container → Container)
    (cs : list Container) : list Container :=
  List.map (λ c, if String.eqb (name c) n then f c else c) cs.

Definition remove_container (n : string) (cs : list Container) : list Container :=
  List.filter (λ c, negb (String.eqb (name c) n)) cs.

Definition map_containers (f : list Container → list Container) (w : World) : World :=
  with_runtime (with_containers (f (containers (runtime w))) (runtime w)) w.

Definition modify_containers (f : list Container → list Container) : M unit :=
  modify (map_containers f).

(** All host ports a container publishes. *)
Definition host_ports (c : Container) : list Z :=
  List.concat (List.map (λ kv, default [] (snd kv)) (map_to_list (ports c))).

(** [client.containers.list(all=True)] *)
Definition containers_list : M (list Container) :=
  docker_call ContainersList;;
  w ← get_world;
  mret (containers (runtime w)).

(** [client.containers.get(name)] *)
Definition containers_get (n : string) : M Container :=
  docker_call (ContainersGet n);;
  w ← get_world;
  match find_container n (containers (runtime w)) with
  | Some c => mret c
  | None => raise NotFound
  end.

(** A host port the container publishes is held by another process. *)
Definition blocked (w : World) (c : Container) : bool :=
  existsb (λ p, bool_decide (p ∈ busy_host_ports (runtime w))) (host_ports c).

(** [container.start()] *)
Definition container_start (n : string) : M unit :=
  docker_call (ContainerStart n);;
  w ← get_world;
  match find_container n (containers (runtime w)) with
  | None => raise NotFound
  | Some c =>
      if blocked w c then raise APIError
      else modify_containers (update_container n (set_c_status "running"))
  end.

(** [container.stop()] *)
Definition container_stop (n : string) : M unit :=
  docker_call (ContainerStop n);;
  w ← get_world;
  match find_container n (containers (runtime w)) with
  | None => raise NotFound
  | Some _ => modify_containers (update_container n (set_c_status "exited"))
  end.

(** [container.remove(force=True)] *)
Definition container_remove (n : string) : M unit :=
  docker_call (ContainerRemove n);;
  w ← get_world;
  match find_container n (containers (runtime w)) with
  | None => raise NotFound
  | Some _ => modify_containers (remove_container n)
  end.

(** [client.images.pull(CONTAINER_IMAGE)] *)
Definition images_pull : M unit :=
  docker_call ImagesPull;;
  w ← get_world;
  if registry_reachable (runtime w)
  then modify (λ w, with_runtime (with_image true (runtime w)) w)
  else raise APIError.

(** [client.containers.create(CONTAINER_IMAGE, name=..., ports={"3000/tcp": port}, ...)]:
    the image must be there and the name free. *)
Definition containers_create (n : string) (host_port : Z) : M unit :=
  docker_call (ContainersCreate n host_port);;
  w ← get_world;
  if negb (image_local (runtime w)) then raise ImageNotFound
  else match find_container n (containers (runtime w)) with
       | Some _ => raise APIError
       | None =>
           modify_containers
             (λ cs, cs ++ [mkContainer n "created" {[ "3000/tcp"%string := Some [host_port] ]}])
       end.

(* ===================================================================== *)
(** ** Utility functions (proxy.py lines 77-123) *)
(* ===================================================================== *)

(** What Outline's [auth.info] endpoint gives for a key. *)
Inductive OracleReply :=
| HttpStatus (code : Z)
| NetworkError.

(** [validate_outline_key], lines 83-96: [response.status_code == 200], and
    [False] on any exception. *)
Definition validate_outline_key (oracle : string → OracleReply) (api_key : string) : bool :=
  match oracle api_key with
  | HttpStatus code => code =? 200
  | NetworkError => false
  end.

(** [ports and '3000/tcp' in ports] *)
Definition has_internal_port (c : Container) : bool :=
  bool_decide (is_Some (ports c !! "3000/tcp"%string)).

(** [int(ports['3000/tcp'][0]['HostPort'])] *)
Definition first_host_port (c : Container) : M Z :=
  match ports c !! "3000/tcp"%string with
  | Some (Some (p :: _)) => mret p
  | Some (Some []) => raise IndexError
  | Some None => raise TypeError
  | None => raise TypeError
  end.

(** The loop of lines 108-112. *)
Fixpoint collect_used_ports (cs : list Container) (used_ports : gset Z) : M (gset Z) :=
  match cs with
  | [] => mret used_ports
  | container :: rest =>
      if has_internal_port container then
        p ← first_host_port container;
        collect_used_ports rest ({[p]} ∪ used_ports)
      else collect_used_ports rest used_ports
  end.

(** [allocated_ports.add(p)] *)
Definition leased (p : Z) (w : World) : World :=
  with_event (Leased p) (with_ports ({[p]} ∪ allocated_ports w) w).

Definition allocated_ports_add (p : Z) : M unit := modify (leased p).

(** [range(a, b)] *)
Definition range (a b : Z) : list Z := seqZ a (b - a).

(** [get_next_available_port], lines 99-123. *)
Definition get_next_available_port : M Z :=
  used_ports ← try_except
                  (cs ← containers_list; collect_used_ports cs ∅)
                  (λ _, mret ∅);
  w ← get_world;
  match List.find (λ p, bool_decide (p ∉ allocated_ports w) && bool_decide (p ∉ used_ports))
                  (range NEXT_PORT MAX_PORT) with
  | Some p => allocated_ports_add p;; mret p
  | None => raise (RuntimeError "No available ports (max: 5000)")
  end.

(* ===================================================================== *)
(** ** Docker management functions (lines 130-246) *)
(* ===================================================================== *)

Definition is_running (c : Container) : bool := String.eqb (c_status c) "running".

Definition is_container_running (n : string) : M bool :=
  try_except (c ← containers_get n; mret (is_running c)) (λ _, mret false).

Definition is_container_stopped (n : string) : M bool :=
  try_except (c ← containers_get n; mret (negb (is_running c))) (λ _, mret false).

Definition start_existing_container (n : string) : M bool :=
  try_except
    (c ← containers_get n;
     if negb (is_running c) then container_start n;; mret true else mret true)
    (λ _, mret false).

Definition create_container (api_key : string) (host_port : Z) : M (option string) :=
  let container_name := hash_api_key api_key in
  try_except
    (try_except images_pull (λ _, mret tt);;
     containers_create container_name host_port;;
     container_start container_name;;
     mret (Some container_name))
    (λ _, mret None).

(* ===================================================================== *)
(** ** Main proxy logic (lines 253-433) *)
(* ===================================================================== *)

(** [create_or_start_container] is a coroutine.  Between two [await]s it
    runs without interruption; what is left to do after an
    [await asyncio.sleep(..)] is one of two things. *)
Inductive Suspended :=
| Sleep_then_return (secs : Z) (host_port : Z) (cname : string)
    (* lines 278-279 and 312-313 *)
| Sleep_then_register (secs : Z) (key_hash created_name : string) (host_port : Z).
    (* lines 365-378 *)

Inductive Step :=
| Done (host_port : Z) (cname : string)
| Await (s : Suspended).

Definition new_info (cname key_hash : string) (host_port now : Z) : ContainerInfo :=
  mkContainerInfo cname key_hash host_port now now "running".

Definition registered (key_hash : string) (i : ContainerInfo) (w : World) : World :=
  with_registry (<[key_hash := i]> (container_registry w)) w.

(** [container_registry[key_hash] = i] *)
Definition registry_set (key_hash : string) (i : ContainerInfo) : M unit :=
  modify (registered key_hash i).

Definition registry_alter (f : ContainerInfo → ContainerInfo) (key_hash : string) : M unit :=
  modify (λ w, with_registry (alter f key_hash (container_registry w)) w).

Definition registry_del (key_hash : string) : M unit :=
  modify (λ w, with_registry (delete key_hash (container_registry w)) w).

(** Case 3, lines 356-365, up to the [await]. *)
Definition fresh_creation (api_key api_key_hash : string) : M Step :=
  p ← get_next_available_port;
  created ← create_container api_key p;
  match created with
  | None => raise (RuntimeError "Failed to create container")
  | Some created_name => mret (Await (Sleep_then_register 2 api_key_hash created_name p))
  end.

(** Lines 327-354: running on the runtime, not in the registry. *)
Definition adopt_running (api_key api_key_hash cname : string) : M Step :=
  running ← is_container_running cname;
  if running : bool then
    r ← try_except
          (container ← containers_get cname;
           if has_internal_port container then
             p ← first_host_port container;
             allocated_ports_add p;;
             now ← time;
             registry_set api_key_hash (new_info cname api_key_hash p now);;
             mret (Some (Done p cname))
           else
             container_stop cname;; mret None)
          (λ _, mret None);
    match r with
    | Some s => mret s
    | None => fresh_creation api_key api_key_hash
    end
  else fresh_creation api_key api_key_hash.

(** Lines 286-325: on the runtime, not running, not in the registry. *)
Definition adopt_stopped (api_key api_key_hash cname : string) : M Step :=
  stopped ← is_container_stopped cname;
  r ← (if stopped : bool then
         try_except
           (container ← containers_get cname;
            if has_internal_port container then
              p ← first_host_port container;
              allocated_ports_add p;;
              started ← start_existing_container cname;
              if started : bool then
                now ← time;
                registry_set api_key_hash (new_info cname api_key_hash p now);;
                mret (Some (Await (Sleep_then_return 1 p cname)))
              else mret None
            else
              container_remove cname;; mret None)
           (λ _,
              try_except (_ ← containers_get cname; container_remove cname) (λ _, mret tt);;
              mret None)
       else mret None);
  match r with
  | Some s => mret s
  | None => adopt_running api_key api_key_hash cname
  end.

(** [create_or_start_container], lines 253-378, up to its first [await] or
    [return]. *)
Definition create_or_start_container (api_key : string) : M Step :=
  let api_key_hash := hash_api_key api_key in
  let cname := hash_api_key api_key in
  w ← get_world;
  match container_registry w !! api_key_hash with
  | Some info =>
      running ← is_container_running (container_name info);
      if running : bool then
        now ← time;
        registry_alter (set_last_used now) api_key_hash;;
        mret (Done (port info) (container_name info))
      else
        stopped ← is_container_stopped (container_name info);
        if stopped : bool then
          started ← start_existing_container (container_name info);
          if started : bool then
            now ← time;
            registry_alter (λ i, set_status "running" (set_last_used now i)) api_key_hash;;
            mret (Await (Sleep_then_return 1 (port info) (container_name info)))
          else
            registry_del api_key_hash;;
            adopt_stopped api_key api_key_hash cname
        else adopt_stopped api_key api_key_hash cname
  | None => adopt_stopped api_key api_key_hash cname
  end.

(** The rest of the coroutine, once the sleep is over. *)
Definition resume (s : Suspended) : M (Z * string) :=
  match s with
  | Sleep_then_return _ p cname => mret (p, cname)
  | Sleep_then_register _ key_hash created_name p =>
      now ← time;
      registry_set key_hash (new_info created_name key_hash p now);;
      mret (p, created_name)
  end.

(** A call that nothing interleaves with. *)
Definition resolve (api_key : string) : M (Z * string) :=
  s ← create_or_start_container api_key;
  match s with
  | Done p cname => mret (p, cname)
  | Await k => resume k
  end.

(** *** [proxy_request] *)

Record Request := mkRequest {
  method : string;
  headers : gmap string string;      (* names in lower case *)
  body : string
}.

(** What [client.request] is called with; [url] is
    [http://localhost:{port}/{path}]. *)
Record UpstreamRequest := mkUpstreamRequest {
  u_method : string;
  u_port : Z;
  u_path : string;
  u_headers : gmap string string;
  u_content : string
}.

Record Response := mkResponse {
  status_code : Z;
  r_headers : gmap string string;
  content : string
}.

Inductive UpstreamReply :=
| Replied (r : Response)
| TimedOut                     (* httpx.TimeoutException *)
| Failed.                      (* any other exception *)

(** Lines 396-406. *)
Definition headers_to_forward : list string :=
  ["content-type"; "authorization"; "user-agent"]%string.

Definition proxy_headers (request : Request) : gmap string string :=
  let copied :=
    fold_left (λ acc header_name,
                 match headers request !! header_name with
                 | Some v => <[header_name := v]> acc
                 | None => acc
                 end) headers_to_forward ∅ in
  <["accept"%string := "application/json, text/event-stream"%string]> copied.

(** Lines 408-411. *)
Definition forwarded_body (request : Request) : string :=
  if bool_decide (method request ∈ ["POST"; "PUT"; "PATCH"]%string)
  then body request else ""%string.

Definition upstream_request (host_port : Z) (path : string) (request : Request)
    : UpstreamRequest :=
  mkUpstreamRequest (method request) host_port path
                    (proxy_headers request) (forwarded_body request).

(** [proxy_request], lines 381-433. *)
Definition proxy_request (upstream : UpstreamRequest → UpstreamReply)
    (host_port : Z) (path : string) (request : Request) : M Response :=
  match upstream (upstream_request host_port path request) with
  | Replied response => mret response
  | TimedOut => raise (HTTPException 504 "Gateway Timeout")
  | Failed => raise (HTTPException 502 "Bad Gateway")
  end.

(* ===================================================================== *)
(** ** Background cleanup task (lines 440-477) *)
(* ===================================================================== *)

(** The body of the first [for] loop, for one item of
    [container_registry.items()]. *)
Definition stop_if_idle (current_time : Z) (item : string * ContainerInfo)
    (idle_keys : list string) : M (list string) :=
  let '(api_key_hash, info) := item in
  let idle_duration := current_time - last_used info in
  if idle_duration >? IDLE_TIMEOUT_SECONDS then
    try_except
      (_ ← containers_get (container_name info);
       container_stop (container_name info);;
       registry_alter (set_status "stopped") api_key_hash)
      (λ _, mret tt);;
    mret (idle_keys ++ [api_key_hash])
  else mret idle_keys.

Fixpoint stop_idle_items (current_time : Z) (items : list (string * ContainerInfo))
    (idle_keys : list string) : M (list string) :=
  match items with
  | [] => mret idle_keys
  | item :: rest =>
      idle_keys' ← stop_if_idle current_time item idle_keys;
      stop_idle_items current_time rest idle_keys'
  end.

(** The second loop, lines 473-474. *)
Fixpoint update_registry (idle_keys : list string) : M unit :=
  match idle_keys with
  | [] => mret tt
  | key :: rest => registry_alter (set_status "stopped") key;; update_registry rest
  end.

(** One turn of the [while True] loop of [cleanup_idle_containers], after
    its [await asyncio.sleep(60)]. *)
Definition cleanup_idle_containers : M unit :=
  try_except
    (current_time ← time;
     w ← get_world;
     idle_keys ← stop_idle_items current_time (map_to_list (container_registry w)) [];
     update_registry idle_keys)
    (λ _, mret tt).

(* ===================================================================== *)
(** ** Endpoints (lines 573-657) *)
(* ===================================================================== *)

(** The two services the handlers call over HTTP. *)
Record Env := mkEnv {
  oracle : string → OracleReply;
  upstream : UpstreamRequest → UpstreamReply
}.

(** Steps 1 to 3 of both handlers: the header, the oracle, the container. *)
Definition authenticate_and_resolve (env : Env) (x_outline_api_key : option string)
    : M (Z * string) :=
  match x_outline_api_key with
  | None | Some EmptyString =>                  (* [if not x_outline_api_key] *)
      raise (HTTPException 400 "Missing X-Outline-API-Key header")
  | Some key =>
      if negb (validate_outline_key (oracle env) key) then
        raise (HTTPException 401 "Invalid API key")
      else
        try_except (resolve key)
          (λ _, raise (HTTPException 503 "Container service unavailable"))
  end.

(** [mcp_http_endpoint], lines 573-605. *)
Definition mcp_http_endpoint (env : Env) (request : Request)
    (x_outline_api_key : option string) : M Response :=
  r ← authenticate_and_resolve env x_outline_api_key;
  proxy_request (upstream env) (fst r) "mcp" request.

(** [proxy], lines 608-639. *)
Definition proxy (env : Env) (path : string) (request : Request)
    (x_outline_api_key : option string) : M Response :=
  r ← authenticate_and_resolve env x_outline_api_key;
  proxy_request (upstream env) (fst r) path request.

(** [http_exception_handler], lines 646-657; of the JSON body only [error]
    is kept. *)
Definition http_exception_handler (code : Z) (detail : string) : Response :=
  mkResponse code ∅ detail.

(** What the client gets: the handler's response, or the response the
    exception handler makes of an [HTTPException]. *)
Definition serve (handler : M Response) : World → Response * World := λ w,
  match handler w with
  | (Ok r, w') => (r, w')
  | (Raise (HTTPException code detail), w') => (http_exception_handler code detail, w')
  | (Raise _, w') => (mkResponse 500 ∅ "Internal Server Error", w')
  end.

(* ===================================================================== *)
(** ** Concurrent callers *)
(* ===================================================================== *)

(** The event loop runs one coroutine at a time and switches only at an
    [await].  A request for a container is therefore in one of three states:
    in flight, its handler not yet past the [await] of the oracle
    ([Waiting]); asleep inside [create_or_start_container] ([Sleeping]);
    through with it ([Finished]).  A schedule names the request that runs
    next.  The runtime changes only through the calls of the requests. *)
Inductive Caller :=
| Waiting (api_key : string)
| Sleeping (s : Suspended)
| Finished (r : result (Z * string)).

Definition run_caller (c : Caller) : World → Caller * World := λ w,
  match c with
  | Waiting api_key =>
      match create_or_start_container api_key w with
      | (Ok (Done p cname), w') => (Finished (Ok (p, cname)), w')
      | (Ok (Await s), w') => (Sleeping s, w')
      | (Raise e, w') => (Finished (Raise e), w')
      end
  | Sleeping s =>
      match resume s w with
      | (r, w') => (Finished r, w')
      end
  | Finished r => (Finished r, w)
  end.

Fixpoint run_schedule (schedule : list nat) (callers : list Caller) (w : World)
    : list Caller * World :=
  match schedule with
  | [] => (callers, w)
  | i :: rest =>
      match callers !! i with
      | Some c =>
          let '(c', w') := run_caller c w in
          run_schedule rest (<[i := c']> callers) w'
      | None => run_schedule rest callers w
      end
  end.

(** The [ContainerCreate] calls issued for a name. *)
Definition creates_issued (n : string) (w : World) : nat :=
  List.length (List.filter (λ e, match e with
                                 | Call (ContainersCreate n' _) => String.eqb n' n
                                 | _ => false
                                 end) (trace w)).

(** The digits of lowercase hexadecimal. *)
Definition is_lower_hex (c : ascii) : bool :=
  existsb (Ascii.eqb c) (list_ascii_of_string "0123456789abcdef").

(* ===================================================================== *)
(** ** Sample states *)
(* ===================================================================== *)

Definition published (host_port : Z) : gmap string (option (list Z)) :=
  {[ "3000/tcp"%string := Some [host_port] ]}.

(** A runtime that answers, with the image at hand and no container. *)
Definition runtime_ok : Runtime := mkRuntime true true true ∅ [].
(** A daemon that does not answer. *)
Definition runtime_down : Runtime := mkRuntime false true true ∅ [].
(** The image is neither local nor pullable. *)
Definition runtime_no_image : Runtime := mkRuntime true false false ∅ [].

Definition world_of (d : Runtime) : World := mkWorld ∅ ∅ d 1000 [].

Definition oracle_of (reply : OracleReply) : string → OracleReply := λ _, reply.
Definition upstream_of (reply : UpstreamReply) : UpstreamRequest → UpstreamReply := λ _, reply.

Definition env_of (o : OracleReply) (u : UpstreamReply) : Env :=
  mkEnv (oracle_of o) (upstream_of u).

Definition ok_response : Response := mkResponse 200 ∅ "{}".

(** A container that answers 200 with the body it was sent. *)
Definition upstream_echo : UpstreamRequest → UpstreamReply :=
  λ sent, Replied (mkResponse 200 ∅ (u_content sent)).

Definition post_request : Request := mkRequest "POST" ∅ "{'jsonrpc': '2.0'}".
Definition get_request : Request := mkRequest "GET" ∅ "ignored".

(* ===================================================================== *)
(** ** Notions used in the statements *)
(* ===================================================================== *)

(** Container [c] publishes the internal port, first of all on host port [p]. *)
Definition binds (c : Container) (p : Z) : Prop :=
  ∃ others, ports c !! "3000/tcp"%string = Some (Some (p :: others)).

(** The [ports] of a container can be read the way the source reads them:
    no entry for the internal port, or an entry with at least one binding. *)
Definition readable (c : Container) : Prop :=
  ports c !! "3000/tcp"%string = None ∨ ∃ p, binds c p.

(** What the loop of [get_next_available_port] gathers, when nothing raises. *)
Fixpoint scan_ports (cs : list Container) (acc : gset Z) : option (gset Z) :=
  match cs with
  | [] => Some acc
  | c :: rest =>
      match ports c !! "3000/tcp"%string with
      | None => scan_ports rest acc
      | Some (Some (p :: _)) => scan_ports rest ({[p]} ∪ acc)
      | Some (Some []) | Some None => None
      end
  end.

(** The ports the allocator takes to be in use on the runtime. *)
Definition used_ports_view (w : World) : gset Z :=
  if daemon_up (runtime w) then default ∅ (scan_ports (containers (runtime w)) ∅) else ∅.

Definition port_is_free (w : World) (p : Z) : bool :=
  bool_decide (p ∉ allocated_ports w) && bool_decide (p ∉ used_ports_view w).

(** A port the allocator may not hand out according to the claim: leased, or
    bound by a container of the inventory. *)
Definition leased_or_bound (w : World) (p : Z) : Prop :=
  p ∈ allocated_ports w ∨ ∃ c, c ∈ containers (runtime w) ∧ binds c p.

(** The same, as far as the allocator can see: a binding counts only if the
    daemon answers the listing. *)
Definition taken (w : World) (p : Z) : Prop :=
  p ∈ allocated_ports w
  ∨ (daemon_up (runtime w) = true ∧ ∃ c, c ∈ containers (runtime w) ∧ binds c p).

Definition no_ports : exn := RuntimeError "No available ports (max: 5000)".

(** A container left over from an earlier run, published on port 4000. *)
Definition leftover : Container := mkContainer "mcp-0123456789ab" "running" (published 4000).

(** The daemon does not answer, and the leftover container is on the host. *)
Definition runtime_unlistable : Runtime := mkRuntime false true true ∅ [leftover].
(** The daemon answers and lists the leftover container. *)
Definition runtime_leftover : Runtime := mkRuntime true true true ∅ [leftover].

(** What the process does to its state, one uninterrupted piece at a time:
    a caller of [create_or_start_container] runs up to its next [await], or
    the sweeper makes one turn. *)
Inductive Activity :=
| Resolve (c : Caller)
| Sweep.

Definition run_activity (w : World) (a : Activity) : World :=
  match a with
  | Resolve c => snd (run_caller c w)
  | Sweep => snd (cleanup_idle_containers w)
  end.

Definition run_activities (acts : list Activity) (w : World) : World :=
  List.fold_left run_activity acts w.

Definition creation_failed : exn := RuntimeError "Failed to create container".

(** A computation that takes every world to one related to it by [R]. *)
Definition preserves {A} (R : relation World) (m : M A) : Prop :=
  ∀ w, R w (snd (m w)).

(** No port has left [allocated_ports]. *)
Definition ports_grow : relation World :=
  λ w w', allocated_ports w ⊆ allocated_ports w'.

(** [container_registry] and [allocated_ports] are what they were. *)
Definition ledger_kept : relation World :=
  λ w w', container_registry w' = container_registry w
          ∧ allocated_ports w' = allocated_ports w.

(** The registry has the same records, some of them now marked stopped. *)
Definition records_marked : relation World :=
  λ w w', ∀ h, container_registry w' !! h = container_registry w !! h
               ∨ container_registry w' !! h
                 = set_status "stopped" <$> container_registry w !! h.

(** A relation that does not look at the runtime or at the trace. *)
Class Blind (R : relation World) : Prop := {
  blind_runtime w d : R w (with_runtime d w);
  blind_event w e : R w (with_event e w)
}.

(** A computation that never raises. *)
Definition total {A} (m : M A) : Prop :=
  ∀ w, ∃ a, fst (m w) = Ok a.

(** A computation that raises only for want of a port, or because the
    creation failed after it had taken a port of the window that was not
    allocated before. *)
Definition raises_only_after_lease {A} (m : M A) : Prop :=
  ∀ w, match m w with
       | (Ok _, _) => True
       | (Raise e, w') =>
           e = no_ports
           ∨ (e = creation_failed
              ∧ ∃ p, 4000 ≤ p < 5000 ∧ (p ∉ allocated_ports w) ∧ p ∈ allocated_ports w')
       end.

(** The call, begun in [w], comes to Case 3 (lines 356-362) in state [w0]:
    what is left of it is [fresh_creation], and no port has been given up on
    the way. *)
Definition comes_to_creation (api_key : string) (w w0 : World) : Prop :=
  create_or_start_container api_key w
  = fresh_creation api_key (hash_api_key api_key) w0
  ∧ allocated_ports w ⊆ allocated_ports w0.

(** A part of the call that returns, or else comes to Case 3. *)
Definition returns_or_creates (api_key : string) (m : M Step) : Prop :=
  ∀ w, (∃ s w', m w = (Ok s, w'))
       ∨ (∃ w0, m w = fresh_creation api_key (hash_api_key api_key) w0
                ∧ allocated_ports w ⊆ allocated_ports w0).

(** The record of ["tok-A"], on port 4000, and its container, stopped; port
    4000 of the host is held by another process, so the container does not
    start. *)
Definition tok_A_name : string := Eval vm_compute in hash_api_key "tok-A".

Definition tok_A_info : ContainerInfo :=
  mkContainerInfo tok_A_name tok_A_name 4000 100 100 "stopped".

Definition runtime_restart_fails : Runtime :=
  mkRuntime true true true {[4000]} [mkContainer tok_A_name "exited" (published 4000)].

Definition world_restart_fails : World :=
  mkWorld {[tok_A_name := tok_A_info]} {[4000]} runtime_restart_fails 1000 [].

Definition is_idle (current_time : Z) (info : ContainerInfo) : bool :=
  current_time - last_used info >? IDLE_TIMEOUT_SECONDS.

(** The keys the first loop of the sweeper appends to [idle_keys]. *)
Definition idle_keys_of (current_time : Z) (items : list (string * ContainerInfo))
    : list string :=
  List.map fst (List.filter (λ item, is_idle current_time (snd item)) items).

(** The record of ["tok-A"] is running and was last used at time 0; it is
    now time 1000, the container runs, and the daemon does not answer. *)
Definition tok_A_running : ContainerInfo :=
  mkContainerInfo tok_A_name tok_A_name 4000 0 0 "running".

Definition runtime_stop_fails : Runtime :=
  mkRuntime false true true ∅ [mkContainer tok_A_name "running" (published 4000)].

Definition world_stop_fails : World :=
  mkWorld {[tok_A_name := tok_A_running]} {[4000]} runtime_stop_fails 1000 [].

(** The world after a call to the runtime has been recorded. *)
Definition called (c : DockerCall) (w : World) : World := with_event (Call c) w.

(** The container of that name, as [containers.get] finds it. *)
Definition lookup_container (n : string) (w : World) : option Container :=
  find_container n (containers (runtime w)).

(** The runtime carries out what it is asked: the daemon answers, the image
    is local or can be pulled, and no host port is held by another
    process. *)
Definition fault_free (w : World) : Prop :=
  daemon_up (runtime w) = true
  ∧ (image_local (runtime w) = true ∨ registry_reachable (runtime w) = true)
  ∧ busy_host_ports (runtime w) = ∅.

(** The container of ["tok-A"], stopped, published on port 4000. *)
Definition tok_A_stopped : Container := mkContainer tok_A_name "exited" (published 4000).

(** After a restart of the gateway: nothing in the registry, nothing
    allocated, the container of ["tok-A"] on the runtime. *)
Definition world_after_restart : World :=
  mkWorld ∅ ∅ (mkRuntime true true true ∅ [tok_A_stopped]) 1000 [].

(** The same, with port 4000 of the host held by another process. *)
Definition world_after_restart_busy : World :=
  mkWorld ∅ ∅ (mkRuntime true true true {[4000]} [tok_A_stopped]) 1000 [].

(** What [is_container_running] and [is_container_stopped] answer. *)
Definition observed_running (n : string) (w : World) : bool :=
  daemon_up (runtime w)
  && match lookup_container n w with
     | Some c => is_running c
     | None => false
     end.

Definition observed_stopped (n : string) (w : World) : bool :=
  daemon_up (runtime w)
  && match lookup_container n w with
     | Some c => negb (is_running c)
     | None => false
     end.

(** The container [create_container] makes, once started. *)
Definition fresh_container (n : string) (host_port : Z) : Container :=
  mkContainer n "running" (published host_port).

(** The state of the runtime in which the first caller for [f] can adopt
    or create: no container of that name, or one that is not running, or one
    that runs with a binding of the internal port. *)
Definition adoptable (f : string) (w : World) : Prop :=
  match lookup_container f w with
  | None => True
  | Some c => is_running c = false ∨ ∃ p, binds c p
  end.

(** The container of [f] runs on the runtime, bound to host port [p]. *)
Definition runs_on (f : string) (p : Z) (w : World) : Prop :=
  ∃ c, lookup_container f w = Some c ∧ is_running c = true ∧ binds c p.

(** Whatever the registry has for [f] agrees with port [p]. *)
Definition record_agrees (f : string) (p : Z) (w : World) : Prop :=
  match container_registry w !! f with
  | None => True
  | Some info => port info = p ∧ container_name info = f
  end.

(** Before any caller for [f] has got anywhere. *)
Definition unsettled (f : string) (w : World) : Prop :=
  fault_free w ∧ container_registry w !! f = None ∧ adoptable f w.

(** Once a caller has adopted or created the container of [f] on port [p]. *)
Definition settled (f : string) (p : Z) (w : World) : Prop :=
  fault_free w ∧ runs_on f p w ∧ record_agrees f p w.

Definition caller_unsettled (f : string) (c : Caller) : Prop :=
  match c with
  | Waiting k => hash_api_key k = f
  | Finished (Raise e) => e = no_ports
  | _ => False
  end.

Definition caller_settled (f : string) (p : Z) (c : Caller) : Prop :=
  match c with
  | Waiting k => hash_api_key k = f
  | Sleeping (Sleep_then_return _ q n) => q = p ∧ n = f
  | Sleeping (Sleep_then_register _ h n q) => h = f ∧ n = f ∧ q = p
  | Finished (Ok (q, n)) => q = p ∧ n = f
  | Finished (Raise e) => e = no_ports
  end.

(** What holds of the callers for [f] and of the world at every point of
    every schedule; [c0] counts the creations issued before the first
    caller ran. *)
Definition single_flight (f : string) (c0 : nat) (callers : list Caller) (w : World)
    : Prop :=
  (unsettled f w ∧ Forall (caller_unsettled f) callers ∧ creates_issued f w = c0)
  ∨ (∃ p, settled f p w ∧ Forall (caller_settled f p) callers
          ∧ (creates_issued f w ≤ c0 + 1)%nat).

(** A container named like the one of ["tok-A"] runs without publishing
    the internal port. *)
Definition world_unbound : World :=
  mkWorld ∅ ∅ (mkRuntime true true true ∅ [mkContainer tok_A_name "running" ∅]) 1000 [].

(* ===================================================================== *)
(** ** Observability (lines 525-537) *)
(* ===================================================================== *)

(** What [health_check] returns; [timestamp] is the time of the call, left
    as the clock reading rather than as its ISO 8601 text. *)
Record Health := mkHealth {
  health_status : string;
  health_timestamp : Z;
  containers_tracked : nat;
  containers_running : nat
}.

(** [sum(1 for info in container_registry.values() if info.status == "running")] *)
Definition running_count (registry : gmap string ContainerInfo) : nat :=
  List.length (List.filter (λ item, String.eqb (status (snd item)) "running")
                           (map_to_list registry)).

(** [health_check], lines 525-537. *)
Definition health_check : M Health :=
  w ← get_world;
  now ← time;
  mret (mkHealth "healthy" now (size (container_registry w))
                 (running_count (container_registry w))).

(** What a turn of the sweeper makes of a record. *)
Definition swept (current_time : Z) (info : ContainerInfo) : ContainerInfo :=
  if is_idle current_time info then set_status "stopped" info else info.

(** The records whose key is not in [K] are what they were. *)
Definition outside (K : string → Prop) : relation World :=
  λ w w', ∀ h, ¬ K h → container_registry w' !! h = container_registry w !! h.

(** The trace has only grown. *)
Definition trace_extends : relation World :=
  λ w w', ∃ events, trace w' = events ++ trace w.

(** The daemon is as it was, and every container is as it was or has been
    stopped. *)
Definition only_stopped : relation World :=
  λ w w', daemon_up (runtime w') = daemon_up (runtime w)
          ∧ ∀ n, lookup_container n w' = lookup_container n w
                 ∨ lookup_container n w' = set_c_status "exited" <$> lookup_container n w.

(** The record of ["tok-A"] already says stopped and its container is
    stopped; the record has been idle for 1900 seconds. *)
Definition world_idle_stopped : World :=
  mkWorld {[tok_A_name := tok_A_info]} {[4000]}
          (mkRuntime true true true ∅ [tok_A_stopped]) 2000 [].

(** The clock is what it was. *)
Definition clock_kept : relation World := λ w w', clock w' = clock w.

(** The records that say running and are not idle at [current_time]. *)
Definition running_and_recent (current_time : Z) (registry : gmap string ContainerInfo)
    : nat :=
  List.length
    (List.filter (λ item, negb (is_idle current_time (snd item))
                          && String.eqb (status (snd item)) "running")
                 (map_to_list registry)).

(** The record of ["tok-A"] was marked stopped, but its container runs and
    the daemon answers. *)
Definition tok_A_marked : ContainerInfo :=
  mkContainerInfo tok_A_name tok_A_name 4000 0 0 "stopped".

Definition world_marked_running : World :=
  mkWorld {[tok_A_name := tok_A_marked]} {[4000]}
          (mkRuntime true true true ∅ [mkContainer tok_A_name "running" (published 4000)])
          1000 [].

(** The record of ["tok-A"] is there, on port 4000, but its container is
    gone from the runtime. *)
Definition world_container_gone : World :=
  mkWorld {[tok_A_name := tok_A_running]} {[4000]} runtime_ok 1000 [].

(** The daemon does not answer; the record of ["tok-A"] and its container,
    running, are there. *)
Definition world_daemon_down : World :=
  mkWorld {[tok_A_name := tok_A_running]} {[4000]} runtime_stop_fails 1000 [].

(** [allocated_ports] is what it was. *)
Definition ports_kept : relation World :=
  λ w w', allocated_ports w' = allocated_ports w.

(* ===================================================================== *)
(** ** Reasoning about the registry and the allocated ports *)
(* ===================================================================== *)

(** A property of the two globals a request can count on: the registry and
    the allocated ports. *)
Definition ledger_pred : Type := gmap string ContainerInfo → gset Z → Prop.

Definition holds (L : ledger_pred) (w : World) : Prop :=
  L (container_registry w) (allocated_ports w).

(** From a world where [L] holds, [m] ends in a world where [Q] holds of
    its result. *)
Definition triple {A} (L : ledger_pred) (m : M A) (Q : result A → ledger_pred) : Prop :=
  ∀ w, holds L w → holds (Q (fst (m w))) (snd (m w)).

(** Every record is filed under its container's name and holds a port that
    is allocated. *)
Definition ledger_ok : ledger_pred :=
  λ registry allocated,
    ∀ h info, registry !! h = Some info →
      port info ∈ allocated ∧ container_name info = h ∧ api_key_hash info = h.

(** What a caller for fingerprint [f] holds when its coroutine stops. *)
Definition step_ok (f : string) (s : Step) : ledger_pred :=
  λ registry allocated,
    match s with
    | Done p n | Await (Sleep_then_return _ p n) =>
        p ∈ allocated
        ∧ ∃ info, registry !! f = Some info ∧ port info = p ∧ container_name info = n
    | Await (Sleep_then_register _ h n p) =>
        p ∈ allocated ∧ h = f ∧ n = f
    end.

(** The postcondition of [create_or_start_container]. *)
Definition resolved (f : string) (r : result Step) : ledger_pred :=
  λ registry allocated,
    ledger_ok registry allocated
    ∧ match r with
      | Ok s => step_ok f s registry allocated
      | Raise _ => True
      end.

(** The same for the blocks that may fall through ([None]). *)
Definition resolved_or_not (f : string) (r : result (option Step)) : ledger_pred :=
  λ registry allocated,
    ledger_ok registry allocated
    ∧ match r with
      | Ok (Some s) => step_ok f s registry allocated
      | _ => True
      end.

(** A lease on [p] added to that. *)
Definition with_lease (p : Z) : ledger_pred := λ registry allocated,
  ledger_ok registry allocated ∧ p ∈ allocated.

(** The registry has record [info] for fingerprint [f]. *)
Definition knows (f : string) (info : ContainerInfo) : ledger_pred := λ registry allocated,
  ledger_ok registry allocated ∧ registry !! f = Some info.

(** What is asked of a request at any point of a schedule: the port it
    holds or has returned is allocated, and what it is about to register is
    filed under the container's name. *)
Definition caller_ok (allocated : gset Z) (c : Caller) : Prop :=
  match c with
  | Waiting _ => True
  | Sleeping (Sleep_then_return _ p _) => p ∈ allocated
  | Sleeping (Sleep_then_register _ h n p) => p ∈ allocated ∧ n = h
  | Finished (Ok (p, _)) => p ∈ allocated
  | Finished (Raise _) => True
  end.

(** Requests and the sweeper taking turns. *)
Inductive Turn :=
| Request_turn (i : nat)
| Sweeper_turn.

Fixpoint run_turns (turns : list Turn) (callers : list Caller) (w : World)
    : list Caller * World :=
  match turns with
  | [] => (callers, w)
  | Request_turn i :: rest =>
      match callers !! i with
      | Some c =>
          let '(c', w') := run_caller c w in
          run_turns rest (<[i := c']> callers) w'
      | None => run_turns rest callers w
      end
  | Sweeper_turn :: rest =>
      run_turns rest callers (snd (cleanup_idle_containers w))
  end.

(* ===================================================================== *)
(** ** Statistics (lines 231-245 and 540-570) *)
(* ===================================================================== *)

(** What the reads of lines 241-242 find for a container:
    [container.attrs["Created"]], and the tags of [container.image], for
    which the SDK asks the daemon.  Either read may raise. *)
Record Details := mkDetails {
  attrs_created : result string;
  image_tags : result (list string)
}.

(** The outcome of a read, which changes nothing. *)
Definition reading {A} (r : result A) : M A := λ w, (r, w).

(** [container.image.tags] *)
Definition container_image_tags (details : Container → Details) (container : Container)
    : M (list string) :=
  docker_call (ImagesGet (name container));;
  reading (image_tags (details container)).

(** The dictionary [get_container_info] returns. *)
Record ContainerDict := mkContainerDict {
  d_name : string;
  d_status : string;
  d_ports : gmap string (option (list Z));
  d_created : string;
  d_image : string
}.

(** [get_container_info], lines 231-245.  The values of the dictionary are
    evaluated in order; [container.image.tags] is evaluated for the test
    and, when it is not empty, once more for its first element. *)
Definition get_container_info (details : Container → Details) (n : string)
    : M (option ContainerDict) :=
  try_except
    (container ← containers_get n;
     created ← reading (attrs_created (details container));
     tags ← container_image_tags details container;
     image ← match tags with
             | _ :: _ =>
                 tags' ← container_image_tags details container;
                 match tags' with
                 | tag :: _ => mret tag
                 | [] => raise IndexError
                 end
             | [] => mret "unknown"%string
             end;
     mret (Some (mkContainerDict (name container) (c_status container) (ports container)
                   created image)))
    (λ _, mret None).

(** An item of [stats]; the two dates and the two idle times, which are
    computed in floating point, are left out. *)
Record ContainerStats := mkContainerStats {
  stats_container_name : string;
  stats_api_key_hash : string;
  stats_port : Z;
  stats_status : string;
  stats_container_info : option ContainerDict
}.

(** What [get_stats] returns, without its timestamp. *)
Record Stats := mkStats {
  total_containers : nat;
  stats_running_count : nat;
  stats_stopped_count : nat;
  stats_containers : list ContainerStats
}.

(** The loop of lines 548-562. *)
Fixpoint collect_stats (details : Container → Details)
    (items : list (string * ContainerInfo)) (stats : list ContainerStats)
    : M (list ContainerStats) :=
  match items with
  | [] => mret stats
  | (api_key_hash, info) :: rest =>
      container_info ← get_container_info details (container_name info);
      collect_stats details rest
        (stats ++ [mkContainerStats (container_name info) api_key_hash (port info)
                     (status info) container_info])
  end.

(** [sum(1 for s in stats if s["status"] == st)] *)
Definition count_status (st : string) (stats : list ContainerStats) : nat :=
  List.length (List.filter (λ s, String.eqb (stats_status s) st) stats).

(** [get_stats], lines 540-570. *)
Definition get_stats (details : Container → Details) : M Stats :=
  w ← get_world;
  stats ← collect_stats details (map_to_list (container_registry w)) [];
  w' ← get_world;
  mret (mkStats (size (container_registry w'))
                (count_status "running" stats)
                (count_status "stopped" stats)
                stats).

(** The comment of line 43: a status is ['running'] or ['stopped']. *)
Definition status_ok (info : ContainerInfo) : Prop :=
  status info = "running"%string ∨ status info = "stopped"%string.

Definition statuses_ok (registry : gmap string ContainerInfo) : Prop :=
  ∀ h info, registry !! h = Some info → status_ok info.

(** If the statuses were as line 43 says, they still are. *)
Definition statuses_kept : relation World :=
  λ w w', statuses_ok (container_registry w) → statuses_ok (container_registry w').

(** [tags[0] if tags else "unknown"] *)
Definition image_name (tags : list string) : string :=
  match tags with
  | tag :: _ => tag
  | [] => "unknown"%string
  end.

(** What [get_container_info] finds under a name: nothing when the daemon
    is down, when there is no such container, or when one of the reads of
    its details raises. *)
Definition container_info_of (details : Container → Details) (n : string) (w : World)
    : option ContainerDict :=
  if daemon_up (runtime w) then
    match lookup_container n w with
    | Some c =>
        match attrs_created (details c), image_tags (details c) with
        | Ok created, Ok tags =>
            Some (mkContainerDict (name c) (c_status c) (ports c) created (image_name tags))
        | _, _ => None
        end
    | None => None
    end
  else None.

(** The item of [stats] for a record, in state [w]. *)
Definition stats_of (details : Container → Details) (w : World)
    (item : string * ContainerInfo) : ContainerStats :=
  mkContainerStats (container_name (snd item)) (fst item) (port (snd item))
    (status (snd item)) (container_info_of details (container_name (snd item)) w).

(** The state of the process but for the trace is what it was. *)
Definition only_traced : relation World :=
  λ w w', container_registry w' = container_registry w
          ∧ allocated_ports w' = allocated_ports w
          ∧ runtime w' = runtime w
          ∧ clock w' = clock w.

(** A state with two records, one of them marked stopped; the container of
    the first is on the runtime. *)
Definition world_two_records : World :=
  mkWorld {[ tok_A_name := tok_A_info;
             "mcp-0123456789ab"%string :=
               mkContainerInfo "mcp-0123456789ab" "mcp-0123456789ab" 4001 900 900 "running" ]}
          {[4000; 4001]} (mkRuntime true true true ∅ [tok_A_stopped]) 1000 [].

(** Details that can be read, the image having one tag. *)
Definition details_ok : Container → Details :=
  λ _, mkDetails (Ok "2025-01-01T00:00:00Z"%string) (Ok ["outline-mcp:latest"%string]).

Example round_constants_ends :
  List.hd 0 Sha256.round_constants = 0x428a2f98
  ∧ List.last Sha256.round_constants 0 = 0xc67178f2
  ∧ List.length Sha256.round_constants = 64%nat
  ∧ Sha256.ra Sha256.initial_hash = 0x6a09e667
  ∧ Sha256.rh Sha256.initial_hash = 0x5be0cd19.
Proof. repeat split. Qed.

Example sha_abc :
  Sha256.hexdigest (encode "abc")
  = "ba7816bf8f01cfea414140de5dae2223b00361a396177a9cb410ff61f20015ad"%string.
Proof. vm_compute. reflexivity. Qed.

Example sha_empty :
  Sha256.hexdigest (encode "")
  = "e3b0c44298fc1c149afbf4c8996fb92427ae41e4649b934ca495991b7852b855"%string.
Proof. vm_compute. reflexivity. Qed.

Example sha_two_blocks :
  Sha256.hexdigest (encode "abcdbcdecdefdefgefghfghighijhijkijkljklmklmnlmnomnopnopq")
  = "248d6a61d20638b8e5c026930c3e6039a33ce45964ff2167f6ecedd419db06c1"%string.
Proof. vm_compute. reflexivity. Qed.

Example hash_api_key_tok_A : hash_api_key "tok-A" = "mcp-717876b49cd1"%string.
Proof. vm_compute. reflexivity. Qed.

(** A token with a character above 127 ([k], U+00E9, [y]). *)
Example hash_api_key_latin1 :
  hash_api_key (String "k" (String "233" (String "y" EmptyString)))
  = "mcp-164af2efdbf2"%string.
Proof. vm_compute. reflexivity. Qed.

(* ===================================================================== *)
(** ** Container names *)
(* ===================================================================== *)

Lemma hexchar_lower_hex (x : Z) : is_lower_hex (Sha256.hexchar (Z.land x 0xF)) = true.
Proof.
  change 0xF with (Z.ones 4). rewrite Z.land_ones by lia.
  pose proof (Z.mod_pos_bound x (2 ^ 4) ltac:(lia)) as Hb.
  set (n := x mod 2 ^ 4) in *.
  assert (Hn : n = 0 ∨ n = 1 ∨ n = 2 ∨ n = 3 ∨ n = 4 ∨ n = 5 ∨ n = 6 ∨ n = 7 ∨
               n = 8 ∨ n = 9 ∨ n = 10 ∨ n = 11 ∨ n = 12 ∨ n = 13 ∨ n = 14 ∨ n = 15)
    by lia.
  repeat (destruct Hn as [-> | Hn]; [reflexivity |]). subst n. rewrite Hn. reflexivity.
Qed.

Lemma hexdigest_length (msg : list Z) : String.length (Sha256.hexdigest msg) = 64%nat.
Proof. reflexivity. Qed.

Lemma hexdigest_lower_hex (msg : list Z) :
  Forall (λ c, is_lower_hex c = true) (list_ascii_of_string (Sha256.hexdigest msg)).
Proof.
  unfold Sha256.hexdigest, Sha256.hexword. cbn [list_ascii_of_string].
  repeat constructor; apply hexchar_lower_hex.
Qed.

Lemma slice_to_substring (n : nat) (s : string) : slice_to n s = String.substring 0 n s.
Proof.
  revert s. induction n as [| n IH]; intros [| c s]; simpl; try reflexivity.
  now rewrite IH.
Qed.

(** C2: for every token, the container name is ["mcp-"] followed by the
    first 12 characters of the lowercase hexadecimal SHA-256 digest of the
    token: the digest has 64 characters, the prefix exactly 12, all of them
    digits of lowercase hexadecimal.  [hash_api_key] takes the token and
    nothing else (no [World]): the name is a function of the token alone. *)
Theorem hash_api_key_sha256_prefix (t : string) :
  let digest := Sha256.hexdigest (encode t) in
  let fingerprint := String.substring 0 12 digest in
  hash_api_key t = ("mcp-" ++ fingerprint)%string
  ∧ String.length digest = 64%nat
  ∧ String.length fingerprint = 12%nat
  ∧ String.prefix fingerprint digest = true
  ∧ Forall (λ c, is_lower_hex c = true) (list_ascii_of_string fingerprint).
Proof.
  cbv zeta. split; [| split; [| split; [| split]]].
  - unfold hash_api_key. now rewrite slice_to_substring.
  - apply hexdigest_length.
  - reflexivity.
  - unfold Sha256.hexdigest, Sha256.hexword. cbn [String.substring String.prefix].
    repeat (destruct (ascii_dec _ _) as [_ | Hne]; [| now contradiction Hne]).
    reflexivity.
  - pose proof (hexdigest_lower_hex (encode t)) as H.
    unfold Sha256.hexdigest, Sha256.hexword in *.
    cbn [String.substring list_ascii_of_string] in *.
    repeat match goal with
           | H : Forall _ (_ :: _) |- _ => apply Forall_cons_1 in H; destruct H as [? H]
           end.
    repeat constructor; assumption.
Qed.

(* ===================================================================== *)
(** ** The credential oracle *)
(* ===================================================================== *)

(** C7, as the code has it: [validate_outline_key] answers with a boolean,
    [True] exactly when Outline replies HTTP 200; 401, 403, 5xx and network
    errors all give [False]. *)
Theorem validate_outline_key_boolean (oracle : string → OracleReply) (api_key : string) :
  validate_outline_key oracle api_key
  = match oracle api_key with
    | HttpStatus 200 => true
    | _ => false
    end
  ∧ (validate_outline_key oracle api_key = true ↔ oracle api_key = HttpStatus 200).
Proof.
  unfold validate_outline_key. destruct (oracle api_key) as [code |].
  - destruct (Z.eqb_spec code 200) as [-> | Hne].
    + split; [reflexivity | split; reflexivity].
    + split.
      * destruct code as [| p | p]; try reflexivity.
        repeat (destruct p as [p | p |]; try reflexivity); now contradiction Hne.
      * split; [discriminate | intros [= ->]; now contradiction Hne].
  - split; [reflexivity | split; discriminate].
Qed.

(** C7 as stated fails: an upstream outage and a rejected key give the same
    answer, so Unavailable cannot be told from Invalid. *)
Lemma validate_outline_key_conflates :
  validate_outline_key (oracle_of (HttpStatus 401)) "key" = false
  ∧ validate_outline_key (oracle_of (HttpStatus 403)) "key" = false
  ∧ validate_outline_key (oracle_of (HttpStatus 503)) "key" = false
  ∧ validate_outline_key (oracle_of NetworkError) "key" = false
  ∧ ¬ ∃ classify : bool → nat,
        classify (validate_outline_key (oracle_of (HttpStatus 401)) "key")
        ≠ classify (validate_outline_key (oracle_of NetworkError) "key").
Proof.
  repeat split; try reflexivity. intros [classify H]. now apply H.
Qed.

(* ===================================================================== *)
(** ** The request gateway *)
(* ===================================================================== *)

(** The request that reaches the container is the one [upstream_request]
    builds. *)
Lemma proxy_request_calls_upstream upstream host_port path request w :
  proxy_request upstream host_port path request w
  = match upstream (upstream_request host_port path request) with
    | Replied response => (Ok response, w)
    | TimedOut => (Raise (HTTPException 504 "Gateway Timeout"), w)
    | Failed => (Raise (HTTPException 502 "Bad Gateway"), w)
    end.
Proof.
  unfold proxy_request. now destruct (upstream _).
Qed.

(** C10: the body the gateway forwards, by method.  Whatever the container
    behind it does, [proxy_request] calls it once, with one request [sent],
    and answers with what comes of that call: its reply, 504 when it times
    out, 502 when it fails otherwise.  [sent] has the method of the inbound
    request and goes to the resolved port and the path; its body is empty
    for GET, DELETE, HEAD and OPTIONS, and is the inbound body for POST, PUT
    and PATCH and for no other method. *)
Theorem forwarded_body_by_method (host_port : Z) (path : string) (request : Request) :
  ∃ sent : UpstreamRequest,
    (∀ (upstream : UpstreamRequest → UpstreamReply) (w : World),
       proxy_request upstream host_port path request w
       = (match upstream sent with
          | Replied response => Ok response
          | TimedOut => Raise (HTTPException 504 "Gateway Timeout")
          | Failed => Raise (HTTPException 502 "Bad Gateway")
          end, w))
    ∧ u_method sent = method request
    ∧ u_port sent = host_port
    ∧ u_path sent = path
    ∧ (method request ∈ ["GET"; "DELETE"; "HEAD"; "OPTIONS"]%string → u_content sent = ""%string)
    ∧ (method request ∈ ["POST"; "PUT"; "PATCH"]%string → u_content sent = body request)
    ∧ (method request ∉ ["POST"; "PUT"; "PATCH"]%string → u_content sent = ""%string).
Proof.
  exists (upstream_request host_port path request). split.
  { intros upstream w. rewrite proxy_request_calls_upstream. now destruct (upstream _). }
  unfold upstream_request, forwarded_body. cbn [u_content u_method u_port u_path].
  repeat split.
  - intros Hin. rewrite bool_decide_eq_false_2; [reflexivity |].
    intros Hin'. apply list_elem_of_In in Hin, Hin'. cbn [In] in Hin, Hin'.
    destruct Hin as [E | [E | [E | [E | []]]]]; rewrite <- E in Hin';
      destruct Hin' as [E' | [E' | [E' | []]]]; discriminate E'.
  - intros Hin. now rewrite bool_decide_eq_true_2.
  - intros Hin. now rewrite bool_decide_eq_false_2.
Qed.

(** A GET with a body reaches the echoing container without it; a POST
    reaches it with its body. *)
Lemma forwarded_body_by_method_witness :
  fst (proxy_request upstream_echo 4000 "mcp" get_request (world_of runtime_ok))
  = Ok (mkResponse 200 ∅ "")
  ∧ fst (proxy_request upstream_echo 4000 "mcp" post_request (world_of runtime_ok))
    = Ok (mkResponse 200 ∅ "{'jsonrpc': '2.0'}").
Proof.
  split.
  - destruct (forwarded_body_by_method 4000 "mcp" get_request)
      as (sent & Hcall & _ & _ & _ & Hget & _).
    rewrite Hcall. unfold upstream_echo. cbn [fst]. rewrite Hget; [reflexivity |].
    apply list_elem_of_In. simpl. tauto.
  - destruct (forwarded_body_by_method 4000 "mcp" post_request)
      as (sent & Hcall & _ & _ & _ & _ & Hpost & _).
    rewrite Hcall. unfold upstream_echo. cbn [fst]. rewrite Hpost; [reflexivity |].
    apply list_elem_of_In. simpl. tauto.
Defined.

(** The status of every response of [proxy]. *)
Lemma proxy_status env path request x_outline_api_key w :
  status_code (fst (serve (proxy env path request x_outline_api_key) w))
  = match x_outline_api_key with
    | None | Some EmptyString => 400
    | Some key =>
        if validate_outline_key (oracle env) key then
          match resolve key w with
          | (Raise _, _) => 503
          | (Ok (host_port, _), _) =>
              match upstream env (upstream_request host_port path request) with
              | Replied response => status_code response
              | TimedOut => 504
              | Failed => 502
              end
          end
        else 401
    end.
Proof.
  unfold serve, proxy, authenticate_and_resolve, mbind, M_bind.
  destruct x_outline_api_key as [[| c key] |]; try reflexivity.
  destruct (validate_outline_key _ _); [| reflexivity].
  cbn [negb]. unfold try_except.
  destruct (resolve _ w) as [[[host_port cname] | e] w']; [| reflexivity].
  rewrite proxy_request_calls_upstream. cbn [fst].
  now destruct (upstream env _).
Qed.

(** [mcp_http_endpoint] is [proxy] on the path [mcp]. *)
Lemma mcp_http_endpoint_proxy env request x_outline_api_key :
  mcp_http_endpoint env request x_outline_api_key
  = proxy env "mcp" request x_outline_api_key.
Proof. reflexivity. Qed.

(** C3: the status mapping of a proxied request.  No key header gives 400; a
    key the oracle does not validate gives 401; a failure of
    [create_or_start_container], whatever it raises, gives 503; a timeout of
    the request to the container gives 504 and any other failure of it 502. *)
Theorem proxy_status_mapping env path request w :
  let status h := status_code (fst (serve (proxy env path request h) w)) in
  status None = 400
  ∧ (∀ key, key ≠ ""%string → validate_outline_key (oracle env) key = false →
       status (Some key) = 401)
  ∧ (∀ key e w', key ≠ ""%string → validate_outline_key (oracle env) key = true →
       resolve key w = (Raise e, w') → status (Some key) = 503)
  ∧ (∀ key host_port cname w', key ≠ ""%string →
       validate_outline_key (oracle env) key = true →
       resolve key w = (Ok (host_port, cname), w') →
       (upstream env (upstream_request host_port path request) = TimedOut →
          status (Some key) = 504)
       ∧ (upstream env (upstream_request host_port path request) = Failed →
          status (Some key) = 502)).
Proof.
  cbv zeta. split; [apply proxy_status |]. split; [| split].
  - intros key Hne Hv. rewrite proxy_status, Hv. now destruct key.
  - intros key e w' Hne Hv Hr. rewrite proxy_status, Hv, Hr. now destruct key.
  - intros key host_port cname w' Hne Hv Hr.
    split; intros Hu; rewrite proxy_status, Hv, Hr, Hu; now destruct key.
Qed.

Lemma proxy_status_mapping_witness :
  let status env d :=
    status_code (fst (serve (proxy env "mcp" post_request (Some "tok-A"%string)) (world_of d))) in
  status (env_of (HttpStatus 401) (Replied ok_response)) runtime_ok = 401
  ∧ status (env_of (HttpStatus 200) (Replied ok_response)) runtime_down = 503
  ∧ status (env_of (HttpStatus 200) TimedOut) runtime_ok = 504
  ∧ status (env_of (HttpStatus 200) Failed) runtime_ok = 502.
Proof.
  cbv zeta. split; [| split; [| split]].
  - apply (proxy_status_mapping (env_of (HttpStatus 401) (Replied ok_response))
             "mcp" post_request (world_of runtime_ok)).
    + discriminate.
    + reflexivity.
  - eapply (proxy_status_mapping (env_of (HttpStatus 200) (Replied ok_response))
              "mcp" post_request (world_of runtime_down)).
    + discriminate.
    + reflexivity.
    + vm_compute. reflexivity.
  - eapply (proxy_status_mapping (env_of (HttpStatus 200) TimedOut)
              "mcp" post_request (world_of runtime_ok)).
    + discriminate.
    + reflexivity.
    + vm_compute. reflexivity.
    + reflexivity.
  - eapply (proxy_status_mapping (env_of (HttpStatus 200) Failed)
              "mcp" post_request (world_of runtime_ok)).
    + discriminate.
    + reflexivity.
    + vm_compute. reflexivity.
    + reflexivity.
Defined.

(* ===================================================================== *)
(** ** Running the monad *)
(* ===================================================================== *)

Ltac munfold :=
  unfold mbind, M_bind, mret, M_ret, try_except, raise, modify, get_world, time in *.

Lemma bind_ok {A B} (m : M A) (f : A → M B) w a w' :
  m w = (Ok a, w') → (m ≫= f) w = f a w'.
Proof. intros H. unfold mbind, M_bind. now rewrite H. Qed.

Lemma bind_raise {A B} (m : M A) (f : A → M B) w e w' :
  m w = (Raise e, w') → (m ≫= f) w = (Raise e, w').
Proof. intros H. unfold mbind, M_bind. now rewrite H. Qed.

Lemma try_ok {A} (m : M A) h w a w' :
  m w = (Ok a, w') → try_except m h w = (Ok a, w').
Proof. intros H. unfold try_except. now rewrite H. Qed.

Lemma try_raise {A} (m : M A) h w e w' :
  m w = (Raise e, w') → try_except m h w = h e w'.
Proof. intros H. unfold try_except. now rewrite H. Qed.

Lemma docker_call_up c w :
  daemon_up (runtime w) = true → docker_call c w = (Ok tt, with_event (Call c) w).
Proof. intros H. unfold docker_call. now rewrite H. Qed.

Lemma docker_call_down c w :
  daemon_up (runtime w) = false →
  docker_call c w = (Raise DockerException, with_event (Call c) w).
Proof. intros H. unfold docker_call. now rewrite H. Qed.

(* ===================================================================== *)
(** ** The port allocator *)
(* ===================================================================== *)

Lemma collect_used_ports_scan cs acc w :
  match scan_ports cs acc with
  | Some s => collect_used_ports cs acc w = (Ok s, w)
  | None => ∃ e, collect_used_ports cs acc w = (Raise e, w)
  end.
Proof.
  revert acc. induction cs as [| c cs IH]; intros acc; cbn [scan_ports collect_used_ports].
  - reflexivity.
  - unfold has_internal_port, first_host_port.
    destruct (ports c !! "3000/tcp"%string) as [[[| p others] |] |] eqn:E.
    + rewrite bool_decide_eq_true_2 by eauto. munfold. eauto.
    + rewrite bool_decide_eq_true_2 by eauto. munfold. apply IH.
    + rewrite bool_decide_eq_true_2 by eauto. munfold. eauto.
    + rewrite bool_decide_eq_false_2 by (intros [? ?]; discriminate). apply IH.
Qed.

Lemma containers_list_eq w :
  containers_list w
  = (if daemon_up (runtime w) then Ok (containers (runtime w)) else Raise DockerException,
     with_event (Call ContainersList) w).
Proof.
  unfold containers_list. destruct (daemon_up (runtime w)) eqn:Hup.
  - erewrite bind_ok by now apply docker_call_up. reflexivity.
  - erewrite bind_raise by now apply docker_call_down. reflexivity.
Qed.

Lemma used_ports_eq w :
  try_except (cs ← containers_list; collect_used_ports cs ∅) (λ _, mret ∅) w
  = (Ok (used_ports_view w), with_event (Call ContainersList) w).
Proof.
  unfold used_ports_view. destruct (daemon_up (runtime w)) eqn:Hup.
  - pose proof (collect_used_ports_scan (containers (runtime w)) ∅
                  (with_event (Call ContainersList) w)) as Hs.
    destruct (scan_ports _ _).
    + erewrite try_ok; [reflexivity |].
      erewrite bind_ok; [exact Hs |]. now rewrite containers_list_eq, Hup.
    + destruct Hs as [e Hs]. erewrite try_raise; [reflexivity |].
      erewrite bind_ok; [exact Hs |]. now rewrite containers_list_eq, Hup.
  - erewrite try_raise; [reflexivity |].
    erewrite bind_raise; [reflexivity |]. now rewrite containers_list_eq, Hup.
Qed.

(** [get_next_available_port], as one equation. *)
Lemma get_next_available_port_eq w :
  let w1 := called ContainersList w in
  get_next_available_port w
  = match List.find (port_is_free w) (range NEXT_PORT MAX_PORT) with
    | Some p => (Ok p, leased p w1)
    | None => (Raise no_ports, w1)
    end.
Proof.
  cbv zeta. unfold get_next_available_port.
  erewrite bind_ok by apply used_ports_eq.
  unfold port_is_free, allocated_ports_add, no_ports. munfold. cbn.
  now destruct (List.find _ _).
Qed.

Lemma scan_ports_readable cs acc :
  Forall readable cs →
  ∃ s, scan_ports cs acc = Some s ∧ ∀ p, p ∈ s ↔ p ∈ acc ∨ ∃ c, c ∈ cs ∧ binds c p.
Proof.
  intros Hr. revert acc. induction Hr as [| c cs Hc _ IH]; intros acc; cbn [scan_ports].
  - exists acc. split; [reflexivity |]. intros p. split; [auto |].
    intros [H | (c & Hc & _)]; [exact H | now apply elem_of_nil in Hc].
  - destruct Hc as [Hnone | [p0 [others Hb]]].
    + rewrite Hnone. destruct (IH acc) as (s & Hs & Hin). exists s. split; [exact Hs |].
      intros p. rewrite Hin. split.
      * intros [H | (c' & Hc' & Hb')]; [now left | right; exists c'; split; [now right | exact Hb']].
      * intros [H | (c' & Hc' & Hb')]; [now left |].
        apply elem_of_cons in Hc' as [-> | Hc'].
        -- destruct Hb' as [o Hb']. congruence.
        -- right. eauto.
    + rewrite Hb. destruct (IH ({[p0]} ∪ acc)) as (s & Hs & Hin). exists s. split; [exact Hs |].
      intros p. rewrite Hin, elem_of_union, elem_of_singleton. split.
      * intros [[-> | H] | (c' & Hc' & Hb')].
        -- right. exists c. split; [now left | now exists others].
        -- now left.
        -- right. exists c'. split; [now right | exact Hb'].
      * intros [H | (c' & Hc' & Hb')]; [now left; right |].
        apply elem_of_cons in Hc' as [-> | Hc'].
        -- destruct Hb' as [o Hb']. left; left. congruence.
        -- right. eauto.
Qed.

Lemma port_is_free_taken w p :
  (daemon_up (runtime w) = true → Forall readable (containers (runtime w))) →
  port_is_free w p = true ↔ ¬ taken w p.
Proof.
  intros Hr. unfold port_is_free, taken, used_ports_view.
  rewrite andb_true_iff, !bool_decide_eq_true.
  destruct (daemon_up (runtime w)) eqn:Hup.
  - destruct (scan_ports_readable _ ∅ (Hr eq_refl)) as (s & -> & Hin). cbn [default].
    rewrite Hin. split.
    + intros [Ha Hu] [H | [_ H]]; [now apply Ha | apply Hu; now right].
    + intros Hn. split; [intros H; apply Hn; now left |].
      intros [H | H]; [now apply not_elem_of_empty in H | apply Hn; right; now split].
  - split.
    + intros [Ha _] [H | [H _]]; [now apply Ha | discriminate].
    + intros Hn. split; [intros H; apply Hn; now left | apply not_elem_of_empty].
Qed.

Lemma find_seqZ_first (f : Z → bool) (n : nat) (a p : Z) :
  f p = true → a ≤ p < a + Z.of_nat n → (∀ q, a ≤ q < p → f q = false) →
  List.find f (seqZ a (Z.of_nat n)) = Some p.
Proof.
  revert a. induction n as [| n IH]; intros a Hp Hrange Hbefore; [lia |].
  rewrite seqZ_cons by lia. cbn [List.find].
  destruct (Z.eq_dec a p) as [-> | Hne]; [now rewrite Hp |].
  rewrite (Hbefore a) by lia.
  replace (Z.pred (Z.of_nat (S n))) with (Z.of_nat n) by lia.
  apply IH; [exact Hp | lia | intros q Hq; apply Hbefore; lia].
Qed.

Lemma find_seqZ_none (f : Z → bool) (n : nat) (a : Z) :
  (∀ q, a ≤ q < a + Z.of_nat n → f q = false) →
  List.find f (seqZ a (Z.of_nat n)) = None.
Proof.
  revert a. induction n as [| n IH]; intros a Hall; [reflexivity |].
  rewrite seqZ_cons by lia. cbn [List.find]. rewrite (Hall a) by lia.
  replace (Z.pred (Z.of_nat (S n))) with (Z.of_nat n) by lia.
  apply IH. intros q Hq. apply Hall. lia.
Qed.

(** C8, as the code has it.  When the inventory can be listed and read, the
    allocator returns the first port of [4000, 5000) that is neither in
    [allocated_ports] nor the first host binding of the internal port of a
    listed container, and adds it to [allocated_ports]; when the listing
    raises, only [allocated_ports] is consulted; when no port of the window
    qualifies it raises [RuntimeError]. *)
Theorem get_next_available_port_first_free (w : World) :
  (daemon_up (runtime w) = true → Forall readable (containers (runtime w))) →
  (∀ p, 4000 ≤ p < 5000 → ¬ taken w p → (∀ q, 4000 ≤ q < p → taken w q) →
     ∃ w', get_next_available_port w = (Ok p, w')
           ∧ allocated_ports w' = {[p]} ∪ allocated_ports w
           ∧ container_registry w' = container_registry w
           ∧ runtime w' = runtime w)
  ∧ ((∀ p, 4000 ≤ p < 5000 → taken w p) →
     ∃ w', get_next_available_port w = (Raise no_ports, w')
           ∧ allocated_ports w' = allocated_ports w
           ∧ container_registry w' = container_registry w
           ∧ runtime w' = runtime w).
Proof.
  intros Hr. rewrite get_next_available_port_eq. cbv zeta.
  unfold range, NEXT_PORT, MAX_PORT. change (5000 - 4000) with (Z.of_nat 1000).
  split.
  - intros p Hp Hfree Hbefore.
    rewrite (find_seqZ_first (port_is_free w) 1000 4000 p).
    + eexists. split; [reflexivity |]. now cbn.
    + now apply port_is_free_taken.
    + lia.
    + intros q Hq. apply not_true_is_false. rewrite port_is_free_taken by exact Hr.
      intros Hn. apply Hn, Hbefore, Hq.
  - intros Hall. rewrite find_seqZ_none.
    + eexists. split; [reflexivity |]. now cbn.
    + intros q Hq. apply not_true_is_false. rewrite port_is_free_taken by exact Hr.
      intros Hn. apply Hn, Hall. lia.
Qed.

Lemma get_next_available_port_first_free_witness :
  ∃ w', get_next_available_port (world_of runtime_leftover) = (Ok 4001, w')
        ∧ allocated_ports w' = {[4001]} ∪ allocated_ports (world_of runtime_leftover)
        ∧ container_registry w' = container_registry (world_of runtime_leftover)
        ∧ runtime w' = runtime (world_of runtime_leftover).
Proof.
  refine (proj1 (get_next_available_port_first_free (world_of runtime_leftover) _) 4001 _ _ _).
  - intros _. constructor; [| constructor]. right. exists 4000, []. reflexivity.
  - lia.
  - intros [H | [_ (c & Hc & o & Hb)]].
    + now apply not_elem_of_empty in H.
    + apply list_elem_of_In in Hc. destruct Hc as [<- | []]. discriminate Hb.
  - intros q Hq. assert (q = 4000) as -> by lia. right. split; [reflexivity |].
    exists leftover. split; [apply list_elem_of_here | now exists []].
Defined.

(** C8 as stated fails: when the listing raises, the allocator hands out
    port 4000 although a container of the inventory is bound to it. *)
Lemma get_next_available_port_hands_out_bound_port :
  fst (get_next_available_port (world_of runtime_unlistable)) = Ok 4000
  ∧ (4000 ∉ allocated_ports (world_of runtime_unlistable))
  ∧ leased_or_bound (world_of runtime_unlistable) 4000.
Proof.
  split; [vm_compute; reflexivity |]. split; [apply not_elem_of_empty |].
  right. exists leftover. split; [apply list_elem_of_here | now exists []].
Qed.

(* ===================================================================== *)
(** ** What a computation preserves *)
(* ===================================================================== *)

#[local] Instance ports_grow_preorder : PreOrder ports_grow.
Proof.
  split; [intros w; unfold ports_grow; reflexivity |].
  intros w1 w2 w3 H1 H2. unfold ports_grow in *. etransitivity; eassumption.
Qed.

#[local] Instance ledger_kept_preorder : PreOrder ledger_kept.
Proof.
  split; [intros w; split; reflexivity |].
  intros w1 w2 w3 [H1 H2] [H3 H4]. split; congruence.
Qed.

#[local] Instance records_marked_preorder : PreOrder records_marked.
Proof.
  split; [intros w h; now left |].
  intros w1 w2 w3 H1 H2 h. destruct (H2 h) as [-> | ->], (H1 h) as [-> | ->]; auto.
  right. now destruct (container_registry w1 !! h).
Qed.

#[local] Instance ports_grow_blind : Blind ports_grow.
Proof. split; intros; unfold ports_grow; reflexivity. Qed.

#[local] Instance ledger_kept_blind : Blind ledger_kept.
Proof. split; intros; split; reflexivity. Qed.

#[local] Instance records_marked_blind : Blind records_marked.
Proof. split; intros w ? h; now left. Qed.

Section Preserved.
Context (R : relation World) `{!PreOrder R}.

Lemma preserves_ret {A} (a : A) : preserves R (mret a).
Proof. intros w. reflexivity. Qed.

Lemma preserves_raise {A} e : preserves R (@raise A e).
Proof. intros w. reflexivity. Qed.

Lemma preserves_bind {A B} (m : M A) (f : A → M B) :
  preserves R m → (∀ a, preserves R (f a)) → preserves R (m ≫= f).
Proof.
  intros Hm Hf w. unfold mbind, M_bind. specialize (Hm w).
  destruct (m w) as [[a | e] w1]; cbn [snd] in *; [| exact Hm].
  etransitivity; [exact Hm | apply Hf].
Qed.

Lemma preserves_try {A} (m : M A) h :
  preserves R m → (∀ e, preserves R (h e)) → preserves R (try_except m h).
Proof.
  intros Hm Hh w. unfold try_except. specialize (Hm w).
  destruct (m w) as [[a | e] w1]; cbn [snd] in *; [exact Hm |].
  etransitivity; [exact Hm | apply Hh].
Qed.

Lemma preserves_modify f : (∀ w, R w (f w)) → preserves R (modify f).
Proof. intros H w. apply H. Qed.

Lemma preserves_get_world : preserves R get_world.
Proof. intros w. reflexivity. Qed.

Lemma preserves_time : preserves R time.
Proof. intros w. reflexivity. Qed.

Context `{!Blind R}.

Lemma preserves_docker_call c : preserves R (docker_call c).
Proof. intros w. unfold docker_call. destruct (daemon_up _); apply blind_event. Qed.

Lemma preserves_modify_containers f : preserves R (modify_containers f).
Proof. intros w. apply blind_runtime. Qed.

Lemma preserves_set_image b :
  preserves R (modify (λ w, with_runtime (with_image b (runtime w)) w)).
Proof. intros w. apply blind_runtime. Qed.

End Preserved.

Ltac preserves_step :=
  match goal with
  | |- preserves ?R (_ ≫= _) => apply (preserves_bind R); [| intros ?]
  | |- preserves ?R (try_except _ _) => apply (preserves_try R); [| intros ?]
  | |- preserves ?R (mret _) => apply (preserves_ret R)
  | |- preserves ?R (raise _) => apply (preserves_raise R)
  | |- preserves ?R get_world => apply (preserves_get_world R)
  | |- preserves ?R time => apply (preserves_time R)
  | |- preserves ?R (docker_call _) => apply (preserves_docker_call R)
  | |- preserves ?R (modify_containers _) => apply (preserves_modify_containers R)
  | |- preserves ?R (modify (λ w, with_runtime _ w)) => apply (preserves_set_image R)
  | |- preserves _ (if ?b then _ else _) => destruct b
  | |- preserves _ (match ?x with _ => _ end) => destruct x
  | H : preserves ?R ?m |- preserves ?R ?m => exact H
  | H : ∀ _, preserves _ _ |- preserves _ _ => apply H
  end.

Create HintDb preserved.

#[local] Hint Resolve ports_grow_preorder ledger_kept_preorder records_marked_preorder
  ports_grow_blind ledger_kept_blind records_marked_blind : preserved.

Ltac preserves_auto := repeat first [preserves_step | solve [auto with preserved]].

Section Runtime_calls.
Context (R : relation World) `{!PreOrder R} `{!Blind R}.

Lemma preserves_containers_list : preserves R containers_list.
Proof. unfold containers_list. preserves_auto. Qed.

Lemma preserves_containers_get n : preserves R (containers_get n).
Proof. unfold containers_get. preserves_auto. Qed.

Lemma preserves_container_start n : preserves R (container_start n).
Proof. unfold container_start. preserves_auto. Qed.

Lemma preserves_container_stop n : preserves R (container_stop n).
Proof. unfold container_stop. preserves_auto. Qed.

Lemma preserves_container_remove n : preserves R (container_remove n).
Proof. unfold container_remove. preserves_auto. Qed.

Lemma preserves_images_pull : preserves R images_pull.
Proof. unfold images_pull. preserves_auto. Qed.

Lemma preserves_containers_create n p : preserves R (containers_create n p).
Proof. unfold containers_create. preserves_auto. Qed.

Lemma preserves_first_host_port c : preserves R (first_host_port c).
Proof. unfold first_host_port. preserves_auto. Qed.

Lemma preserves_collect_used_ports cs acc : preserves R (collect_used_ports cs acc).
Proof.
  revert acc. induction cs as [| c cs IH]; intros acc; cbn [collect_used_ports];
    repeat first [apply preserves_first_host_port | preserves_step].
Qed.

Lemma preserves_is_container_running n : preserves R (is_container_running n).
Proof.
  unfold is_container_running.
  repeat first [apply preserves_containers_get | preserves_step].
Qed.

Lemma preserves_is_container_stopped n : preserves R (is_container_stopped n).
Proof.
  unfold is_container_stopped.
  repeat first [apply preserves_containers_get | preserves_step].
Qed.

Lemma preserves_start_existing_container n : preserves R (start_existing_container n).
Proof.
  unfold start_existing_container.
  repeat first [apply preserves_containers_get | apply preserves_container_start
               | preserves_step].
Qed.

Lemma preserves_create_container k p : preserves R (create_container k p).
Proof.
  unfold create_container.
  repeat first [apply preserves_images_pull | apply preserves_containers_create
               | apply preserves_container_start | preserves_step].
Qed.

End Runtime_calls.

#[local] Hint Resolve preserves_containers_list preserves_containers_get
  preserves_container_start preserves_container_stop preserves_container_remove
  preserves_images_pull preserves_containers_create preserves_first_host_port
  preserves_collect_used_ports preserves_is_container_running
  preserves_is_container_stopped preserves_start_existing_container
  preserves_create_container : preserved.

(* ===================================================================== *)
(** ** [allocated_ports] only grows *)
(* ===================================================================== *)

Lemma grows_allocated_ports_add p : preserves ports_grow (allocated_ports_add p).
Proof.
  apply (preserves_modify ports_grow). intros w. unfold ports_grow. cbn. apply union_subseteq_r.
Qed.

Lemma grows_registry_set h i : preserves ports_grow (registry_set h i).
Proof. apply (preserves_modify ports_grow). intros w. unfold ports_grow. reflexivity. Qed.

Lemma grows_registry_alter f h : preserves ports_grow (registry_alter f h).
Proof. apply (preserves_modify ports_grow). intros w. unfold ports_grow. reflexivity. Qed.

Lemma grows_registry_del h : preserves ports_grow (registry_del h).
Proof. apply (preserves_modify ports_grow). intros w. unfold ports_grow. reflexivity. Qed.

#[local] Hint Resolve grows_allocated_ports_add grows_registry_set grows_registry_alter
  grows_registry_del : preserved.

Lemma grows_get_next_available_port : preserves ports_grow get_next_available_port.
Proof. unfold get_next_available_port. preserves_auto. Qed.

#[local] Hint Resolve grows_get_next_available_port : preserved.

Lemma grows_fresh_creation k h : preserves ports_grow (fresh_creation k h).
Proof. unfold fresh_creation. preserves_auto. Qed.

#[local] Hint Resolve grows_fresh_creation : preserved.

Lemma grows_adopt_running k h n : preserves ports_grow (adopt_running k h n).
Proof. unfold adopt_running. preserves_auto. Qed.

#[local] Hint Resolve grows_adopt_running : preserved.

Lemma grows_adopt_stopped k h n : preserves ports_grow (adopt_stopped k h n).
Proof. unfold adopt_stopped. preserves_auto. Qed.

#[local] Hint Resolve grows_adopt_stopped : preserved.

Lemma grows_create_or_start_container k :
  preserves ports_grow (create_or_start_container k).
Proof. unfold create_or_start_container. preserves_auto. Qed.

Lemma grows_resume s : preserves ports_grow (resume s).
Proof. unfold resume. preserves_auto. Qed.

Lemma grows_stop_idle_items t items keys :
  preserves ports_grow (stop_idle_items t items keys).
Proof.
  revert keys. induction items as [| item items IH]; intros keys;
    cbn [stop_idle_items]; [preserves_auto |].
  apply (preserves_bind ports_grow); [| intros ?; apply IH].
  unfold stop_if_idle. preserves_auto.
Qed.

Lemma grows_update_registry keys : preserves ports_grow (update_registry keys).
Proof. induction keys as [| k keys IH]; cbn [update_registry]; preserves_auto. Qed.

#[local] Hint Resolve grows_stop_idle_items grows_update_registry : preserved.

Lemma grows_cleanup_idle_containers : preserves ports_grow cleanup_idle_containers.
Proof. unfold cleanup_idle_containers. preserves_auto. Qed.

(** No activity of the process ever removes a port from [allocated_ports]. *)
Lemma run_activity_grows w a : allocated_ports w ⊆ allocated_ports (run_activity w a).
Proof.
  destruct a as [[api_key | s | r] |]; cbn [run_activity run_caller].
  - pose proof (grows_create_or_start_container api_key w) as H.
    destruct (create_or_start_container api_key w) as [[[p n | s] | e] w']; exact H.
  - pose proof (grows_resume s w) as H. destruct (resume s w) as [r w']. exact H.
  - reflexivity.
  - apply grows_cleanup_idle_containers.
Qed.

Lemma run_activities_grows acts w :
  allocated_ports w ⊆ allocated_ports (run_activities acts w).
Proof.
  revert w. induction acts as [| a acts IH]; intros w; [reflexivity |].
  cbn. etransitivity; [apply run_activity_grows | apply IH].
Qed.

(* ===================================================================== *)
(** ** What never raises *)
(* ===================================================================== *)

Lemma total_ret {A} (a : A) : total (mret a).
Proof. intros w. now exists a. Qed.

Lemma total_bind {A B} (m : M A) (f : A → M B) :
  total m → (∀ a, total (f a)) → total (m ≫= f).
Proof.
  intros Hm Hf w. unfold mbind, M_bind. destruct (Hm w) as [a Ha].
  destruct (m w) as [[a' | e] w1]; cbn [fst] in Ha; [| discriminate]. apply Hf.
Qed.

Lemma total_try {A} (m : M A) h : (∀ e, total (h e)) → total (try_except m h).
Proof.
  intros Hh w. unfold try_except. destruct (m w) as [[a | e] w1]; [now exists a | apply Hh].
Qed.

Lemma total_modify f : total (modify f).
Proof. intros w. now exists tt. Qed.

Lemma total_get_world : total get_world.
Proof. intros w. now exists w. Qed.

Lemma total_time : total time.
Proof. intros w. now exists (clock w). Qed.

Ltac total_step :=
  match goal with
  | |- total (_ ≫= _) => apply total_bind; [| intros ?]
  | |- total (try_except _ _) => apply total_try; intros ?
  | |- total (mret _) => apply total_ret
  | |- total get_world => apply total_get_world
  | |- total time => apply total_time
  | |- total (modify _) => apply total_modify
  | |- total (if ?b then _ else _) => destruct b
  | |- total (match ?x with _ => _ end) => destruct x
  end.

Lemma total_registry_set h i : total (registry_set h i).
Proof. apply total_modify. Qed.

Lemma total_registry_alter f h : total (registry_alter f h).
Proof. apply total_modify. Qed.

Lemma total_registry_del h : total (registry_del h).
Proof. apply total_modify. Qed.

Lemma total_allocated_ports_add p : total (allocated_ports_add p).
Proof. apply total_modify. Qed.

Lemma total_is_container_running n : total (is_container_running n).
Proof. unfold is_container_running. repeat total_step. Qed.

Lemma total_is_container_stopped n : total (is_container_stopped n).
Proof. unfold is_container_stopped. repeat total_step. Qed.

Lemma total_start_existing_container n : total (start_existing_container n).
Proof. unfold start_existing_container. repeat total_step. Qed.

Lemma total_create_container k p : total (create_container k p).
Proof. unfold create_container. repeat total_step. Qed.

#[local] Hint Resolve total_registry_set total_registry_alter total_registry_del
  total_allocated_ports_add total_is_container_running total_is_container_stopped
  total_start_existing_container total_create_container : preserved.

Ltac total_auto := repeat first [total_step | solve [auto with preserved]].

(* ===================================================================== *)
(** ** Failed creations keep their port *)
(* ===================================================================== *)

Lemma leases_ret {A} (a : A) : raises_only_after_lease (mret a).
Proof. intros w. exact I. Qed.

Lemma leases_total {A} (m : M A) : total m → raises_only_after_lease m.
Proof.
  intros Hm w. destruct (Hm w) as [a Ha].
  destruct (m w) as [[a' | e] w']; [exact I | discriminate].
Qed.

Lemma leases_bind {A B} (m : M A) (f : A → M B) :
  total m → preserves ports_grow m → (∀ a, raises_only_after_lease (f a)) →
  raises_only_after_lease (m ≫= f).
Proof.
  intros Hm Hg Hf w. unfold mbind, M_bind.
  destruct (Hm w) as [a Ha]. specialize (Hg w).
  destruct (m w) as [[a' | e] w1]; cbn [fst snd] in *; [| discriminate].
  specialize (Hf a' w1). destruct (f a' w1) as [[b | e] w2]; [exact I |].
  destruct Hf as [-> | (-> & p & Hp & Hnew & Hin)]; [now left | right].
  split; [reflexivity |]. exists p. repeat split; try assumption; try lia.
  intros Hw. apply Hnew. now apply Hg.
Qed.

Lemma find_range_bounds (f : Z → bool) (a b p : Z) :
  List.find f (range a b) = Some p → a ≤ p < b ∧ f p = true.
Proof.
  intros H. apply List.find_some in H as [Hin Hf]. split; [| exact Hf].
  apply list_elem_of_In in Hin. unfold range in Hin. apply elem_of_seqZ in Hin. lia.
Qed.

Lemma leases_fresh_creation k h : raises_only_after_lease (fresh_creation k h).
Proof.
  intros w. unfold fresh_creation, mbind, M_bind.
  rewrite get_next_available_port_eq. cbv zeta.
  destruct (List.find _ _) as [p |] eqn:Hfind; [| now left].
  apply find_range_bounds in Hfind as [Hp Hfree].
  unfold port_is_free in Hfree. apply andb_true_iff in Hfree as [Hfree _].
  apply bool_decide_eq_true in Hfree.
  set (w1 := leased p _).
  destruct (total_create_container k p w1) as [created Hc].
  pose proof (preserves_create_container ports_grow k p w1) as Hg.
  destruct (create_container k p w1) as [[created' | e] w2]; cbn [fst snd] in *;
    [| discriminate].
  destruct created'; [exact I |]. right. split; [reflexivity |].
  exists p. unfold NEXT_PORT, MAX_PORT in Hp. repeat split; try lia; [exact Hfree |].
  apply Hg. subst w1. cbn. apply elem_of_union_l. now apply elem_of_singleton.
Qed.

Ltac leases_step :=
  match goal with
  | |- raises_only_after_lease (fresh_creation _ _) => apply leases_fresh_creation
  | |- raises_only_after_lease (mret _) => apply leases_ret
  | |- raises_only_after_lease (_ ≫= _) =>
      apply leases_bind; [total_auto | preserves_auto | intros ?]
  | |- raises_only_after_lease (if ?b then _ else _) => destruct b
  | |- raises_only_after_lease (match ?x with _ => _ end) => destruct x
  | H : ∀ _, raises_only_after_lease _ |- raises_only_after_lease _ => apply H
  end.

Lemma leases_adopt_running k h n : raises_only_after_lease (adopt_running k h n).
Proof. unfold adopt_running. repeat leases_step. Qed.

Lemma leases_adopt_stopped k h n : raises_only_after_lease (adopt_stopped k h n).
Proof.
  unfold adopt_stopped. pose proof (leases_adopt_running k h n).
  repeat first [leases_step | assumption].
Qed.

Lemma leases_create_or_start_container k :
  raises_only_after_lease (create_or_start_container k).
Proof.
  unfold create_or_start_container.
  pose proof (leases_adopt_stopped k (hash_api_key k) (hash_api_key k)).
  repeat first [leases_step | assumption].
Qed.

Lemma creates_ret k s : returns_or_creates k (mret s).
Proof. intros w. left. now exists s, w. Qed.

Lemma creates_fresh_creation k : returns_or_creates k (fresh_creation k (hash_api_key k)).
Proof. intros w. right. now exists w. Qed.

Lemma creates_bind {A} k (m : M A) (f : A → M Step) :
  total m → preserves ports_grow m → (∀ a, returns_or_creates k (f a)) →
  returns_or_creates k (m ≫= f).
Proof.
  intros Hm Hg Hf w. unfold mbind, M_bind.
  destruct (Hm w) as [a Ha]. specialize (Hg w).
  destruct (m w) as [[a' | e] w1]; cbn [fst snd] in *; [| discriminate].
  destruct (Hf a' w1) as [Hret | (w0 & Heq & Hsub)]; [now left | right].
  exists w0. split; [exact Heq |]. etransitivity; [exact Hg | exact Hsub].
Qed.

Ltac creates_step :=
  match goal with
  | |- returns_or_creates _ (fresh_creation _ _) => apply creates_fresh_creation
  | |- returns_or_creates _ (mret _) => apply creates_ret
  | |- returns_or_creates _ (_ ≫= _) =>
      apply creates_bind; [total_auto | preserves_auto | intros ?]
  | |- returns_or_creates _ (if ?b then _ else _) => destruct b
  | |- returns_or_creates _ (match ?x with _ => _ end) => destruct x
  | H : returns_or_creates _ ?m |- returns_or_creates _ ?m => exact H
  end.

Lemma creates_adopt_running k :
  returns_or_creates k (adopt_running k (hash_api_key k) (hash_api_key k)).
Proof. unfold adopt_running. repeat creates_step. Qed.

Lemma creates_adopt_stopped k :
  returns_or_creates k (adopt_stopped k (hash_api_key k) (hash_api_key k)).
Proof.
  unfold adopt_stopped. pose proof (creates_adopt_running k). repeat creates_step.
Qed.

Lemma creates_create_or_start_container k :
  returns_or_creates k (create_or_start_container k).
Proof.
  unfold create_or_start_container. cbv zeta.
  pose proof (creates_adopt_stopped k). repeat creates_step.
Qed.

(** Case 3 when the port is there and the creation fails. *)
Lemma fresh_creation_fails k h w0 p w1 w2 :
  get_next_available_port w0 = (Ok p, w1) →
  create_container k p w1 = (Ok None, w2) →
  fresh_creation k h w0 = (Raise creation_failed, w2)
  ∧ 4000 ≤ p < 5000
  ∧ (p ∉ allocated_ports w0)
  ∧ p ∈ allocated_ports w2.
Proof.
  intros Hp Hc. split.
  { unfold fresh_creation, mbind, M_bind. now rewrite Hp, Hc. }
  rewrite get_next_available_port_eq in Hp. cbv zeta in Hp.
  destruct (List.find _ _) as [p' |] eqn:Hfind; [| discriminate].
  injection Hp as -> <-.
  apply find_range_bounds in Hfind as [Hp Hfree].
  unfold port_is_free in Hfree. apply andb_true_iff in Hfree as [Hfree _].
  apply bool_decide_eq_true in Hfree. unfold NEXT_PORT, MAX_PORT in Hp.
  split; [lia |]. split; [exact Hfree |].
  pose proof (preserves_create_container ports_grow k p
                (leased p (called ContainersList w0))) as Hg.
  rewrite Hc in Hg. apply Hg. cbn. apply elem_of_union_l. now apply elem_of_singleton.
Qed.

(** C9: a failed creation makes the call raise and keeps its port.  Every
    call of [create_or_start_container] either returns or comes to the
    creation of a fresh container (Case 3).  When it comes to it,
    [get_next_available_port] gives port [p] and [create_container] then
    fails (gives [None]), the call raises [Failed to create container]; [p],
    a port of the window that was not allocated before the call, is in
    [allocated_ports] when the call raises and stays there whatever the
    process does afterwards: the attempt has used up one port.  And a call
    raises for no other reason than this one and the want of a port. *)
Theorem failed_creation_keeps_port (api_key : string) (w : World) :
  ((∃ s w', create_or_start_container api_key w = (Ok s, w'))
   ∨ (∃ w0, comes_to_creation api_key w w0))
  ∧ (∀ w0 p w1 w2,
       comes_to_creation api_key w w0 →
       get_next_available_port w0 = (Ok p, w1) →
       create_container api_key p w1 = (Ok None, w2) →
       create_or_start_container api_key w = (Raise creation_failed, w2)
       ∧ 4000 ≤ p < 5000
       ∧ (p ∉ allocated_ports w)
       ∧ p ∈ allocated_ports w2
       ∧ ∀ acts, p ∈ allocated_ports (run_activities acts w2))
  ∧ (∀ e w',
       create_or_start_container api_key w = (Raise e, w') →
       e = no_ports
       ∨ (e = creation_failed
          ∧ ∃ p, 4000 ≤ p < 5000
                 ∧ (p ∉ allocated_ports w)
                 ∧ p ∈ allocated_ports w'
                 ∧ ∀ acts, p ∈ allocated_ports (run_activities acts w'))).
Proof.
  split; [| split].
  - destruct (creates_create_or_start_container api_key w) as [Hret | (w0 & Hcomes)];
      [now left | right]. now exists w0.
  - intros w0 p w1 w2 [Heq Hsub] Hp Hc.
    destruct (fresh_creation_fails api_key (hash_api_key api_key) w0 p w1 w2 Hp Hc)
      as (Hraise & Hwin & Hnew & Hin).
    split; [now rewrite Heq |]. split; [exact Hwin |].
    split; [intros Hw; apply Hnew, Hsub, Hw |]. split; [exact Hin |].
    intros acts. now apply run_activities_grows.
  - intros e w' Hrun. pose proof (leases_create_or_start_container api_key w) as H.
    rewrite Hrun in H. destruct H as [-> | (-> & p & Hp & Hnew & Hin)]; [now left | right].
    split; [reflexivity |]. exists p. repeat split; try assumption; try lia.
    intros acts. now apply run_activities_grows.
Qed.

(** With the image missing, the first request for ["tok-A"] finds nothing
    on the runtime, takes port 4000, fails to create and raises. *)
Lemma failed_creation_keeps_port_witness :
  let w := world_of runtime_no_image in
  let w0 := called (ContainersGet tok_A_name) (called (ContainersGet tok_A_name) w) in
  let w2 := snd (create_container "tok-A" 4000 (snd (get_next_available_port w0))) in
  create_or_start_container "tok-A" w = (Raise creation_failed, w2)
  ∧ 4000 ∈ allocated_ports w2
  ∧ ∀ acts, 4000 ∈ allocated_ports (run_activities acts w2).
Proof.
  cbv zeta.
  destruct (proj1 (proj2 (failed_creation_keeps_port "tok-A" (world_of runtime_no_image)))
              (called (ContainersGet tok_A_name)
                 (called (ContainersGet tok_A_name) (world_of runtime_no_image)))
              4000
              (snd (get_next_available_port
                      (called (ContainersGet tok_A_name)
                         (called (ContainersGet tok_A_name) (world_of runtime_no_image)))))
              (snd (create_container "tok-A" 4000
                      (snd (get_next_available_port
                              (called (ContainersGet tok_A_name)
                                 (called (ContainersGet tok_A_name)
                                    (world_of runtime_no_image))))))))
    as (Hraise & _ & _ & Hin & Hstays).
  - split; [vm_compute; reflexivity |]. vm_compute. intros p Hp. exact Hp.
  - vm_compute. reflexivity.
  - vm_compute. reflexivity.
  - split; [exact Hraise |]. split; [exact Hin | exact Hstays].
Defined.

(** Two requests in a row while the image is missing: each one raises and
    each one leaves a port behind. *)
Example two_failed_creations :
  let w1 := snd (create_or_start_container "tok-A" (world_of runtime_no_image)) in
  let w2 := snd (create_or_start_container "tok-A" w1) in
  fst (create_or_start_container "tok-A" (world_of runtime_no_image)) = Raise creation_failed
  ∧ fst (create_or_start_container "tok-A" w1) = Raise creation_failed
  ∧ elements (allocated_ports w1) = [4000]
  ∧ elements (allocated_ports w2) = [4001; 4000].
Proof. vm_compute. repeat split. Qed.

(* ===================================================================== *)
(** ** A restart that fails *)
(* ===================================================================== *)

(** The fall-through of lines 280-283: the world in which the adoption
    steps start has lost the record and kept every allocated port. *)
Lemma failed_restart_falls_through (api_key : string) (w w1 w2 w3 : World)
    (info : ContainerInfo) :
  let h := hash_api_key api_key in
  container_registry w !! h = Some info →
  is_container_running (container_name info) w = (Ok false, w1) →
  is_container_stopped (container_name info) w1 = (Ok true, w2) →
  start_existing_container (container_name info) w2 = (Ok false, w3) →
  ∃ w4, create_or_start_container api_key w = adopt_stopped api_key h h w4
        ∧ container_registry w4 = delete h (container_registry w)
        ∧ allocated_ports w4 = allocated_ports w.
Proof.
  cbv zeta. intros Hreg Hrun Hstop Hstart.
  exists (with_registry (delete (hash_api_key api_key) (container_registry w3)) w3).
  split; [| split].
  - unfold create_or_start_container. munfold. rewrite Hreg, Hrun, Hstop, Hstart.
    reflexivity.
  - cbn. f_equal.
    pose proof ((preserves_is_container_running ledger_kept) (container_name info) w) as [H1 _].
    pose proof ((preserves_is_container_stopped ledger_kept) (container_name info) w1) as [H2 _].
    pose proof ((preserves_start_existing_container ledger_kept) (container_name info) w2) as [H3 _].
    rewrite Hrun in H1. rewrite Hstop in H2. rewrite Hstart in H3. cbn [snd] in *.
    congruence.
  - cbn.
    pose proof ((preserves_is_container_running ledger_kept) (container_name info) w) as [_ H1].
    pose proof ((preserves_is_container_stopped ledger_kept) (container_name info) w1) as [_ H2].
    pose proof ((preserves_start_existing_container ledger_kept) (container_name info) w2) as [_ H3].
    rewrite Hrun in H1. rewrite Hstop in H2. rewrite Hstart in H3. cbn [snd] in *.
    congruence.
Qed.

(** C5, as the code has it: when the record's container is not running and
    the restart fails, the record is deleted before the adoption steps
    start, and [allocated_ports] is what it was: the record's port is not
    released, neither then nor by anything the process does later. *)
Theorem failed_restart_drops_record_keeps_port (api_key : string) (w w1 w2 w3 : World)
    (info : ContainerInfo) :
  let h := hash_api_key api_key in
  container_registry w !! h = Some info →
  is_container_running (container_name info) w = (Ok false, w1) →
  is_container_stopped (container_name info) w1 = (Ok true, w2) →
  start_existing_container (container_name info) w2 = (Ok false, w3) →
  ∃ w4, create_or_start_container api_key w = adopt_stopped api_key h h w4
        ∧ container_registry w4 !! h = None
        ∧ allocated_ports w4 = allocated_ports w
        ∧ ∀ acts, allocated_ports w
                  ⊆ allocated_ports
                      (run_activities acts (snd (create_or_start_container api_key w))).
Proof.
  cbv zeta. intros Hreg Hrun Hstop Hstart.
  destruct (failed_restart_falls_through api_key w w1 w2 w3 info Hreg Hrun Hstop Hstart)
    as (w4 & Heq & Hdel & Hports).
  exists w4. split; [exact Heq |]. split; [| split].
  - rewrite Hdel. apply lookup_delete_eq.
  - exact Hports.
  - intros acts. etransitivity; [| apply run_activities_grows].
    apply grows_create_or_start_container.
Qed.

Lemma failed_restart_drops_record_keeps_port_witness :
  ∃ w4, create_or_start_container "tok-A" world_restart_fails
        = adopt_stopped "tok-A" (hash_api_key "tok-A") (hash_api_key "tok-A") w4
        ∧ container_registry w4 !! hash_api_key "tok-A" = None
        ∧ allocated_ports w4 = allocated_ports world_restart_fails
        ∧ ∀ acts, allocated_ports world_restart_fails
                  ⊆ allocated_ports
                      (run_activities acts
                         (snd (create_or_start_container "tok-A" world_restart_fails))).
Proof.
  eapply (failed_restart_drops_record_keeps_port "tok-A" world_restart_fails _ _ _ tok_A_info).
  - vm_compute. reflexivity.
  - vm_compute. reflexivity.
  - vm_compute. reflexivity.
  - vm_compute. reflexivity.
Defined.

Lemma tok_A_name_eq : hash_api_key "tok-A" = tok_A_name.
Proof. vm_compute. reflexivity. Qed.

(** C5 as stated fails: the restart of the record's container fails, the
    record goes, and port 4000 is still allocated when the adoption steps
    start and when the call is over; the next port handed out is 4001. *)
Lemma failed_restart_keeps_lease :
  let w := world_restart_fails in
  let w' := snd (create_or_start_container "tok-A" w) in
  container_registry w !! tok_A_name = Some tok_A_info
  ∧ port tok_A_info = 4000
  ∧ (∃ w4, create_or_start_container "tok-A" w = adopt_stopped "tok-A" tok_A_name tok_A_name w4
           ∧ container_registry w4 !! tok_A_name = None
           ∧ 4000 ∈ allocated_ports w4)
  ∧ container_registry w' !! tok_A_name = None
  ∧ 4000 ∈ allocated_ports w'
  ∧ elements (allocated_ports w') = [4001; 4000].
Proof.
  cbv zeta. split; [reflexivity |]. split; [reflexivity |]. split.
  - edestruct (failed_restart_falls_through "tok-A" world_restart_fails)
      as (w4 & Heq & Hdel & Hp).
    + vm_compute. reflexivity.
    + vm_compute. reflexivity.
    + vm_compute. reflexivity.
    + vm_compute. reflexivity.
    + rewrite tok_A_name_eq in Heq, Hdel. exists w4. split; [exact Heq |]. split.
      * rewrite Hdel. apply lookup_delete_eq.
      * rewrite Hp. unfold world_restart_fails. cbn [allocated_ports].
        now apply elem_of_singleton.
  - split; [vm_compute; reflexivity |]. split.
    + refine (bool_decide_unpack _ _). vm_compute. exact I.
    + vm_compute. reflexivity.
Qed.

(* ===================================================================== *)
(** ** The idle sweeper *)
(* ===================================================================== *)

Lemma set_status_twice s i : set_status s (set_status s i) = set_status s i.
Proof. reflexivity. Qed.

Lemma marks_registry_alter h :
  preserves records_marked (registry_alter (set_status "stopped") h).
Proof.
  apply (preserves_modify records_marked). intros w h'. cbn.
  rewrite lookup_alter. case_decide; [subst; now right | now left].
Qed.

#[local] Hint Resolve marks_registry_alter : preserved.

Lemma marks_stop_if_idle t item keys : preserves records_marked (stop_if_idle t item keys).
Proof. unfold stop_if_idle. preserves_auto. Qed.

Lemma marks_stop_idle_items t items keys :
  preserves records_marked (stop_idle_items t items keys).
Proof.
  revert keys. induction items as [| item items IH]; intros keys;
    cbn [stop_idle_items]; [preserves_auto |].
  apply (preserves_bind records_marked); [apply marks_stop_if_idle | intros ?; apply IH].
Qed.

Lemma marks_update_registry keys : preserves records_marked (update_registry keys).
Proof. induction keys as [| k keys IH]; cbn [update_registry]; preserves_auto. Qed.

Lemma stop_if_idle_keys t item keys w :
  fst (stop_if_idle t item keys w)
  = Ok (if is_idle t (snd item) then keys ++ [fst item] else keys).
Proof.
  destruct item as [h info]. unfold stop_if_idle, is_idle. cbn [fst snd].
  destruct (_ >? _); [| reflexivity].
  unfold mbind at 1. unfold M_bind at 1.
  match goal with
  | |- context [try_except ?m ?h w] =>
      destruct (total_try m h (λ _, total_ret tt) w) as [[] Ha];
      destruct (try_except m h w) as [[[] | e] w']
  end; [reflexivity | discriminate].
Qed.

(** The first loop gathers the key of every idle record, whatever became
    of the stops. *)
Lemma stop_idle_items_keys t items keys w :
  fst (stop_idle_items t items keys w) = Ok (keys ++ idle_keys_of t items).
Proof.
  revert keys w. induction items as [| item items IH]; intros keys w;
    cbn [stop_idle_items].
  - unfold idle_keys_of. cbn. now rewrite app_nil_r.
  - unfold mbind, M_bind. pose proof (stop_if_idle_keys t item keys w) as Hk.
    destruct (stop_if_idle t item keys w) as [[keys' | e] w']; cbn [fst] in Hk;
      [| discriminate].
    injection Hk as ->. rewrite IH. unfold idle_keys_of. cbn [List.filter].
    destruct (is_idle t (snd item)); [| reflexivity].
    cbn [List.map]. now rewrite <- app_assoc.
Qed.

(** The second loop marks every key it is given. *)
Lemma update_registry_marks keys w h :
  h ∈ keys →
  fst (update_registry keys w) = Ok tt
  ∧ container_registry (snd (update_registry keys w)) !! h
    = set_status "stopped" <$> container_registry w !! h.
Proof.
  revert w. induction keys as [| k keys IH]; intros w Hin; [now apply elem_of_nil in Hin |].
  cbn [update_registry]. unfold mbind, M_bind, registry_alter, modify.
  set (w1 := with_registry _ w).
  assert (Hok : ∀ keys' w', fst (update_registry keys' w') = Ok tt).
  { clear. induction keys' as [| k' keys' IH']; intros w'; [reflexivity |].
    cbn [update_registry]. unfold mbind, M_bind, registry_alter, modify. apply IH'. }
  split; [apply Hok |].
  destruct (decide (h = k)) as [-> | Hne].
  - assert (H1 : container_registry w1 !! k
                 = set_status "stopped" <$> container_registry w !! k).
    { subst w1. cbn. now rewrite lookup_alter_eq. }
    destruct (marks_update_registry keys w1 k) as [-> | ->]; rewrite H1; [reflexivity |].
    now destruct (container_registry w !! k).
  - apply elem_of_cons in Hin as [? | Hin]; [contradiction |].
    destruct (IH w1 Hin) as [_ ->]. subst w1. cbn. now rewrite lookup_alter_ne.
Qed.

(** After a turn of the sweeper every record that was idle is marked
    stopped, whether its container was stopped or the stop raised. *)
Lemma sweep_marks_every_idle_record (w : World) (h : string) (info : ContainerInfo) :
  container_registry w !! h = Some info →
  clock w - last_used info > IDLE_TIMEOUT_SECONDS →
  container_registry (snd (cleanup_idle_containers w)) !! h
  = Some (set_status "stopped" info).
Proof.
  intros Hreg Hidle. unfold cleanup_idle_containers, try_except.
  unfold mbind at 1. unfold M_bind at 1. unfold time at 1.
  unfold mbind at 1. unfold M_bind at 1. unfold get_world at 1.
  unfold mbind at 1. unfold M_bind at 1.
  set (items := map_to_list (container_registry w)).
  pose proof (stop_idle_items_keys (clock w) items [] w) as Hkeys.
  pose proof (marks_stop_idle_items (clock w) items [] w h) as Hmark.
  destruct (stop_idle_items (clock w) items [] w) as [[keys | e] w1]; cbn [fst snd] in *;
    [| discriminate].
  injection Hkeys as ->. cbn [app].
  assert (Hin : h ∈ idle_keys_of (clock w) items).
  { unfold idle_keys_of. apply list_elem_of_In, in_map_iff. exists (h, info).
    split; [reflexivity |]. apply filter_In. split.
    - apply list_elem_of_In. subst items. now apply elem_of_map_to_list.
    - cbn [snd]. unfold is_idle. apply Z.gtb_lt. lia. }
  destruct (update_registry_marks _ w1 h Hin) as [Hok Hlook].
  destruct (update_registry _ w1) as [[[] | e] w2]; cbn [fst snd] in *; [| discriminate].
  rewrite Hlook. destruct Hmark as [-> | ->]; rewrite Hreg; reflexivity.
Qed.

(** C6 fails on the code.  The record is running and idle, the daemon does
    not answer, so the stop raises and the container keeps running; after
    the turn of the sweeper the record says stopped. *)
Theorem sweep_marks_stopped_when_stop_fails :
  let w := world_stop_fails in
  let w' := snd (cleanup_idle_containers w) in
  container_registry w !! tok_A_name = Some tok_A_running
  ∧ status tok_A_running = "running"%string
  ∧ (∃ e w1, (containers_get tok_A_name ≫= λ _, container_stop tok_A_name) w = (Raise e, w1))
  ∧ List.map c_status (containers (runtime w')) = ["running"%string]
  ∧ status <$> container_registry w' !! tok_A_name = Some "stopped"%string.
Proof.
  cbv zeta. split; [reflexivity |]. split; [reflexivity |]. split; [| split].
  - do 2 eexists. vm_compute. reflexivity.
  - vm_compute. reflexivity.
  - rewrite (sweep_marks_every_idle_record world_stop_fails tok_A_name tok_A_running).
    + reflexivity.
    + reflexivity.
    + unfold world_stop_fails, tok_A_running, IDLE_TIMEOUT_SECONDS. cbn. lia.
Qed.

(* ===================================================================== *)
(** ** The calls of the runtime, as equations *)
(* ===================================================================== *)

Lemma containers_get_eq n w :
  containers_get n w
  = (if daemon_up (runtime w)
     then match lookup_container n w with
          | Some c => Ok c
          | None => Raise NotFound
          end
     else Raise DockerException,
     called (ContainersGet n) w).
Proof.
  unfold containers_get, lookup_container, called. destruct (daemon_up (runtime w)) eqn:Hup.
  - erewrite bind_ok by now apply docker_call_up. munfold. cbn.
    now destruct (find_container _ _).
  - erewrite bind_raise by now apply docker_call_down. reflexivity.
Qed.

Lemma is_container_running_eq n w :
  is_container_running n w = (Ok (observed_running n w), called (ContainersGet n) w).
Proof.
  unfold is_container_running, observed_running, try_except, mbind, M_bind.
  rewrite containers_get_eq.
  destruct (daemon_up _), (lookup_container _ _); reflexivity.
Qed.

Lemma is_container_stopped_eq n w :
  is_container_stopped n w = (Ok (observed_stopped n w), called (ContainersGet n) w).
Proof.
  unfold is_container_stopped, observed_stopped, try_except, mbind, M_bind.
  rewrite containers_get_eq.
  destruct (daemon_up _), (lookup_container _ _); reflexivity.
Qed.

Lemma container_start_eq n w c :
  daemon_up (runtime w) = true → lookup_container n w = Some c →
  container_start n w
  = if blocked w c then (Raise APIError, called (ContainerStart n) w)
    else (Ok tt, map_containers (update_container n (set_c_status "running"))
                   (called (ContainerStart n) w)).
Proof.
  intros Hup Hc. unfold container_start, called.
  erewrite bind_ok by now apply docker_call_up. munfold. cbn.
  unfold lookup_container in Hc. rewrite Hc.
  unfold blocked. cbn. now destruct (existsb _ _).
Qed.

Lemma start_existing_container_eq n w c :
  daemon_up (runtime w) = true → lookup_container n w = Some c →
  start_existing_container n w
  = if is_running c then (Ok true, called (ContainersGet n) w)
    else if blocked w c
         then (Ok false, called (ContainerStart n) (called (ContainersGet n) w))
         else (Ok true, map_containers (update_container n (set_c_status "running"))
                          (called (ContainerStart n) (called (ContainersGet n) w))).
Proof.
  intros Hup Hc. unfold start_existing_container, try_except, mbind, M_bind.
  rewrite containers_get_eq, Hup, Hc.
  destruct (is_running c); cbn [negb]; [reflexivity |].
  rewrite (container_start_eq n _ c) by (cbn; assumption).
  change (blocked (called (ContainersGet n) w) c) with (blocked w c).
  now destruct (blocked w c).
Qed.

Lemma find_container_update n f cs c :
  find_container n cs = Some c → name (f c) = name c →
  find_container n (update_container n f cs) = Some (f c).
Proof.
  unfold find_container, update_container. intros Hfind Hname.
  induction cs as [| c0 cs IH]; [discriminate |].
  cbn in *. destruct (String.eqb (name c0) n) eqn:E.
  - injection Hfind as ->. cbn. now rewrite Hname, E.
  - cbn. rewrite E. now apply IH.
Qed.

Lemma find_container_name n cs c : find_container n cs = Some c → name c = n.
Proof.
  unfold find_container. intros H. apply List.find_some in H as [_ H].
  now apply String.eqb_eq.
Qed.

Lemma first_host_port_binds c p w : binds c p → first_host_port c w = (Ok p, w).
Proof. intros [others Hb]. unfold first_host_port. now rewrite Hb. Qed.

Lemma has_internal_port_binds c p : binds c p → has_internal_port c = true.
Proof.
  intros [others Hb]. unfold has_internal_port. apply bool_decide_eq_true_2.
  rewrite Hb. eauto.
Qed.

(* ===================================================================== *)
(** ** Adoption after a restart *)
(* ===================================================================== *)

Lemma lookup_container_called n c w : lookup_container n (called c w) = lookup_container n w.
Proof. reflexivity. Qed.

Lemma lookup_container_leased n p w : lookup_container n (leased p w) = lookup_container n w.
Proof. reflexivity. Qed.

Lemma lookup_container_registered n h i w :
  lookup_container n (registered h i w) = lookup_container n w.
Proof. reflexivity. Qed.

Lemma blocked_called c0 w c : blocked (called c0 w) c = blocked w c.
Proof. reflexivity. Qed.

Lemma blocked_leased p w c : blocked (leased p w) c = blocked w c.
Proof. reflexivity. Qed.

Lemma blocked_registered h i w c : blocked (registered h i w) c = blocked w c.
Proof. reflexivity. Qed.

Create Rewrite HintDb world.

#[local] Hint Rewrite lookup_container_called lookup_container_leased
  lookup_container_registered blocked_called blocked_leased blocked_registered : world.

Ltac mstep := unfold mbind at 1; unfold M_bind at 1.

Ltac wsimpl :=
  autorewrite with world in *;
  cbn [called leased registered map_containers with_event with_ports with_registry
       with_runtime with_containers with_image runtime daemon_up image_local
       registry_reachable busy_host_ports containers container_registry allocated_ports
       clock trace fst snd] in *.

Lemma observed_running_called n c w : observed_running n (called c w) = observed_running n w.
Proof. reflexivity. Qed.

Lemma observed_stopped_called n c w : observed_stopped n (called c w) = observed_stopped n w.
Proof. reflexivity. Qed.

(** When the runtime shows no container under the names the call asks for
    (the daemon is down, or there is none), the call comes to Case 3 with
    the registry, the ports and the runtime as they were. *)
Lemma unobserved_comes_to_creation k w :
  let f := hash_api_key k in
  observed_running f w = false → observed_stopped f w = false →
  (∀ info, container_registry w !! f = Some info →
           observed_running (container_name info) w = false
           ∧ observed_stopped (container_name info) w = false) →
  ∃ w0, comes_to_creation k w w0
        ∧ container_registry w0 = container_registry w
        ∧ allocated_ports w0 = allocated_ports w
        ∧ runtime w0 = runtime w.
Proof.
  cbv zeta. set (f := hash_api_key k). intros Hrun Hstop Hrec.
  assert (Htail : ∀ w1, observed_running f w1 = false → observed_stopped f w1 = false →
            adopt_stopped k f f w1
            = fresh_creation k f (called (ContainersGet f) (called (ContainersGet f) w1))).
  { intros w1 Hrun1 Hstop1. unfold adopt_stopped. mstep. rewrite is_container_stopped_eq, Hstop1.
    mstep. unfold mret at 1. unfold M_ret at 1.
    unfold adopt_running. mstep.
    now rewrite is_container_running_eq, observed_running_called, Hrun1. }
  unfold comes_to_creation, create_or_start_container. fold f. mstep. unfold get_world at 1.
  destruct (container_registry w !! f) as [info |] eqn:Hinfo.
  - destruct (Hrec info eq_refl) as [Hrun' Hstop'].
    mstep. rewrite is_container_running_eq, Hrun'.
    mstep. rewrite is_container_stopped_eq, observed_stopped_called, Hstop'.
    rewrite Htail by (now rewrite !observed_running_called || now rewrite !observed_stopped_called).
    eexists. split; [split; [reflexivity |] |]; now cbn.
  - rewrite Htail by assumption.
    eexists. split; [split; [reflexivity |] |]; now cbn.
Qed.

(** C4, as the code has it.  No record for the token, its container on the
    runtime with a binding of the internal port to host port [p], the
    daemon answering and, if the container is not running, nothing in the
    way of its start: [create_or_start_container] returns [p] and the
    container's name, registers the record, has [p] in [allocated_ports],
    and the calls it made are reads of the container and, for a container
    that was not running, one [ContainerStart] that comes after the port was
    marked; no [ContainerCreate] is issued. *)
Theorem adoption_after_restart (api_key : string) (w : World) (c : Container) (p : Z) :
  let f := hash_api_key api_key in
  container_registry w !! f = None →
  daemon_up (runtime w) = true →
  lookup_container f w = Some c →
  binds c p →
  (is_running c = false → blocked w c = false) →
  ∃ w', resolve api_key w = (Ok (p, f), w')
        ∧ container_registry w' !! f = Some (new_info f f p (clock w))
        ∧ p ∈ allocated_ports w'
        ∧ trace w'
          = (if is_running c
             then [Leased p; Call (ContainersGet f); Call (ContainersGet f);
                   Call (ContainersGet f)]
             else [Call (ContainerStart f); Call (ContainersGet f); Leased p;
                   Call (ContainersGet f); Call (ContainersGet f)]) ++ trace w
        ∧ creates_issued f w' = creates_issued f w.
Proof.
  cbv zeta. set (f := hash_api_key api_key). intros Hreg Hup Hc Hb Hstart.
  pose proof (has_internal_port_binds c p Hb) as Hport.
  unfold resolve, create_or_start_container. fold f.
  mstep. mstep. unfold get_world at 1. rewrite Hreg.
  unfold adopt_stopped.
  mstep. rewrite is_container_stopped_eq.
  unfold observed_stopped. rewrite Hup, Hc. cbn [andb].
  destruct (is_running c) eqn:Hrun; cbn [negb].
  - mstep. unfold mret at 1. unfold M_ret at 1. unfold mret at 1. unfold M_ret at 1.
    unfold adopt_running. mstep. rewrite is_container_running_eq.
    unfold observed_running. wsimpl. rewrite Hup, Hc, Hrun.
    cbn [andb]. mstep. unfold try_except at 1. mstep. rewrite containers_get_eq.
    wsimpl. rewrite Hup, Hc, Hport. mstep. rewrite (first_host_port_binds c p _ Hb).
    munfold. unfold allocated_ports_add, registry_set, modify. wsimpl.
    eexists. split; [reflexivity |]. wsimpl. split; [apply lookup_insert_eq |].
    split; [apply elem_of_union_l; now apply elem_of_singleton |].
    split; reflexivity.
  - specialize (Hstart eq_refl).
    mstep. unfold try_except at 1. mstep. rewrite containers_get_eq.
    wsimpl. rewrite Hup, Hc, Hport. mstep. rewrite (first_host_port_binds c p _ Hb).
    mstep. unfold allocated_ports_add at 1. unfold modify at 1.
    mstep. rewrite (start_existing_container_eq f _ c) by (wsimpl; assumption).
    rewrite Hrun. wsimpl. rewrite Hstart.
    munfold. unfold registry_set, modify, resume. wsimpl.
    eexists. split; [reflexivity |]. wsimpl. split; [apply lookup_insert_eq |].
    split; [apply elem_of_union_l; now apply elem_of_singleton |].
    split; reflexivity.
Qed.

Lemma adoption_after_restart_witness :
  ∃ w', resolve "tok-A" world_after_restart = (Ok (4000, hash_api_key "tok-A"), w')
        ∧ 4000 ∈ allocated_ports w'
        ∧ creates_issued (hash_api_key "tok-A") w'
          = creates_issued (hash_api_key "tok-A") world_after_restart.
Proof.
  destruct (adoption_after_restart "tok-A" world_after_restart tok_A_stopped 4000)
    as (w' & Hres & _ & Hin & _ & Hcreates).
  - vm_compute. reflexivity.
  - reflexivity.
  - vm_compute. reflexivity.
  - exists []. vm_compute. reflexivity.
  - intros _. vm_compute. reflexivity.
  - exists w'. repeat split; assumption.
Defined.

(** C4 as stated fails: the registry is empty and the container of the
    token is on the runtime, bound to port 4000, but its start fails; the
    call goes on to the creation, issues a [ContainerCreate] and raises. *)
Lemma restart_then_start_fails :
  let w := world_after_restart_busy in
  container_registry w = ∅
  ∧ lookup_container tok_A_name w = Some tok_A_stopped
  ∧ binds tok_A_stopped 4000
  ∧ fst (resolve "tok-A" w) = Raise creation_failed
  ∧ creates_issued tok_A_name w = 0%nat
  ∧ creates_issued tok_A_name (snd (resolve "tok-A" w)) = 1%nat.
Proof.
  cbv zeta. split; [reflexivity |]. split; [vm_compute; reflexivity |].
  split; [exists []; vm_compute; reflexivity |].
  split; [vm_compute; reflexivity |]. split; vm_compute; reflexivity.
Qed.

(* ===================================================================== *)
(** ** Concurrent callers for one fingerprint *)
(* ===================================================================== *)

Lemma blocked_fault_free w c : fault_free w → blocked w c = false.
Proof.
  intros (_ & _ & Hbusy). unfold blocked. rewrite Hbusy.
  induction (host_ports c) as [| p ps IH]; [reflexivity |].
  cbn [existsb]. rewrite IH. rewrite bool_decide_eq_false_2; [reflexivity |].
  apply not_elem_of_empty.
Qed.

Lemma find_container_remove n cs : find_container n (remove_container n cs) = None.
Proof.
  unfold find_container, remove_container.
  induction cs as [| c cs IH]; [reflexivity |].
  cbn [List.filter]. destruct (String.eqb (name c) n) eqn:E; cbn [negb]; [exact IH |].
  cbn [List.find]. now rewrite E.
Qed.

Lemma find_container_app_new n cs c :
  find_container n cs = None → name c = n → find_container n (cs ++ [c]) = Some c.
Proof.
  unfold find_container. intros Hnone Hname.
  induction cs as [| c0 cs IH]; cbn [app List.find] in *.
  - subst n. now rewrite String.eqb_refl.
  - destruct (String.eqb (name c0) n); [discriminate | now apply IH].
Qed.

Lemma creates_issued_called f c w :
  creates_issued f (called c w)
  = match c with
    | ContainersCreate n _ => if String.eqb n f then S (creates_issued f w)
                              else creates_issued f w
    | _ => creates_issued f w
    end.
Proof.
  unfold creates_issued, called. cbn [with_event trace List.filter].
  destruct c as [| | | | | | | n p]; try reflexivity. now destruct (String.eqb n f).
Qed.

Lemma creates_issued_leased f p w : creates_issued f (leased p w) = creates_issued f w.
Proof. reflexivity. Qed.

Lemma creates_issued_registered f h i w :
  creates_issued f (registered h i w) = creates_issued f w.
Proof. reflexivity. Qed.

Lemma creates_issued_map_containers f g w :
  creates_issued f (map_containers g w) = creates_issued f w.
Proof. reflexivity. Qed.

#[local] Hint Rewrite creates_issued_called creates_issued_leased creates_issued_registered
  creates_issued_map_containers : world.

(** [create_container] in a runtime without faults and without a container
    of that name. *)
Lemma create_container_fault_free k p w :
  fault_free w → lookup_container (hash_api_key k) w = None →
  ∃ w', create_container k p w = (Ok (Some (hash_api_key k)), w')
        ∧ fault_free w'
        ∧ lookup_container (hash_api_key k) w' = Some (fresh_container (hash_api_key k) p)
        ∧ container_registry w' = container_registry w
        ∧ allocated_ports w' = allocated_ports w
        ∧ creates_issued (hash_api_key k) w' = S (creates_issued (hash_api_key k) w).
Proof.
  set (f := hash_api_key k). intros Hff Hnone.
  pose proof Hff as (Hup & Himg & Hbusy).
  unfold create_container. fold f.
  assert (Hpull : ∃ w1, try_except images_pull (λ _, mret ()) w = (Ok tt, w1)
                        ∧ fault_free w1 ∧ image_local (runtime w1) = true
                        ∧ lookup_container f w1 = None
                        ∧ container_registry w1 = container_registry w
                        ∧ allocated_ports w1 = allocated_ports w
                        ∧ creates_issued f w1 = creates_issued f w).
  { unfold try_except, images_pull. mstep. rewrite (docker_call_up _ _ Hup).
    mstep. unfold get_world at 1. wsimpl.
    destruct (registry_reachable (runtime w)) eqn:Hreach.
    - eexists. split; [reflexivity |]. unfold fault_free. wsimpl. rewrite Hup, Hbusy.
      repeat split; auto.
    - destruct Himg as [Himg | Himg]; [| congruence].
      eexists. split; [reflexivity |]. unfold fault_free. wsimpl.
      rewrite Hup, Hbusy, Himg. repeat split; auto. }
  destruct Hpull as (w1 & Hpull & Hff1 & Himg1 & Hnone1 & Hreg1 & Hports1 & Hcr1).
  pose proof Hff1 as (Hup1 & _ & Hbusy1).
  unfold try_except at 1. mstep. mstep. rewrite Hpull.
  mstep. unfold containers_create at 1. mstep.
  rewrite (docker_call_up _ _ Hup1). mstep. unfold get_world at 1. fold (called (ContainersCreate f p) w1).
  wsimpl. rewrite Himg1. cbn [negb]. unfold lookup_container in Hnone1. rewrite Hnone1.
  unfold modify_containers, modify.
  set (made := mkContainer f "created" _).
  set (w2 := map_containers _ _).
  assert (Hlook2 : lookup_container f w2 = Some made).
  { subst w2. unfold lookup_container. wsimpl. now apply find_container_app_new. }
  rewrite (container_start_eq f w2 made) by (subst w2; wsimpl; assumption).
  rewrite blocked_fault_free by exact Hff1.
  eexists. split; [reflexivity |].
  split; [exact Hff1 |].
  split.
  { unfold lookup_container in *. unfold map_containers at 1. wsimpl.
    subst w2. wsimpl. unfold called in Hlook2. wsimpl.
    rewrite (find_container_update f (set_c_status "running") _ made Hlook2 eq_refl).
    reflexivity. }
  subst w2. wsimpl. rewrite String.eqb_refl. repeat split; congruence.
Qed.

Lemma binds_fresh_container n p : binds (fresh_container n p) p.
Proof. exists []. unfold fresh_container, published. cbn [ports]. apply lookup_singleton_eq. Qed.

(** Case 3 in a runtime without faults and without a container of that
    name: either the window is exhausted, or the container is created and
    runs on the port just taken. *)
Lemma fresh_creation_fault_free k w :
  let f := hash_api_key k in
  fault_free w → lookup_container f w = None →
  ∃ r w', fresh_creation k f w = (r, w')
          ∧ fault_free w'
          ∧ container_registry w' = container_registry w
          ∧ ((r = Raise no_ports
              ∧ lookup_container f w' = None
              ∧ creates_issued f w' = creates_issued f w)
             ∨ (∃ p, r = Ok (Await (Sleep_then_register 2 f f p))
                     ∧ runs_on f p w'
                     ∧ creates_issued f w' = S (creates_issued f w))).
Proof.
  cbv zeta. set (f := hash_api_key k). intros Hff Hnone.
  unfold fresh_creation. mstep. rewrite get_next_available_port_eq. cbv zeta.
  destruct (List.find _ _) as [p |].
  - destruct (create_container_fault_free k p (leased p (called ContainersList w)))
      as (w' & Hrun & Hff' & Hlook & Hreg & _ & Hcr); [exact Hff | exact Hnone |].
    fold f in Hrun, Hlook, Hcr. mstep. rewrite Hrun.
    do 2 eexists. split; [reflexivity |]. split; [exact Hff' |]. split; [exact Hreg |].
    right. exists p. split; [reflexivity |]. split.
    + exists (fresh_container f p). split; [exact Hlook |]. split; [reflexivity |].
      apply binds_fresh_container.
    + rewrite Hcr. now wsimpl.
  - do 2 eexists. split; [reflexivity |]. split; [exact Hff |]. split; [reflexivity |].
    left. split; [reflexivity |]. split; [exact Hnone |]. now wsimpl.
Qed.

(** Lines 327-354 when no container of the name is on the runtime. *)
Lemma adopt_running_absent k f w :
  fault_free w → lookup_container f w = None →
  adopt_running k f f w = fresh_creation k f (called (ContainersGet f) w).
Proof.
  intros (Hup & _) Hnone. unfold adopt_running. mstep. rewrite is_container_running_eq.
  unfold observed_running. now rewrite Hup, Hnone.
Qed.

(** Lines 327-349 when the container runs with a binding. *)
Lemma adopt_running_bound k f w c p :
  fault_free w → lookup_container f w = Some c → is_running c = true → binds c p →
  adopt_running k f f w
  = (Ok (Done p f),
     registered f (new_info f f p (clock w))
       (leased p (called (ContainersGet f) (called (ContainersGet f) w)))).
Proof.
  intros (Hup & _) Hc Hrun Hb. unfold adopt_running. mstep.
  rewrite is_container_running_eq. unfold observed_running. rewrite Hup, Hc, Hrun.
  cbn [andb]. mstep. unfold try_except at 1. mstep. rewrite containers_get_eq.
  wsimpl. rewrite Hup, Hc, (has_internal_port_binds c p Hb).
  mstep. rewrite (first_host_port_binds c p _ Hb).
  munfold. unfold allocated_ports_add, registry_set, modify. reflexivity.
Qed.

Lemma container_remove_eq n w c :
  daemon_up (runtime w) = true → lookup_container n w = Some c →
  container_remove n w
  = (Ok tt, map_containers (remove_container n) (called (ContainerRemove n) w)).
Proof.
  intros Hup Hc. unfold container_remove.
  erewrite bind_ok by now apply docker_call_up. munfold. cbn.
  unfold lookup_container in Hc. now rewrite Hc.
Qed.

(** Lines 286-325 for a container that is not running and has no binding
    the source can read: it is removed, and the creation follows. *)
Lemma adopt_stopped_removes k f w c :
  fault_free w → lookup_container f w = Some c → is_running c = false →
  (∀ p, ¬ binds c p) →
  ∃ w1, adopt_stopped k f f w = fresh_creation k f w1
        ∧ fault_free w1
        ∧ lookup_container f w1 = None
        ∧ container_registry w1 = container_registry w
        ∧ creates_issued f w1 = creates_issued f w.
Proof.
  intros Hff Hc Hrun Hnb. pose proof Hff as (Hup & _).
  unfold adopt_stopped. mstep. rewrite is_container_stopped_eq.
  unfold observed_stopped. rewrite Hup, Hc, Hrun. cbn [andb negb].
  mstep. unfold try_except at 1. mstep. rewrite containers_get_eq.
  wsimpl. rewrite Hup, Hc.
  assert (Hremoved : ∀ w2, fault_free w2 → lookup_container f w2 = Some c →
            container_registry w2 = container_registry w →
            creates_issued f w2 = creates_issued f w →
            ∃ w3, adopt_running k f f (map_containers (remove_container f)
                                         (called (ContainerRemove f) w2))
                  = fresh_creation k f w3
                  ∧ fault_free w3 ∧ lookup_container f w3 = None
                  ∧ container_registry w3 = container_registry w
                  ∧ creates_issued f w3 = creates_issued f w).
  { intros w2 Hff2 Hc2 Hreg2 Hcr2. eexists. split.
    - apply adopt_running_absent; [exact Hff2 |].
      unfold lookup_container, map_containers. wsimpl. apply find_container_remove.
    - split; [exact Hff2 |]. split.
      + unfold lookup_container, map_containers. wsimpl. apply find_container_remove.
      + split; [exact Hreg2 |]. wsimpl. exact Hcr2. }
  unfold has_internal_port, first_host_port.
  destruct (ports c !! "3000/tcp"%string) as [[[| p others] |] |] eqn:E.
  - rewrite bool_decide_eq_true_2 by eauto. mstep. unfold raise at 1.
    unfold try_except at 1. mstep. mstep. rewrite containers_get_eq. wsimpl.
    rewrite Hup, Hc. rewrite (container_remove_eq f _ c) by (wsimpl; assumption).
    munfold. apply Hremoved; [exact Hff | exact Hc | reflexivity |]. now wsimpl.
  - exfalso. apply (Hnb p). now exists others.
  - rewrite bool_decide_eq_true_2 by eauto. mstep. unfold raise at 1.
    unfold try_except at 1. mstep. mstep. rewrite containers_get_eq. wsimpl.
    rewrite Hup, Hc. rewrite (container_remove_eq f _ c) by (wsimpl; assumption).
    munfold. apply Hremoved; [exact Hff | exact Hc | reflexivity |]. now wsimpl.
  - rewrite bool_decide_eq_false_2 by (intros [? ?]; discriminate).
    mstep. rewrite (container_remove_eq f _ c) by (wsimpl; assumption).
    munfold. apply Hremoved; [exact Hff | exact Hc | reflexivity |]. now wsimpl.
Qed.

(** Lines 286-313 for a container that is not running and has a binding:
    the port is marked, the container started, the record made. *)
Lemma adopt_stopped_starts k f w c p :
  fault_free w → lookup_container f w = Some c → is_running c = false → binds c p →
  adopt_stopped k f f w
  = (Ok (Await (Sleep_then_return 1 p f)),
     registered f (new_info f f p (clock w))
       (map_containers (update_container f (set_c_status "running"))
          (called (ContainerStart f)
             (called (ContainersGet f)
                (leased p (called (ContainersGet f) (called (ContainersGet f) w))))))).
Proof.
  intros Hff Hc Hrun Hb. pose proof Hff as (Hup & _).
  unfold adopt_stopped. mstep. rewrite is_container_stopped_eq.
  unfold observed_stopped. rewrite Hup, Hc, Hrun. cbn [andb negb].
  mstep. unfold try_except at 1. mstep. rewrite containers_get_eq.
  wsimpl. rewrite Hup, Hc, (has_internal_port_binds c p Hb).
  mstep. rewrite (first_host_port_binds c p _ Hb).
  mstep. unfold allocated_ports_add at 1. unfold modify at 1.
  mstep. rewrite (start_existing_container_eq f _ c) by (wsimpl; assumption).
  rewrite Hrun. rewrite blocked_fault_free by exact Hff.
  munfold. unfold registry_set, modify. reflexivity.
Qed.

(** Lines 286 and 327 when there is nothing stopped to adopt. *)
Lemma adopt_stopped_skips k f w :
  fault_free w →
  match lookup_container f w with
  | Some c => is_running c = true
  | None => True
  end →
  adopt_stopped k f f w = adopt_running k f f (called (ContainersGet f) w).
Proof.
  intros (Hup & _) Hc. unfold adopt_stopped. mstep. rewrite is_container_stopped_eq.
  unfold observed_stopped. rewrite Hup.
  destruct (lookup_container f w) as [c |]; [rewrite Hc |]; reflexivity.
Qed.

Lemma binds_set_c_status s c p : binds (set_c_status s c) p ↔ binds c p.
Proof. reflexivity. Qed.

Lemma binds_dec c : (∃ p, binds c p) ∨ (∀ p, ¬ binds c p).
Proof.
  unfold binds. destruct (ports c !! "3000/tcp"%string) as [[[| p others] |] |].
  - right. intros p [o H]. discriminate.
  - left. exists p, others. reflexivity.
  - right. intros p [o H]. discriminate.
  - right. intros p [o H]. discriminate.
Qed.

(** The first caller for [f]: it finds the window exhausted and nothing
    has changed for the callers after it, or it leaves the container of [f]
    running on a port, with at most one creation issued. *)
Lemma first_caller k w :
  let f := hash_api_key k in
  unsettled f w →
  ∃ r w', create_or_start_container k w = (r, w')
          ∧ ((r = Raise no_ports ∧ unsettled f w'
              ∧ creates_issued f w' = creates_issued f w)
             ∨ (∃ p, settled f p w'
                     ∧ (creates_issued f w' ≤ creates_issued f w + 1)%nat
                     ∧ (r = Ok (Done p f)
                        ∨ r = Ok (Await (Sleep_then_return 1 p f))
                        ∨ r = Ok (Await (Sleep_then_register 2 f f p))))).
Proof.
  cbv zeta. set (f := hash_api_key k). intros (Hff & Hreg & Hadopt).
  unfold create_or_start_container. fold f. mstep. unfold get_world at 1. rewrite Hreg.
  assert (Hfresh : ∀ w1, fault_free w1 → lookup_container f w1 = None →
            container_registry w1 = container_registry w →
            creates_issued f w1 = creates_issued f w →
            ∃ r w', fresh_creation k f w1 = (r, w')
              ∧ ((r = Raise no_ports ∧ unsettled f w'
                  ∧ creates_issued f w' = creates_issued f w)
                 ∨ (∃ p, settled f p w'
                         ∧ (creates_issued f w' ≤ creates_issued f w + 1)%nat
                         ∧ (r = Ok (Done p f)
                            ∨ r = Ok (Await (Sleep_then_return 1 p f))
                            ∨ r = Ok (Await (Sleep_then_register 2 f f p)))))).
  { intros w1 Hff1 Hnone1 Hreg1 Hcr1.
    destruct (fresh_creation_fault_free k w1 Hff1 Hnone1)
      as (r & w' & Hrun & Hff' & Hreg' & Hcases).
    fold f in Hrun, Hcases. exists r, w'. split; [exact Hrun |].
    destruct Hcases as [(-> & Hnone' & Hcr') | (p & -> & Hruns & Hcr')].
    - left. split; [reflexivity |]. split; [| congruence].
      split; [exact Hff' |]. split; [congruence |].
      unfold adoptable. now rewrite Hnone'.
    - right. exists p. split; [| split; [lia | auto]].
      split; [exact Hff' |]. split; [exact Hruns |].
      unfold record_agrees. rewrite Hreg', Hreg1, Hreg. exact I. }
  unfold adoptable in Hadopt.
  destruct (lookup_container f w) as [c |] eqn:Hc.
  - destruct (is_running c) eqn:Hrun.
    + destruct Hadopt as [? | [p Hb]]; [discriminate |].
      rewrite adopt_stopped_skips by (try rewrite Hc; assumption).
      rewrite (adopt_running_bound k f _ c p) by (wsimpl; assumption).
      do 2 eexists. split; [reflexivity |]. right. exists p.
      split; [| split; [wsimpl; lia | auto]].
      split; [exact Hff |]. split.
      * exists c. wsimpl. auto.
      * unfold record_agrees. wsimpl. rewrite lookup_insert_eq. now cbn.
    + destruct (binds_dec c) as [[p Hb] | Hnb].
      * rewrite (adopt_stopped_starts k f w c p) by assumption.
        do 2 eexists. split; [reflexivity |]. right. exists p.
        split; [| split; [wsimpl; lia | auto]].
        split; [exact Hff |]. split.
        -- exists (set_c_status "running" c). unfold lookup_container, map_containers.
           wsimpl. split; [| split; [reflexivity | exact Hb]].
           now apply find_container_update.
        -- unfold record_agrees. wsimpl. rewrite lookup_insert_eq. now cbn.
      * destruct (adopt_stopped_removes k f w c Hff Hc Hrun Hnb)
          as (w1 & -> & Hff1 & Hnone1 & Hreg1 & Hcr1).
        now apply Hfresh.
  - rewrite adopt_stopped_skips by (try rewrite Hc; auto).
    rewrite adopt_running_absent by (wsimpl; assumption).
    apply Hfresh; wsimpl; auto.
Qed.

(** A caller that comes once the container of [f] runs on port [p]: it
    returns [p] at once, from the record or by adopting the container, and
    issues no creation. *)
Lemma later_caller k p w :
  let f := hash_api_key k in
  settled f p w →
  ∃ w', create_or_start_container k w = (Ok (Done p f), w')
        ∧ settled f p w'
        ∧ creates_issued f w' = creates_issued f w.
Proof.
  cbv zeta. set (f := hash_api_key k). intros (Hff & (c & Hc & Hrun & Hb) & Hrec).
  pose proof Hff as (Hup & _).
  unfold create_or_start_container. fold f. mstep. unfold get_world at 1.
  unfold record_agrees in Hrec.
  destruct (container_registry w !! f) as [info |] eqn:Hreg.
  - destruct Hrec as [Hport Hname]. rewrite Hname, Hport.
    mstep. rewrite is_container_running_eq. unfold observed_running.
    rewrite Hup, Hc, Hrun. cbn [andb]. munfold. unfold registry_alter, modify.
    eexists. split; [reflexivity |]. split; [| now wsimpl].
    split; [exact Hff |]. split; [exists c; wsimpl; auto |].
    unfold record_agrees. wsimpl. rewrite lookup_alter_eq, Hreg. cbn. auto.
  - rewrite adopt_stopped_skips by (try rewrite Hc; assumption).
    rewrite (adopt_running_bound k f _ c p) by (wsimpl; assumption).
    eexists. split; [reflexivity |]. split; [| now wsimpl].
    split; [exact Hff |]. split; [exists c; wsimpl; auto |].
    unfold record_agrees. wsimpl. rewrite lookup_insert_eq. now cbn.
Qed.

(** A caller that wakes up once the container of [f] runs on port [p]. *)
Lemma woken_caller f p s w :
  settled f p w → caller_settled f p (Sleeping s) →
  ∃ w', resume s w = (Ok (p, f), w')
        ∧ settled f p w'
        ∧ creates_issued f w' = creates_issued f w.
Proof.
  intros (Hff & (c & Hc & Hrun & Hb) & Hrec) Hs.
  destruct s as [secs q n | secs h n q]; cbn [caller_settled] in Hs.
  - destruct Hs as [-> ->]. exists w. split; [reflexivity |]. split; [| reflexivity].
    split; [exact Hff |]. split; [now exists c | exact Hrec].
  - destruct Hs as (-> & -> & ->). unfold resume. munfold. unfold registry_set, modify.
    eexists. split; [reflexivity |]. split; [| now wsimpl].
    split; [exact Hff |]. split; [exists c; wsimpl; auto |].
    unfold record_agrees. wsimpl. rewrite lookup_insert_eq. now cbn.
Qed.

Lemma caller_unsettled_settled f p c : caller_unsettled f c → caller_settled f p c.
Proof. destruct c as [k | s | [[q n] | e]]; cbn; tauto. Qed.

(** One turn of one caller keeps the invariant. *)
Lemma run_caller_single_flight f c0 callers w i c :
  single_flight f c0 callers w → callers !! i = Some c →
  single_flight f c0 (<[i := fst (run_caller c w)]> callers) (snd (run_caller c w)).
Proof.
  intros [(Hun & Hall & Hcr) | (p & Hset & Hall & Hcr)] Hi.
  - pose proof (proj1 (Forall_lookup _ _) Hall i c Hi) as Hc.
    destruct c as [k | s | [[q n] | e]]; cbn [caller_unsettled] in Hc; try contradiction.
    + subst f. destruct (first_caller k w Hun) as (r & w' & Hrun & Hcases).
      cbn [run_caller]. rewrite Hrun.
      destruct Hcases as [(-> & Hun' & Hcr') | (p & Hset & Hle & Hr)].
      * left. cbn [fst snd]. split; [exact Hun' |]. split; [| congruence].
        apply Forall_insert; [exact Hall | reflexivity].
      * right. exists p.
        assert (Hall' : Forall (caller_settled (hash_api_key k) p) callers).
        { eapply Forall_impl; [exact Hall |]. intros. now apply caller_unsettled_settled. }
        destruct Hr as [-> | [-> | ->]]; cbn [fst snd];
          (split; [exact Hset |]); (split; [| lia]);
          (apply Forall_insert; [exact Hall' |]); cbn; auto.
    + subst e. cbn [run_caller fst snd]. left. rewrite list_insert_id by exact Hi. auto.
  - pose proof (proj1 (Forall_lookup _ _) Hall i c Hi) as Hc.
    right. exists p. destruct c as [k | s | r].
    + cbn [caller_settled] in Hc. subst f.
      destruct (later_caller k p w Hset) as (w' & Hrun & Hset' & Hcr').
      cbn [run_caller]. rewrite Hrun. cbn [fst snd].
      split; [exact Hset' |]. split; [| lia].
      apply Forall_insert; [exact Hall |]. cbn. auto.
    + destruct (woken_caller f p s w Hset Hc) as (w' & Hrun & Hset' & Hcr').
      cbn [run_caller]. rewrite Hrun. cbn [fst snd].
      split; [exact Hset' |]. split; [| lia].
      apply Forall_insert; [exact Hall |]. cbn. auto.
    + cbn [run_caller fst snd]. rewrite list_insert_id by exact Hi. auto.
Qed.

Lemma run_schedule_single_flight f c0 schedule callers w :
  single_flight f c0 callers w →
  single_flight f c0 (fst (run_schedule schedule callers w))
                     (snd (run_schedule schedule callers w)).
Proof.
  revert callers w. induction schedule as [| i rest IH]; intros callers w Hinv;
    cbn [run_schedule]; [exact Hinv |].
  destruct (callers !! i) as [c |] eqn:Hi; [| now apply IH].
  pose proof (run_caller_single_flight f c0 callers w i c Hinv Hi) as Hstep.
  destruct (run_caller c w) as [c' w']. now apply IH.
Qed.

(** C1, as the code has it.  Callers for one fingerprint [f], none of them
    started, no record for [f], a runtime that carries out what it is asked
    and has no running container named [f] without a readable binding, and
    the callers taking turns at their [await]s in any order: at most one
    [ContainerCreate] is issued for [f], every caller that has returned has
    the same port and the name [f], and a caller that has raised found the
    window exhausted.  Nothing in the source makes the callers wait for one
    another: a later caller returns the same port because it finds the
    container of the first one running. *)
Theorem single_creation_without_faults (f : string) (keys : list string)
    (schedule : list nat) (w : World) :
  Forall (λ k, hash_api_key k = f) keys →
  container_registry w !! f = None →
  fault_free w →
  adoptable f w →
  let callers := fst (run_schedule schedule (Waiting <$> keys) w) in
  let w' := snd (run_schedule schedule (Waiting <$> keys) w) in
  (creates_issued f w' ≤ creates_issued f w + 1)%nat
  ∧ ∃ p, ∀ i r, callers !! i = Some (Finished r) → r = Ok (p, f) ∨ r = Raise no_ports.
Proof.
  intros Hkeys Hreg Hff Hadopt. cbv zeta.
  assert (Hinit : single_flight f (creates_issued f w) (Waiting <$> keys) w).
  { left. split; [split; [exact Hff | split; [exact Hreg | exact Hadopt]] |].
    split; [| reflexivity].
    apply Forall_fmap. eapply Forall_impl; [exact Hkeys |]. now intros k Hk. }
  apply (run_schedule_single_flight f _ schedule) in Hinit.
  destruct Hinit as [(_ & Hall & Hcr) | (p & _ & Hall & Hcr)].
  - split; [lia |]. exists 0. intros i r Hi.
    pose proof (proj1 (Forall_lookup _ _) Hall i _ Hi) as Hc.
    destruct r as [[q n] | e]; cbn in Hc; [contradiction | right; now subst].
  - split; [exact Hcr |]. exists p. intros i r Hi.
    pose proof (proj1 (Forall_lookup _ _) Hall i _ Hi) as Hc.
    destruct r as [[q n] | e]; cbn in Hc; [left | right; now subst].
    destruct Hc as [-> ->]. reflexivity.
Qed.

Lemma single_creation_without_faults_witness :
  let keys := ["tok-A"; "tok-A"; "tok-A"]%string in
  let schedule := [0; 1; 2; 0; 1; 2]%nat in
  let w := world_of runtime_ok in
  let callers := fst (run_schedule schedule (Waiting <$> keys) w) in
  let w' := snd (run_schedule schedule (Waiting <$> keys) w) in
  (creates_issued tok_A_name w' ≤ creates_issued tok_A_name w + 1)%nat
  ∧ ∃ p, ∀ i r, callers !! i = Some (Finished r) →
                r = Ok (p, tok_A_name) ∨ r = Raise no_ports.
Proof.
  cbv zeta.
  apply (single_creation_without_faults tok_A_name ["tok-A"; "tok-A"; "tok-A"]%string
           [0; 1; 2; 0; 1; 2]%nat (world_of runtime_ok)).
  - repeat constructor; vm_compute; reflexivity.
  - reflexivity.
  - split; [reflexivity |]. split; [left; reflexivity | reflexivity].
  - exact I.
Defined.

(** Three requests for one token against an empty state: one creation,
    and port 4000 for all three. *)
Example three_callers_one_creation :
  let run := run_schedule [0; 1; 2; 0; 1; 2]%nat
               (Waiting <$> ["tok-A"; "tok-A"; "tok-A"]%string) (world_of runtime_ok) in
  fst run = [Finished (Ok (4000, tok_A_name)); Finished (Ok (4000, tok_A_name));
             Finished (Ok (4000, tok_A_name))]
  ∧ creates_issued tok_A_name (snd run) = 1%nat.
Proof. vm_compute. split; reflexivity. Qed.

(** C1 as stated fails.  Two requests for one token are in flight, there is
    no record, and the image cannot be had: each of the two calls issues its
    own [ContainerCreate], and neither receives a port. *)
Lemma concurrent_callers_create_twice :
  let w := world_of runtime_no_image in
  let run := run_schedule [0; 1]%nat [Waiting "tok-A"; Waiting "tok-A"] w in
  container_registry w !! tok_A_name = None
  ∧ creates_issued tok_A_name w = 0%nat
  ∧ creates_issued tok_A_name (snd run) = 2%nat
  ∧ fst run = [Finished (Raise creation_failed); Finished (Raise creation_failed)].
Proof. cbv zeta. split; [reflexivity |]. vm_compute. repeat split. Qed.

(** The same with a runtime that carries out every call, when a container
    of that name runs without a binding of the internal port: the first
    request stops it and fails on the name that is taken, the second removes
    it, creates again and gets a port. *)
Example unbound_container_two_creations :
  let run := run_schedule [0; 1; 1]%nat [Waiting "tok-A"; Waiting "tok-A"] world_unbound in
  fst run = [Finished (Raise creation_failed); Finished (Ok (4001, tok_A_name))]
  ∧ creates_issued tok_A_name (snd run) = 2%nat.
Proof. vm_compute. split; reflexivity. Qed.

(* ===================================================================== *)
(** ** More on the port allocator *)
(* ===================================================================== *)

(** X1: whatever the runtime says or fails to say, a port the allocator
    returns lies in [4000, 5000), was not allocated, and is the one thing
    added to [allocated_ports]; when the allocator raises, it raises for
    want of a port and [allocated_ports] is what it was.  The registry and
    the runtime are never touched. *)
Theorem get_next_available_port_safe (w : World) :
  match get_next_available_port w with
  | (Ok p, w') =>
      4000 ≤ p < 5000
      ∧ (p ∉ allocated_ports w)
      ∧ allocated_ports w' = {[p]} ∪ allocated_ports w
      ∧ container_registry w' = container_registry w
      ∧ runtime w' = runtime w
  | (Raise e, w') =>
      e = no_ports
      ∧ allocated_ports w' = allocated_ports w
      ∧ container_registry w' = container_registry w
      ∧ runtime w' = runtime w
  end.
Proof.
  rewrite get_next_available_port_eq. cbv zeta.
  destruct (List.find _ _) as [p |] eqn:Hfind; [| now repeat split].
  apply find_range_bounds in Hfind as [Hp Hfree].
  unfold port_is_free in Hfree. apply andb_true_iff in Hfree as [Hfree _].
  apply bool_decide_eq_true in Hfree. unfold NEXT_PORT, MAX_PORT in Hp.
  repeat split; [lia | lia | exact Hfree].
Qed.

(** X2: a port the allocator has handed out is never handed out again,
    whatever the callers and the sweeper do in between. *)
Theorem port_never_handed_out_twice (w w1 w2 : World) (p q : Z) (acts : list Activity) :
  get_next_available_port w = (Ok p, w1) →
  get_next_available_port (run_activities acts w1) = (Ok q, w2) →
  q ≠ p.
Proof.
  intros H1 H2 ->.
  rewrite get_next_available_port_eq in H1, H2. cbv zeta in H1, H2.
  destruct (List.find _ _) as [p' |] in H1; [| discriminate]. injection H1 as -> <-.
  destruct (List.find _ _) as [q |] eqn:Hfind in H2; [| discriminate].
  injection H2 as -> _. apply find_range_bounds in Hfind as [_ Hfree].
  unfold port_is_free in Hfree. apply andb_true_iff in Hfree as [Hfree _].
  apply bool_decide_eq_true in Hfree. apply Hfree, run_activities_grows.
  cbn. apply elem_of_union_l. now apply elem_of_singleton.
Qed.

Lemma port_never_handed_out_twice_witness : 4002 ≠ 4000.
Proof.
  eapply (port_never_handed_out_twice (world_of runtime_ok) _ _ 4000 4002
            [Resolve (Waiting "tok-A"); Sweep]).
  - vm_compute. reflexivity.
  - vm_compute. reflexivity.
Defined.

(* ===================================================================== *)
(** ** More on the request gateway *)
(* ===================================================================== *)

(** X3: of the inbound headers the container sees [content-type],
    [authorization] and [user-agent], as they came, and nothing else (the
    key header in particular stays behind); [accept] is always the one the
    gateway sets, whatever the client sent. *)
Theorem proxy_headers_whitelist (host_port : Z) (path : string) (request : Request)
    (header_name : string) :
  u_headers (upstream_request host_port path request) !! header_name
  = if decide (header_name = "accept"%string)
    then Some "application/json, text/event-stream"%string
    else if bool_decide (header_name ∈ ["content-type"; "authorization"; "user-agent"]%string)
         then headers request !! header_name
         else None.
Proof.
  unfold upstream_request, proxy_headers, headers_to_forward. cbn [u_headers fold_left].
  rewrite lookup_insert. destruct (decide ("accept"%string = header_name)) as [<- | Hacc].
  - now rewrite decide_True.
  - rewrite decide_False by congruence.
    destruct (decide (header_name = "user-agent"%string)) as [-> | Hua].
    { rewrite bool_decide_eq_true_2 by (apply list_elem_of_In; simpl; tauto).
      destruct (headers request !! "user-agent"%string) eqn:E.
      - now rewrite lookup_insert_eq.
      - destruct (headers request !! "authorization"%string),
          (headers request !! "content-type"%string);
          repeat (rewrite lookup_insert_ne by discriminate); now rewrite lookup_empty. }
    destruct (decide (header_name = "authorization"%string)) as [-> | Hau].
    { rewrite bool_decide_eq_true_2 by (apply list_elem_of_In; simpl; tauto).
      destruct (headers request !! "user-agent"%string);
        [rewrite lookup_insert_ne by discriminate |];
        (destruct (headers request !! "authorization"%string) eqn:E;
         [now rewrite lookup_insert_eq |]);
        (destruct (headers request !! "content-type"%string);
         [rewrite lookup_insert_ne by discriminate |]); now rewrite lookup_empty. }
    destruct (decide (header_name = "content-type"%string)) as [-> | Hct].
    { rewrite bool_decide_eq_true_2 by (apply list_elem_of_In; simpl; tauto).
      destruct (headers request !! "user-agent"%string);
        [rewrite lookup_insert_ne by discriminate |];
        (destruct (headers request !! "authorization"%string);
         [rewrite lookup_insert_ne by discriminate |]);
        (destruct (headers request !! "content-type"%string) eqn:E;
         [now rewrite lookup_insert_eq | now rewrite lookup_empty]). }
    rewrite bool_decide_eq_false_2
      by (intros Hin; apply list_elem_of_In in Hin; simpl in Hin; intuition congruence).
    destruct (headers request !! "user-agent"%string);
      [rewrite lookup_insert_ne by congruence |];
      (destruct (headers request !! "authorization"%string);
       [rewrite lookup_insert_ne by congruence |]);
      (destruct (headers request !! "content-type"%string);
       [rewrite lookup_insert_ne by congruence |]); now rewrite lookup_empty.
Qed.

(** X4: a request without a key, with an empty key, or with a key the
    oracle does not validate is answered 400 or 401 and leaves the state of
    the process as it was: no record, no port, no call to the runtime. *)
Theorem rejected_request_touches_nothing (env : Env) (path : string) (request : Request)
    (x_outline_api_key : option string) (w : World) :
  match x_outline_api_key with
  | Some key => key = ""%string ∨ validate_outline_key (oracle env) key = false
  | None => True
  end →
  let '(response, w') := serve (proxy env path request x_outline_api_key) w in
  w' = w ∧ (status_code response = 400 ∨ status_code response = 401).
Proof.
  intros Hrej. unfold serve, proxy, authenticate_and_resolve, mbind, M_bind.
  destruct x_outline_api_key as [[| c key] |]; cbn; auto.
  destruct Hrej as [? | ->]; [discriminate |]. cbn. auto.
Qed.

Lemma rejected_request_touches_nothing_witness :
  let '(response, w') :=
    serve (proxy (env_of (HttpStatus 401) (Replied ok_response)) "mcp" post_request
                 (Some "tok-A"%string)) (world_of runtime_ok) in
  w' = world_of runtime_ok ∧ (status_code response = 400 ∨ status_code response = 401).
Proof.
  apply (rejected_request_touches_nothing (env_of (HttpStatus 401) (Replied ok_response))
           "mcp" post_request (Some "tok-A"%string) (world_of runtime_ok)).
  right. reflexivity.
Defined.

(** X5: [proxy] lets nothing but an [HTTPException] out, and only with
    status 400, 401, 503, 504 or 502; when it returns, what it returns is
    the reply of the container, untouched, to a request for the same method
    and path on the port the controller gave. *)
Theorem proxy_outcomes (env : Env) (path : string) (request : Request)
    (x_outline_api_key : option string) (w : World) :
  match proxy env path request x_outline_api_key w with
  | (Ok response, _) =>
      ∃ key host_port cname w',
        x_outline_api_key = Some key
        ∧ resolve key w = (Ok (host_port, cname), w')
        ∧ upstream env (upstream_request host_port path request) = Replied response
  | (Raise e, _) =>
      ∃ code detail, e = HTTPException code detail ∧ code ∈ [400; 401; 503; 504; 502]
  end.
Proof.
  unfold proxy, authenticate_and_resolve, mbind, M_bind.
  assert (H400 : (400 : Z) ∈ [400; 401; 503; 504; 502]) by (apply list_elem_of_In; simpl; tauto).
  assert (H401 : (401 : Z) ∈ [400; 401; 503; 504; 502]) by (apply list_elem_of_In; simpl; tauto).
  assert (H503 : (503 : Z) ∈ [400; 401; 503; 504; 502]) by (apply list_elem_of_In; simpl; tauto).
  assert (H504 : (504 : Z) ∈ [400; 401; 503; 504; 502]) by (apply list_elem_of_In; simpl; tauto).
  assert (H502 : (502 : Z) ∈ [400; 401; 503; 504; 502]) by (apply list_elem_of_In; simpl; tauto).
  destruct x_outline_api_key as [[| c key] |]; cbn [raise]; eauto.
  destruct (validate_outline_key _ _); cbn [negb raise]; eauto.
  unfold try_except.
  destruct (resolve _ w) as [[[host_port cname] | e] w'] eqn:Hres; cbn [raise]; eauto.
  rewrite proxy_request_calls_upstream. cbn [fst].
  destruct (upstream env _) eqn:Hup; eauto 10.
Qed.

(* ===================================================================== *)
(** ** More on the idle sweeper *)
(* ===================================================================== *)

#[local] Instance outside_preorder K : PreOrder (outside K).
Proof.
  split; [intros w h _; reflexivity |].
  intros w1 w2 w3 H1 H2 h Hh. now rewrite (H2 h Hh), (H1 h Hh).
Qed.

#[local] Instance outside_blind K : Blind (outside K).
Proof. split; intros w ? h _; reflexivity. Qed.

#[local] Hint Resolve outside_preorder outside_blind : preserved.

Lemma outside_registry_alter K f k : K k → preserves (outside K) (registry_alter f k).
Proof.
  intros Hk. apply (preserves_modify (outside K)). intros w h Hh. cbn.
  apply lookup_alter_ne. now intros ->.
Qed.

Lemma outside_stop_if_idle K t item keys :
  (is_idle t (snd item) = true → K (fst item)) →
  preserves (outside K) (stop_if_idle t item keys).
Proof.
  destruct item as [h info]. cbn [fst snd]. intros HK. unfold stop_if_idle.
  fold (is_idle t info). destruct (is_idle t info); [| apply (preserves_ret (outside K))].
  pose proof (outside_registry_alter K (set_status "stopped") h (HK eq_refl)).
  preserves_auto.
Qed.

Lemma outside_stop_idle_items K t items keys :
  (∀ item, item ∈ items → is_idle t (snd item) = true → K (fst item)) →
  preserves (outside K) (stop_idle_items t items keys).
Proof.
  revert keys. induction items as [| item items IH]; intros keys HK;
    cbn [stop_idle_items]; [apply (preserves_ret (outside K)) |].
  apply (preserves_bind (outside K)).
  - apply outside_stop_if_idle. apply HK. apply list_elem_of_here.
  - intros keys'. apply IH. intros item' Hin. apply HK. now apply list_elem_of_further.
Qed.

Lemma outside_update_registry K keys :
  (∀ k, k ∈ keys → K k) → preserves (outside K) (update_registry keys).
Proof.
  induction keys as [| k keys IH]; intros HK; cbn [update_registry];
    [apply (preserves_ret (outside K)) |].
  apply (preserves_bind (outside K)).
  - apply outside_registry_alter, HK, list_elem_of_here.
  - intros _. apply IH. intros k' Hin. apply HK. now apply list_elem_of_further.
Qed.

Lemma elem_of_idle_keys_of t items h :
  h ∈ idle_keys_of t items ↔ ∃ info, (h, info) ∈ items ∧ is_idle t info = true.
Proof.
  unfold idle_keys_of. rewrite list_elem_of_In, in_map_iff. split.
  - intros ([h' info] & <- & Hin). apply filter_In in Hin as [Hin Hidle].
    exists info. split; [now apply list_elem_of_In | exact Hidle].
  - intros (info & Hin & Hidle). exists (h, info). split; [reflexivity |].
    apply filter_In. split; [now apply list_elem_of_In | exact Hidle].
Qed.

Lemma update_registry_ok keys w : fst (update_registry keys w) = Ok tt.
Proof.
  revert w. induction keys as [| k keys IH]; intros w; [reflexivity |].
  cbn [update_registry]. unfold mbind, M_bind, registry_alter, modify. apply IH.
Qed.

(** The two loops of the sweeper, one after the other. *)
Lemma cleanup_idle_containers_eq w :
  let items := map_to_list (container_registry w) in
  let w1 := snd (stop_idle_items (clock w) items [] w) in
  cleanup_idle_containers w
  = (Ok tt, snd (update_registry (idle_keys_of (clock w) items) w1)).
Proof.
  cbv zeta. unfold cleanup_idle_containers, try_except.
  unfold mbind at 1. unfold M_bind at 1. unfold time at 1.
  unfold mbind at 1. unfold M_bind at 1. unfold get_world at 1.
  unfold mbind at 1. unfold M_bind at 1.
  pose proof (stop_idle_items_keys (clock w) (map_to_list (container_registry w)) [] w)
    as Hkeys.
  destruct (stop_idle_items _ _ [] w) as [[keys | e] w1]; cbn [fst snd] in *;
    [| discriminate].
  injection Hkeys as ->. cbn [app].
  pose proof (update_registry_ok
                (idle_keys_of (clock w) (map_to_list (container_registry w))) w1) as Hok.
  destruct (update_registry _ w1) as [[[] | e] w2]; cbn [fst snd] in *;
    [reflexivity | discriminate].
Qed.

(** A record that is not idle is not touched. *)
Lemma sweep_spares_recent_record (w : World) (h : string) (info : ContainerInfo) :
  container_registry w !! h = Some info →
  is_idle (clock w) info = false →
  container_registry (snd (cleanup_idle_containers w)) !! h = Some info.
Proof.
  intros Hreg Hrecent. rewrite cleanup_idle_containers_eq. cbv zeta. cbn [snd].
  set (items := map_to_list (container_registry w)).
  set (K := λ k, k ∈ idle_keys_of (clock w) items).
  assert (HnK : ¬ K h).
  { unfold K. rewrite elem_of_idle_keys_of. intros (info' & Hin & Hidle).
    subst items. apply elem_of_map_to_list in Hin. congruence. }
  pose proof (outside_update_registry K (idle_keys_of (clock w) items) (λ k Hk, Hk)
                (snd (stop_idle_items (clock w) items [] w)) h HnK) as H2.
  assert (HK1 : ∀ item, item ∈ items → is_idle (clock w) (snd item) = true → K (fst item)).
  { intros [k i] Hin Hidle. unfold K. apply elem_of_idle_keys_of. eauto. }
  pose proof (outside_stop_idle_items K (clock w) items [] HK1 w h HnK) as H1.
  rewrite H2, H1. exact Hreg.
Qed.

Lemma cleanup_registry_fmap (w : World) :
  container_registry (snd (cleanup_idle_containers w))
  = swept (clock w) <$> container_registry w.
Proof.
  apply map_eq. intros h. rewrite lookup_fmap.
  destruct (container_registry w !! h) as [info |] eqn:Hreg; cbn [fmap option_fmap option_map].
  - unfold swept. destruct (is_idle (clock w) info) eqn:Hidle.
    + apply sweep_marks_every_idle_record; [exact Hreg |].
      unfold is_idle in Hidle. apply Z.gtb_lt in Hidle. lia.
    + now apply sweep_spares_recent_record.
  - rewrite cleanup_idle_containers_eq. cbv zeta. cbn [snd].
    destruct (marks_update_registry
                (idle_keys_of (clock w) (map_to_list (container_registry w)))
                (snd (stop_idle_items (clock w) (map_to_list (container_registry w)) [] w)) h)
      as [-> | ->];
      destruct (marks_stop_idle_items (clock w) (map_to_list (container_registry w)) [] w h)
        as [-> | ->]; now rewrite Hreg.
Qed.

#[local] Instance ports_kept_preorder : PreOrder ports_kept.
Proof.
  split; [intros w; reflexivity | intros w1 w2 w3 H1 H2; unfold ports_kept in *; congruence].
Qed.

#[local] Instance ports_kept_blind : Blind ports_kept.
Proof. split; intros; reflexivity. Qed.

#[local] Hint Resolve ports_kept_preorder ports_kept_blind : preserved.

Lemma ports_kept_registry_alter f h : preserves ports_kept (registry_alter f h).
Proof. apply (preserves_modify ports_kept). intros w. reflexivity. Qed.

#[local] Hint Resolve ports_kept_registry_alter : preserved.

Lemma ports_kept_stop_idle_items t items keys :
  preserves ports_kept (stop_idle_items t items keys).
Proof.
  revert keys. induction items as [| item items IH]; intros keys;
    cbn [stop_idle_items]; [preserves_auto |].
  apply (preserves_bind ports_kept); [| intros ?; apply IH].
  unfold stop_if_idle. preserves_auto.
Qed.

Lemma ports_kept_update_registry keys : preserves ports_kept (update_registry keys).
Proof. induction keys as [| k keys IH]; cbn [update_registry]; preserves_auto. Qed.

#[local] Hint Resolve ports_kept_stop_idle_items ports_kept_update_registry : preserved.

Lemma ports_kept_cleanup_idle_containers : preserves ports_kept cleanup_idle_containers.
Proof. unfold cleanup_idle_containers. preserves_auto. Qed.

(** X6: what a turn of the sweeper does to the state of the process: the
    records that have been idle for more than [IDLE_TIMEOUT_SECONDS] get the
    status [stopped], whatever status they had and whatever the runtime did;
    no other field and no other record changes, no record is added or lost,
    and [allocated_ports] is what it was: a stopped container keeps its
    port. *)
Theorem sweep_registry (w : World) :
  let w' := snd (cleanup_idle_containers w) in
  container_registry w' = swept (clock w) <$> container_registry w
  ∧ (∀ h info, container_registry w !! h = Some info →
       ∃ info', container_registry w' !! h = Some info'
                ∧ port info' = port info
                ∧ container_name info' = container_name info
                ∧ last_used info' = last_used info)
  ∧ allocated_ports w' = allocated_ports w.
Proof.
  cbv zeta. split; [apply cleanup_registry_fmap |]. split.
  - intros h info Hreg. rewrite cleanup_registry_fmap, lookup_fmap, Hreg.
    exists (swept (clock w) info). split; [reflexivity |].
    unfold swept. now destruct (is_idle (clock w) info).
  - apply ports_kept_cleanup_idle_containers.
Qed.

#[local] Instance trace_extends_preorder : PreOrder trace_extends.
Proof.
  split; [intros w; now exists [] |].
  intros w1 w2 w3 [e1 H1] [e2 H2]. exists (e2 ++ e1). now rewrite H2, H1, app_assoc.
Qed.

#[local] Instance trace_extends_blind : Blind trace_extends.
Proof. split; [intros w d; now exists [] | intros w e; now exists [e]]. Qed.

#[local] Hint Resolve trace_extends_preorder trace_extends_blind : preserved.

Lemma trace_extends_registry_alter f h : preserves trace_extends (registry_alter f h).
Proof. apply (preserves_modify trace_extends). intros w. now exists []. Qed.

#[local] Hint Resolve trace_extends_registry_alter : preserved.

Lemma trace_extends_stop_idle_items t items keys :
  preserves trace_extends (stop_idle_items t items keys).
Proof.
  revert keys. induction items as [| item items IH]; intros keys;
    cbn [stop_idle_items]; [preserves_auto |].
  apply (preserves_bind trace_extends); [| intros ?; apply IH].
  unfold stop_if_idle. preserves_auto.
Qed.

Lemma trace_extends_update_registry keys : preserves trace_extends (update_registry keys).
Proof. induction keys as [| k keys IH]; cbn [update_registry]; preserves_auto. Qed.

Lemma trace_extends_In w w' e : trace_extends w w' → In e (trace w) → In e (trace w').
Proof. intros [events ->] Hin. apply in_or_app. now right. Qed.

#[local] Instance only_stopped_preorder : PreOrder only_stopped.
Proof.
  split; [intros w; split; [reflexivity | intros n; now left] |].
  intros w1 w2 w3 [Hd1 H1] [Hd2 H2]. split; [congruence |].
  intros n. destruct (H2 n) as [-> | ->], (H1 n) as [-> | ->]; auto.
  right. now destruct (lookup_container n w1).
Qed.

Lemma find_container_update_other n n' f cs :
  (∀ c, name (f c) = name c) → n' ≠ n →
  find_container n' (update_container n f cs) = find_container n' cs.
Proof.
  intros Hname Hne. unfold find_container, update_container.
  induction cs as [| c cs IH]; [reflexivity |]. cbn [List.map List.find].
  destruct (String.eqb (name c) n) eqn:E.
  - rewrite Hname. apply String.eqb_eq in E.
    destruct (String.eqb (name c) n') eqn:E'; [| exact IH].
    apply String.eqb_eq in E'. congruence.
  - destruct (String.eqb (name c) n'); [reflexivity | exact IH].
Qed.

Lemma find_container_update_same n f cs :
  (∀ c, name (f c) = name c) →
  find_container n (update_container n f cs) = f <$> find_container n cs.
Proof.
  intros Hname. destruct (find_container n cs) as [c |] eqn:E.
  - now apply find_container_update.
  - unfold find_container, update_container in *.
    induction cs as [| c cs IH]; [reflexivity |]. cbn [List.map List.find] in *.
    destruct (String.eqb (name c) n) eqn:E'; [discriminate |]. rewrite E'. now apply IH.
Qed.

Lemma only_stopped_called c w : only_stopped w (called c w).
Proof. split; [reflexivity | intros n; now left]. Qed.

Lemma only_stopped_docker_call c : preserves only_stopped (docker_call c).
Proof. intros w. unfold docker_call. destruct (daemon_up _); apply only_stopped_called. Qed.

Lemma only_stopped_container_stop n : preserves only_stopped (container_stop n).
Proof.
  unfold container_stop. apply (preserves_bind only_stopped);
    [apply only_stopped_docker_call | intros _].
  apply (preserves_bind only_stopped); [apply preserves_get_world; typeclasses eauto |].
  intros w0. destruct (find_container _ _); [| apply preserves_raise; typeclasses eauto].
  intros w. split; [reflexivity |]. intros n'. unfold lookup_container. cbn.
  destruct (decide (n' = n)) as [-> | Hne].
  - right. now apply find_container_update_same.
  - left. now apply find_container_update_other.
Qed.

Lemma only_stopped_containers_get n : preserves only_stopped (containers_get n).
Proof.
  unfold containers_get. apply (preserves_bind only_stopped);
    [apply only_stopped_docker_call | intros _].
  preserves_auto.
Qed.

Lemma only_stopped_registry_alter f h : preserves only_stopped (registry_alter f h).
Proof.
  apply (preserves_modify only_stopped). intros w. split; [reflexivity | intros n; now left].
Qed.

#[local] Hint Resolve only_stopped_preorder only_stopped_container_stop
  only_stopped_containers_get only_stopped_registry_alter : preserved.

Lemma only_stopped_stop_if_idle t item keys :
  preserves only_stopped (stop_if_idle t item keys).
Proof. unfold stop_if_idle. preserves_auto. Qed.

Lemma only_stopped_stop_idle_items t items keys :
  preserves only_stopped (stop_idle_items t items keys).
Proof.
  revert keys. induction items as [| item items IH]; intros keys;
    cbn [stop_idle_items]; [preserves_auto |].
  apply (preserves_bind only_stopped); [apply only_stopped_stop_if_idle | intros ?; apply IH].
Qed.

Lemma only_stopped_update_registry keys : preserves only_stopped (update_registry keys).
Proof. induction keys as [| k keys IH]; cbn [update_registry]; preserves_auto. Qed.

Lemma container_stop_eq n w c :
  daemon_up (runtime w) = true → lookup_container n w = Some c →
  container_stop n w
  = (Ok tt, map_containers (update_container n (set_c_status "exited"))
              (called (ContainerStop n) w)).
Proof.
  intros Hup Hc. unfold container_stop.
  erewrite bind_ok by now apply docker_call_up. munfold. cbn.
  unfold lookup_container in Hc. now rewrite Hc.
Qed.

(** The body of the first loop for an idle record whose container the
    runtime has: the container is stopped. *)
Lemma stop_if_idle_stops t h info keys w c :
  daemon_up (runtime w) = true → is_idle t info = true →
  lookup_container (container_name info) w = Some c →
  let w' := snd (stop_if_idle t (h, info) keys w) in
  lookup_container (container_name info) w' = Some (set_c_status "exited" c)
  ∧ In (Call (ContainerStop (container_name info))) (trace w').
Proof.
  intros Hup Hidle Hc.
  assert (Heq : stop_if_idle t (h, info) keys w
                = (Ok (keys ++ [h]),
                   with_registry
                     (alter (set_status "stopped") h (container_registry w))
                     (map_containers
                        (update_container (container_name info) (set_c_status "exited"))
                        (called (ContainerStop (container_name info))
                           (called (ContainersGet (container_name info)) w))))).
  { unfold stop_if_idle. fold (is_idle t info). rewrite Hidle.
    mstep. unfold try_except at 1. mstep. rewrite containers_get_eq, Hup, Hc.
    mstep. rewrite (container_stop_eq _ _ c) by (wsimpl; assumption).
    munfold. unfold registry_alter, modify. reflexivity. }
  cbv zeta. rewrite Heq. cbn [snd]. split.
  - unfold lookup_container, map_containers in *. wsimpl.
    now apply find_container_update.
  - wsimpl. now left.
Qed.

Lemma stop_idle_items_stops t items keys w0 w h info c :
  only_stopped w0 w → daemon_up (runtime w0) = true →
  lookup_container (container_name info) w0 = Some c →
  (h, info) ∈ items → is_idle t info = true →
  let w' := snd (stop_idle_items t items keys w) in
  lookup_container (container_name info) w' = Some (set_c_status "exited" c)
  ∧ In (Call (ContainerStop (container_name info))) (trace w').
Proof.
  cbv zeta. revert keys w. induction items as [| item items IH];
    intros keys w Hrel Hup Hc Hin Hidle; [now apply elem_of_nil in Hin |].
  cbn [stop_idle_items]. unfold mbind, M_bind.
  pose proof (only_stopped_stop_if_idle t item keys w) as Hstep.
  pose proof (stop_if_idle_keys t item keys w) as Hkeys.
  apply elem_of_cons in Hin as [<- | Hin].
  - destruct Hrel as [Hd Hlook].
    assert (Hc' : ∃ c', lookup_container (container_name info) w = Some c'
                        ∧ set_c_status "exited" c' = set_c_status "exited" c).
    { destruct (Hlook (container_name info)) as [-> | ->]; rewrite Hc; cbn; eauto. }
    destruct Hc' as (c' & Hc' & Heq).
    destruct (stop_if_idle_stops t h info keys w c' ltac:(congruence) Hidle Hc')
      as [Hstopped Htrace].
    destruct (stop_if_idle t (h, info) keys w) as [[keys' | e] w1]; cbn [fst snd] in *;
      [| discriminate].
    rewrite Heq in Hstopped. split.
    + destruct (only_stopped_stop_idle_items t items keys' w1) as [_ Hl].
      destruct (Hl (container_name info)) as [-> | ->]; rewrite Hstopped; reflexivity.
    + eapply trace_extends_In; [apply trace_extends_stop_idle_items | exact Htrace].
  - destruct (stop_if_idle t item keys w) as [[keys' | e] w1]; cbn [fst snd] in *;
      [| discriminate].
    apply IH; try assumption. etransitivity; eassumption.
Qed.

(** X7: when the daemon answers, a turn of the sweeper issues a
    [ContainerStop] for the container of every record that has been idle for
    more than [IDLE_TIMEOUT_SECONDS] and that the runtime has, whatever the
    status of the record (a record that already says stopped has its
    container stopped again at every turn); afterwards the container is not
    running and the record says stopped. *)
Theorem sweep_stops_idle_containers (w : World) (h : string) (info : ContainerInfo)
    (c : Container) :
  daemon_up (runtime w) = true →
  container_registry w !! h = Some info →
  clock w - last_used info > IDLE_TIMEOUT_SECONDS →
  lookup_container (container_name info) w = Some c →
  let w' := snd (cleanup_idle_containers w) in
  lookup_container (container_name info) w' = Some (set_c_status "exited" c)
  ∧ In (Call (ContainerStop (container_name info))) (trace w')
  ∧ container_registry w' !! h = Some (set_status "stopped" info).
Proof.
  intros Hup Hreg Hidle Hc. cbv zeta.
  split; [| split; [| now apply sweep_marks_every_idle_record]].
  - rewrite cleanup_idle_containers_eq. cbv zeta. cbn [snd].
    set (items := map_to_list (container_registry w)).
    destruct (stop_idle_items_stops (clock w) items [] w w h info c) as [Hs _];
      try assumption; [reflexivity | now apply elem_of_map_to_list
                      | unfold is_idle; apply Z.gtb_lt; lia |].
    destruct (only_stopped_update_registry (idle_keys_of (clock w) items)
                (snd (stop_idle_items (clock w) items [] w))) as [_ Hl].
    destruct (Hl (container_name info)) as [-> | ->]; rewrite Hs; reflexivity.
  - rewrite cleanup_idle_containers_eq. cbv zeta. cbn [snd].
    set (items := map_to_list (container_registry w)).
    destruct (stop_idle_items_stops (clock w) items [] w w h info c) as [_ Ht];
      try assumption; [reflexivity | now apply elem_of_map_to_list
                      | unfold is_idle; apply Z.gtb_lt; lia |].
    eapply trace_extends_In; [apply trace_extends_update_registry | exact Ht].
Qed.

Lemma sweep_stops_idle_containers_witness :
  let w' := snd (cleanup_idle_containers world_idle_stopped) in
  status tok_A_info = "stopped"%string
  ∧ lookup_container tok_A_name w' = Some (set_c_status "exited" tok_A_stopped)
  ∧ In (Call (ContainerStop tok_A_name)) (trace w')
  ∧ container_registry w' !! tok_A_name = Some (set_status "stopped" tok_A_info).
Proof.
  cbv zeta. split; [reflexivity |].
  apply (sweep_stops_idle_containers world_idle_stopped tok_A_name tok_A_info tok_A_stopped).
  - reflexivity.
  - reflexivity.
  - vm_compute. reflexivity.
  - vm_compute. reflexivity.
Defined.

(* ===================================================================== *)
(** ** Health *)
(* ===================================================================== *)

#[local] Instance clock_kept_preorder : PreOrder clock_kept.
Proof. split; [intros w; reflexivity | intros w1 w2 w3 H1 H2; unfold clock_kept in *; congruence]. Qed.

#[local] Instance clock_kept_blind : Blind clock_kept.
Proof. split; intros; reflexivity. Qed.

#[local] Hint Resolve clock_kept_preorder clock_kept_blind : preserved.

Lemma clock_kept_registry_alter f h : preserves clock_kept (registry_alter f h).
Proof. apply (preserves_modify clock_kept). intros w. reflexivity. Qed.

#[local] Hint Resolve clock_kept_registry_alter : preserved.

Lemma clock_kept_stop_idle_items t items keys :
  preserves clock_kept (stop_idle_items t items keys).
Proof.
  revert keys. induction items as [| item items IH]; intros keys;
    cbn [stop_idle_items]; [preserves_auto |].
  apply (preserves_bind clock_kept); [| intros ?; apply IH].
  unfold stop_if_idle. preserves_auto.
Qed.

Lemma clock_kept_update_registry keys : preserves clock_kept (update_registry keys).
Proof. induction keys as [| k keys IH]; cbn [update_registry]; preserves_auto. Qed.

#[local] Hint Resolve clock_kept_stop_idle_items clock_kept_update_registry : preserved.

Lemma clock_kept_cleanup_idle_containers : preserves clock_kept cleanup_idle_containers.
Proof. unfold cleanup_idle_containers. preserves_auto. Qed.

Lemma filter_length_map {A B} (f : B → bool) (g : A → B) (l : list A) :
  List.length (List.filter f (g <$> l)) = List.length (List.filter (λ a, f (g a)) l).
Proof.
  induction l as [| a l IH]; [reflexivity |]. cbn [fmap list_fmap List.filter].
  destruct (f (g a)); cbn [List.length]; now rewrite <- IH.
Qed.

Lemma filter_length_ext {A} (f g : A → bool) (l : list A) :
  (∀ a, f a = g a) → List.length (List.filter f l) = List.length (List.filter g l).
Proof.
  intros H. induction l as [| a l IH]; [reflexivity |]. cbn [List.filter].
  rewrite H. destruct (g a); cbn [List.length]; now rewrite IH.
Qed.

(** X8: what [/health] says after a turn of the sweeper.  It tracks as many
    containers as before, and counts as running the records that said
    running and were not idle: the count follows the status the sweeper
    wrote, not what became of the containers.  The check itself changes
    nothing and calls nothing. *)
Theorem health_after_sweep (w : World) :
  let w' := snd (cleanup_idle_containers w) in
  health_check w'
  = (Ok (mkHealth "healthy" (clock w) (size (container_registry w))
                  (running_and_recent (clock w) (container_registry w))), w').
Proof.
  cbv zeta. unfold health_check. munfold.
  rewrite (clock_kept_cleanup_idle_containers w), cleanup_registry_fmap, map_size_fmap.
  do 3 f_equal. unfold running_count, running_and_recent.
  rewrite map_to_list_fmap, filter_length_map. apply filter_length_ext. intros [h info]. cbn [snd prod_map].
  unfold swept. destruct (is_idle (clock w) info); reflexivity.
Qed.

(* ===================================================================== *)
(** ** The branches of [create_or_start_container] *)
(* ===================================================================== *)

(** X9: the fast path.  The record's container runs: the call returns the
    record's port and name without sleeping, after one read of the runtime;
    it sets [last_used] to the time of the call and changes nothing else, the
    status of the record included (a record the sweeper marked stopped stays
    so while its container runs). *)
Theorem tracked_running_returns_at_once (api_key : string) (w : World)
    (info : ContainerInfo) (c : Container) :
  let f := hash_api_key api_key in
  container_registry w !! f = Some info →
  daemon_up (runtime w) = true →
  lookup_container (container_name info) w = Some c →
  is_running c = true →
  ∃ w', create_or_start_container api_key w
        = (Ok (Done (port info) (container_name info)), w')
        ∧ container_registry w' = <[f := set_last_used (clock w) info]> (container_registry w)
        ∧ allocated_ports w' = allocated_ports w
        ∧ runtime w' = runtime w
        ∧ trace w' = Call (ContainersGet (container_name info)) :: trace w.
Proof.
  cbv zeta. set (f := hash_api_key api_key). intros Hreg Hup Hc Hrun.
  unfold create_or_start_container. fold f. mstep. unfold get_world at 1. rewrite Hreg.
  mstep. rewrite is_container_running_eq. unfold observed_running.
  rewrite Hup, Hc, Hrun. cbn [andb]. munfold. unfold registry_alter, modify.
  eexists. split; [reflexivity |]. wsimpl. repeat split.
  apply map_eq. intros h. rewrite lookup_alter, lookup_insert.
  destruct (decide (f = h)) as [<- | Hne]; [now rewrite Hreg | reflexivity].
Qed.

Lemma tracked_running_returns_at_once_witness :
  ∃ w', create_or_start_container "tok-A" world_marked_running
        = (Ok (Done (port tok_A_marked) (container_name tok_A_marked)), w')
        ∧ container_registry w'
          = <[hash_api_key "tok-A" := set_last_used (clock world_marked_running) tok_A_marked]>
              (container_registry world_marked_running)
        ∧ allocated_ports w' = allocated_ports world_marked_running
        ∧ runtime w' = runtime world_marked_running
        ∧ trace w' = Call (ContainersGet (container_name tok_A_marked))
                     :: trace world_marked_running.
Proof.
  apply (tracked_running_returns_at_once "tok-A" world_marked_running tok_A_marked
           (mkContainer tok_A_name "running" (published 4000))).
  - vm_compute. reflexivity.
  - reflexivity.
  - vm_compute. reflexivity.
  - reflexivity.
Defined.

(** X10: the restart.  The record's container is not running and the
    runtime starts it: the call sleeps one second and returns the record's
    port, the port the container had before it was stopped; the record says
    running and was used now; no port is allocated and nothing is created. *)
Theorem tracked_stopped_restarts_on_same_port (api_key : string) (w : World)
    (info : ContainerInfo) (c : Container) :
  let f := hash_api_key api_key in
  container_registry w !! f = Some info →
  daemon_up (runtime w) = true →
  lookup_container (container_name info) w = Some c →
  is_running c = false →
  blocked w c = false →
  ∃ w', create_or_start_container api_key w
        = (Ok (Await (Sleep_then_return 1 (port info) (container_name info))), w')
        ∧ resolve api_key w = (Ok (port info, container_name info), w')
        ∧ container_registry w'
          = <[f := set_status "running" (set_last_used (clock w) info)]>
              (container_registry w)
        ∧ allocated_ports w' = allocated_ports w
        ∧ lookup_container (container_name info) w' = Some (set_c_status "running" c)
        ∧ trace w'
          = [Call (ContainerStart (container_name info));
             Call (ContainersGet (container_name info));
             Call (ContainersGet (container_name info));
             Call (ContainersGet (container_name info))] ++ trace w.
Proof.
  cbv zeta. set (f := hash_api_key api_key). intros Hreg Hup Hc Hrun Hfree.
  assert (Hstep : ∃ w', create_or_start_container api_key w
             = (Ok (Await (Sleep_then_return 1 (port info) (container_name info))), w')
             ∧ container_registry w'
               = <[f := set_status "running" (set_last_used (clock w) info)]>
                   (container_registry w)
             ∧ allocated_ports w' = allocated_ports w
             ∧ lookup_container (container_name info) w' = Some (set_c_status "running" c)
             ∧ trace w'
               = [Call (ContainerStart (container_name info));
                  Call (ContainersGet (container_name info));
                  Call (ContainersGet (container_name info));
                  Call (ContainersGet (container_name info))] ++ trace w).
  { unfold create_or_start_container. fold f. mstep. unfold get_world at 1. rewrite Hreg.
    mstep. rewrite is_container_running_eq. unfold observed_running.
    rewrite Hup, Hc, Hrun. cbn [andb].
    mstep. rewrite is_container_stopped_eq. unfold observed_stopped. wsimpl.
    rewrite Hup, Hc, Hrun. cbn [andb negb].
    mstep. rewrite (start_existing_container_eq _ _ c) by (wsimpl; assumption).
    rewrite Hrun. wsimpl. rewrite Hfree.
    munfold. unfold registry_alter, modify.
    eexists. split; [reflexivity |]. wsimpl. split; [| split; [reflexivity | split]].
    - apply map_eq. intros h. rewrite lookup_alter, lookup_insert.
      destruct (decide (f = h)) as [<- | Hne]; [now rewrite Hreg | reflexivity].
    - unfold lookup_container. cbn. now apply find_container_update.
    - reflexivity. }
  destruct Hstep as (w' & Hrun' & Hrest). exists w'. split; [exact Hrun' |].
  split; [| exact Hrest]. unfold resolve. mstep. now rewrite Hrun'.
Qed.

Lemma tracked_stopped_restarts_on_same_port_witness :
  ∃ w', resolve "tok-A" world_idle_stopped = (Ok (4000, tok_A_name), w')
        ∧ allocated_ports w' = allocated_ports world_idle_stopped.
Proof.
  destruct (tracked_stopped_restarts_on_same_port "tok-A" world_idle_stopped tok_A_info
              tok_A_stopped) as (w' & _ & Hres & _ & Hports & _).
  - vm_compute. reflexivity.
  - reflexivity.
  - vm_compute. reflexivity.
  - reflexivity.
  - vm_compute. reflexivity.
  - exists w'. split; [exact Hres | exact Hports].
Defined.



(** The record went from port 4000 to port 4001; 4000 stays allocated. *)
Example record_without_container_moves_port :
  let run := resolve "tok-A" world_container_gone in
  fst run = Ok (4001, tok_A_name)
  ∧ port <$> container_registry (snd run) !! tok_A_name = Some 4001
  ∧ elements (allocated_ports (snd run)) = [4001; 4000].
Proof. vm_compute. repeat split. Qed.

Lemma create_container_daemon_down k p w :
  daemon_up (runtime w) = false →
  ∃ w', create_container k p w = (Ok None, w')
        ∧ container_registry w' = container_registry w
        ∧ allocated_ports w' = allocated_ports w.
Proof.
  intros Hdown. unfold create_container.
  unfold try_except at 1. mstep. unfold try_except at 1. unfold images_pull. mstep.
  rewrite (docker_call_down _ _ Hdown). unfold mret at 1. unfold M_ret at 1.
  unfold containers_create. mstep. mstep.
  rewrite docker_call_down by exact Hdown. munfold.
  eexists. split; [reflexivity |]. split; reflexivity.
Qed.

(** X12: while the daemon does not answer, every call raises, whether or
    not the token has a record and a running container: the probes take the
    container for absent, the creation is tried and fails.  The registry is
    left as it was. *)
Theorem daemon_down_every_call_raises (api_key : string) (w : World) :
  daemon_up (runtime w) = false →
  ∃ e w', create_or_start_container api_key w = (Raise e, w')
          ∧ (e = no_ports ∨ e = creation_failed)
          ∧ container_registry w' = container_registry w.
Proof.
  intros Hdown. set (f := hash_api_key api_key).
  assert (Htail : ∀ w1, daemon_up (runtime w1) = false →
            ∃ e w', adopt_stopped api_key f f w1 = (Raise e, w')
                    ∧ (e = no_ports ∨ e = creation_failed)
                    ∧ container_registry w' = container_registry w1).
  { intros w1 Hdown1. unfold adopt_stopped. mstep. rewrite is_container_stopped_eq.
    unfold observed_stopped. rewrite Hdown1. cbn [andb].
    mstep. unfold mret at 1. unfold M_ret at 1.
    unfold adopt_running. mstep. rewrite is_container_running_eq.
    unfold observed_running. wsimpl. rewrite Hdown1. cbn [andb].
    unfold fresh_creation. mstep. rewrite get_next_available_port_eq. cbv zeta.
    destruct (List.find _ _) as [p |].
    - match goal with |- context [leased p ?w0] => set (w2 := leased p w0) end.
      destruct (create_container_daemon_down api_key p w2)
        as (w3 & Hrun & Hreg3 & _); [exact Hdown1 |].
      mstep. rewrite Hrun. subst w2. do 2 eexists. split; [reflexivity |].
      split; [now right | exact Hreg3].
    - do 2 eexists. split; [reflexivity |]. split; [now left | reflexivity]. }
  unfold create_or_start_container. fold f. mstep. unfold get_world at 1.
  destruct (container_registry w !! f) as [info |]; [| now apply Htail].
  mstep. rewrite is_container_running_eq. unfold observed_running. rewrite Hdown.
  cbn [andb]. mstep. rewrite is_container_stopped_eq. unfold observed_stopped. wsimpl.
  rewrite Hdown. cbn [andb].
  destruct (Htail (called (ContainersGet (container_name info))
                     (called (ContainersGet (container_name info)) w)) Hdown)
    as (e & w' & Hrun & He & Hreg).
  exists e, w'. split; [exact Hrun |]. split; [exact He | exact Hreg].
Qed.

Lemma daemon_down_every_call_raises_witness :
  ∃ e w', create_or_start_container "tok-A" world_daemon_down = (Raise e, w')
          ∧ (e = no_ports ∨ e = creation_failed)
          ∧ container_registry w' = container_registry world_daemon_down.
Proof.
  apply (daemon_down_every_call_raises "tok-A" world_daemon_down). reflexivity.
Defined.

(* ===================================================================== *)
(** ** Rules for [triple] *)
(* ===================================================================== *)

Lemma triple_ret {A} (L : ledger_pred) (a : A) (Q : result A → ledger_pred) :
  (∀ reg s, L reg s → Q (Ok a) reg s) → triple L (mret a) Q.
Proof. intros H w Hw. apply H, Hw. Qed.

Lemma triple_raise {A} (L : ledger_pred) e (Q : result A → ledger_pred) :
  (∀ reg s, L reg s → Q (Raise e) reg s) → triple L (raise e) Q.
Proof. intros H w Hw. apply H, Hw. Qed.

Lemma triple_weaken {A} (L L' : ledger_pred) (m : M A) Q :
  (∀ reg s, L reg s → L' reg s) → triple L' m Q → triple L m Q.
Proof. intros H Hm w Hw. apply Hm, H, Hw. Qed.

Lemma triple_bind {A B} (L : ledger_pred) (m : M A) (f : A → M B) Q1 Q :
  triple L m Q1 →
  (∀ a, triple (Q1 (Ok a)) (f a) Q) →
  (∀ e reg s, Q1 (Raise e) reg s → Q (Raise e) reg s) →
  triple L (m ≫= f) Q.
Proof.
  intros Hm Hf He w Hw. specialize (Hm w Hw). unfold mbind, M_bind.
  destruct (m w) as [[a | e] w1]; cbn [fst snd] in *; [now apply Hf | now apply He].
Qed.

Lemma triple_try {A} (L : ledger_pred) (m : M A) h Q1 Q :
  triple L m Q1 →
  (∀ a reg s, Q1 (Ok a) reg s → Q (Ok a) reg s) →
  (∀ e, triple (Q1 (Raise e)) (h e) Q) →
  triple L (try_except m h) Q.
Proof.
  intros Hm Ha Hh w Hw. specialize (Hm w Hw). unfold try_except.
  destruct (m w) as [[a | e] w1]; cbn [fst snd] in *; [now apply Ha | now apply Hh].
Qed.

(** A step that leaves the registry and the ports alone keeps [L]; what it
    returns is known as far as [V] says. *)
Lemma triple_kept {A B} (L : ledger_pred) (m : M A) (f : A → M B) (V : A → Prop) Q :
  preserves ledger_kept m →
  (∀ w a, fst (m w) = Ok a → V a) →
  (∀ a, V a → triple L (f a) Q) →
  (∀ e reg s, L reg s → Q (Raise e) reg s) →
  triple L (m ≫= f) Q.
Proof.
  intros Hk HV Hf He w Hw. unfold mbind, M_bind.
  destruct (Hk w) as [Hreg Hports]. specialize (HV w).
  destruct (m w) as [[a | e] w1]; cbn [fst snd] in *.
  - apply Hf; [now apply HV |]. unfold holds. now rewrite Hreg, Hports.
  - unfold holds. rewrite Hreg, Hports. now apply He.
Qed.

Lemma triple_lease {B} (L L' : ledger_pred) (p : Z) (k : unit → M B) Q :
  (∀ reg s, L reg s → L' reg ({[p]} ∪ s)) →
  triple L' (k tt) Q →
  triple L (allocated_ports_add p ≫= k) Q.
Proof. intros H Hk w Hw. unfold mbind, M_bind, allocated_ports_add, modify. apply Hk, H, Hw. Qed.

Lemma triple_register {B} (L L' : ledger_pred) h i (k : unit → M B) Q :
  (∀ reg s, L reg s → L' (<[h := i]> reg) s) →
  triple L' (k tt) Q →
  triple L (registry_set h i ≫= k) Q.
Proof. intros H Hk w Hw. unfold mbind, M_bind, registry_set, modify. apply Hk, H, Hw. Qed.

Lemma triple_alter {B} (L L' : ledger_pred) f h (k : unit → M B) Q :
  (∀ reg s, L reg s → L' (alter f h reg) s) →
  triple L' (k tt) Q →
  triple L (registry_alter f h ≫= k) Q.
Proof. intros H Hk w Hw. unfold mbind, M_bind, registry_alter, modify. apply Hk, H, Hw. Qed.

Lemma triple_del {B} (L L' : ledger_pred) h (k : unit → M B) Q :
  (∀ reg s, L reg s → L' (delete h reg) s) →
  triple L' (k tt) Q →
  triple L (registry_del h ≫= k) Q.
Proof. intros H Hk w Hw. unfold mbind, M_bind, registry_del, modify. apply Hk, H, Hw. Qed.

Lemma triple_time {B} (L : ledger_pred) (k : Z → M B) Q :
  (∀ now, triple L (k now) Q) → triple L (time ≫= k) Q.
Proof. intros Hk w Hw. unfold mbind, M_bind, time. now apply Hk. Qed.

Lemma triple_get_world {B} (L : ledger_pred) (k : World → M B) Q :
  (∀ w0, triple (λ reg s, L reg s ∧ reg = container_registry w0) (k w0) Q) →
  triple L (get_world ≫= k) Q.
Proof. intros Hk w Hw. unfold mbind, M_bind, get_world. apply (Hk w). now split. Qed.

Lemma triple_acquire {B} (L : ledger_pred) (k : Z → M B) Q :
  (∀ p, triple (λ reg s, ∃ s0, L reg s0 ∧ s = {[p]} ∪ s0) (k p) Q) →
  (∀ e reg s, L reg s → Q (Raise e) reg s) →
  triple L (get_next_available_port ≫= k) Q.
Proof.
  intros Hk He w Hw. unfold mbind, M_bind. rewrite get_next_available_port_eq. cbv zeta.
  destruct (List.find _ _) as [p |].
  - apply Hk. exists (allocated_ports w). split; [exact Hw | reflexivity].
  - now apply He.
Qed.

(* ===================================================================== *)
(** ** The registry and the allocated ports agree *)
(* ===================================================================== *)

Lemma ledger_ok_lease reg s p : ledger_ok reg s → ledger_ok reg ({[p]} ∪ s).
Proof.
  intros H h i Hi. destruct (H h i Hi) as (Hp & Hn). split; [| exact Hn].
  now apply elem_of_union_r.
Qed.

Lemma ledger_ok_register reg s f p now :
  ledger_ok reg s → p ∈ s → ledger_ok (<[f := new_info f f p now]> reg) s.
Proof.
  intros H Hp h i Hi. destruct (decide (f = h)) as [<- | Hne].
  - rewrite lookup_insert_eq in Hi. injection Hi as <-. now cbn.
  - rewrite lookup_insert_ne in Hi by exact Hne. now apply H.
Qed.

Lemma ledger_ok_alter reg s g f :
  (∀ i, port (g i) = port i ∧ container_name (g i) = container_name i
        ∧ api_key_hash (g i) = api_key_hash i) →
  ledger_ok reg s → ledger_ok (alter g f reg) s.
Proof.
  intros Hg H h i Hi. rewrite lookup_alter in Hi. case_decide.
  - subst h. destruct (reg !! f) as [i0 |] eqn:E; [| discriminate]. cbn in Hi.
    injection Hi as <-. destruct (Hg i0) as (-> & -> & ->). now apply H.
  - now apply H.
Qed.

Lemma ledger_ok_delete reg s f : ledger_ok reg s → ledger_ok (delete f reg) s.
Proof.
  intros H h i Hi. rewrite lookup_delete in Hi. case_decide; [discriminate | now apply H].
Qed.

Lemma create_container_name k p w a :
  fst (create_container k p w) = Ok a → a = None ∨ a = Some (hash_api_key k).
Proof.
  unfold create_container, try_except. unfold mbind at 1. unfold M_bind at 1.
  destruct (match images_pull w with (Ok a0, w') => _ | (Raise e, w') => _ end)
    as [[[] | e] w1]; cbn [fst].
  - unfold mbind at 1. unfold M_bind at 1.
    destruct (containers_create _ _ w1) as [[[] | e] w2]; cbn [fst];
      [| intros [= <-]; now left].
    unfold mbind at 1. unfold M_bind at 1.
    destruct (container_start _ w2) as [[[] | e] w3]; cbn [fst];
      intros [= <-]; [now right | now left].
  - intros [= <-]. now left.
Qed.

Lemma resolved_or_not_raise f e reg s :
  ledger_ok reg s → resolved_or_not f (Raise e) reg s.
Proof. now split. Qed.

Lemma resolved_raise f e reg s : ledger_ok reg s → resolved f (Raise e) reg s.
Proof. now split. Qed.

Lemma resolved_of_not f e reg s :
  resolved_or_not f (Raise e) reg s → resolved f (Raise e) reg s.
Proof. intros [H _]. now split. Qed.

#[local] Hint Resolve resolved_or_not_raise resolved_raise ledger_ok_lease : preserved.

Lemma with_lease_intro p reg s : ledger_ok reg s → with_lease p reg ({[p]} ∪ s).
Proof.
  intros H. split; [now apply ledger_ok_lease |]. apply elem_of_union_l, elem_of_singleton.
  reflexivity.
Qed.

(** Case 3 of [create_or_start_container]. *)
Lemma triple_fresh_creation k :
  triple ledger_ok (fresh_creation k (hash_api_key k)) (resolved (hash_api_key k)).
Proof.
  unfold fresh_creation. apply triple_acquire; [| auto with preserved].
  intros p.
  apply (triple_kept _ _ _ (λ a, a = None ∨ a = Some (hash_api_key k))).
  - apply (preserves_create_container ledger_kept).
  - intros w a. apply create_container_name.
  - intros a [-> | ->].
    + apply triple_raise. intros reg s (s0 & H & ->). auto with preserved.
    + apply triple_ret. intros reg s (s0 & H & ->). split; [auto with preserved |].
      cbn. split; [| now split]. apply elem_of_union_l, elem_of_singleton. reflexivity.
  - intros e reg s (s0 & H & ->). auto with preserved.
Qed.

Lemma with_lease_registered f p now reg s :
  with_lease p reg s →
  resolved_or_not f (Ok (Some (Done p f))) (<[f := new_info f f p now]> reg) s.
Proof.
  intros [H Hp]. split; [now apply ledger_ok_register |]. cbn. split; [exact Hp |].
  exists (new_info f f p now). rewrite lookup_insert_eq. now cbn.
Qed.

(** Lines 327-354. *)
Lemma triple_adopt_running k :
  triple ledger_ok (adopt_running k (hash_api_key k) (hash_api_key k))
    (resolved (hash_api_key k)).
Proof.
  set (f := hash_api_key k). unfold adopt_running.
  apply (triple_kept _ _ _ (λ _, True)); [auto with preserved | done | | auto with preserved].
  intros [] _; [| apply triple_fresh_creation].
  apply (triple_bind _ _ _ (resolved_or_not f)).
  - apply (triple_try _ _ _ (resolved_or_not f)).
    + apply (triple_kept _ _ _ (λ _, True));
        [auto with preserved | done | | auto with preserved].
      intros c _. destruct (has_internal_port c).
      * apply (triple_kept _ _ _ (λ _, True));
          [auto with preserved | done | | auto with preserved].
        intros p _. apply (triple_lease _ (with_lease p)); [apply with_lease_intro |].
        apply triple_time. intros now.
        apply (triple_register _ (resolved_or_not f (Ok (Some (Done p f)))));
          [intros reg s; apply with_lease_registered |].
        now apply triple_ret.
      * apply (triple_kept _ _ _ (λ _, True));
          [auto with preserved | done | | auto with preserved].
        intros _ _. apply triple_ret. now split.
    + auto.
    + intros e. apply triple_ret. auto.
  - intros [s |].
    + apply triple_ret. auto.
    + apply (triple_weaken _ ledger_ok); [now intros reg s [H _] |].
      apply triple_fresh_creation.
  - intros e reg s. apply resolved_of_not.
Qed.

Lemma with_lease_ok f r p reg s :
  (∀ st, r ≠ Ok (Some st)) → with_lease p reg s → resolved_or_not f r reg s.
Proof.
  intros Hr [H _]. split; [exact H |]. destruct r as [[st |] |]; [| done | done].
  now destruct (Hr st).
Qed.

Lemma with_lease_sleeping f p now secs reg s :
  with_lease p reg s →
  resolved_or_not f (Ok (Some (Await (Sleep_then_return secs p f))))
    (<[f := new_info f f p now]> reg) s.
Proof.
  intros [H Hp]. split; [now apply ledger_ok_register |]. cbn. split; [exact Hp |].
  exists (new_info f f p now). rewrite lookup_insert_eq. now cbn.
Qed.

(** Lines 286-325. *)
Lemma triple_adopt_stopped k :
  triple ledger_ok (adopt_stopped k (hash_api_key k) (hash_api_key k))
    (resolved (hash_api_key k)).
Proof.
  set (f := hash_api_key k). unfold adopt_stopped.
  apply (triple_kept _ _ _ (λ _, True)); [auto with preserved | done | | auto with preserved].
  intros stopped _.
  apply (triple_bind _ _ _ (resolved_or_not f)).
  - destruct stopped; [| apply triple_ret; now split].
    apply (triple_try _ _ _ (resolved_or_not f)).
    + apply (triple_kept _ _ _ (λ _, True));
        [auto with preserved | done | | auto with preserved].
      intros c _. destruct (has_internal_port c).
      * apply (triple_kept _ _ _ (λ _, True));
          [auto with preserved | done | | auto with preserved].
        intros p _. apply (triple_lease _ (with_lease p)); [apply with_lease_intro |].
        apply (triple_kept _ _ _ (λ _, True));
          [auto with preserved | done | | intros e reg s; now apply with_lease_ok].
        intros [] _.
        -- apply triple_time. intros now.
           apply (triple_register _
                    (resolved_or_not f (Ok (Some (Await (Sleep_then_return 1 p f))))));
             [intros reg s; apply with_lease_sleeping |].
           now apply triple_ret.
        -- apply triple_ret. intros reg s. now apply with_lease_ok.
      * apply (triple_kept _ _ _ (λ _, True));
          [auto with preserved | done | | auto with preserved].
        intros _ _. apply triple_ret. now split.
    + auto.
    + intros e. apply (triple_weaken _ ledger_ok); [now intros reg s [H _] |].
      apply (triple_kept _ _ _ (λ _, True)); [| done | | auto with preserved].
      * apply (preserves_try ledger_kept); [| intros e']; preserves_auto.
      * intros _ _. apply triple_ret. now split.
  - intros [s |].
    + apply triple_ret. auto.
    + apply (triple_weaken _ ledger_ok); [now intros reg s [H _] |].
      apply triple_adopt_running.
  - intros e reg s. apply resolved_of_not.
Qed.

Lemma knows_altered f info g reg s :
  (∀ i, port (g i) = port i ∧ container_name (g i) = container_name i
        ∧ api_key_hash (g i) = api_key_hash i) →
  knows f info reg s →
  ledger_ok (alter g f reg) s
  ∧ port info ∈ s
  ∧ ∃ info', alter g f reg !! f = Some info'
             ∧ port info' = port info ∧ container_name info' = container_name info.
Proof.
  intros Hg [H Hf]. split; [now apply ledger_ok_alter |].
  split; [apply (H f info Hf) |]. exists (g info). rewrite lookup_alter_eq, Hf.
  split; [reflexivity |]. destruct (Hg info) as (-> & -> & _). now split.
Qed.

(** [create_or_start_container] keeps the registry and the allocated ports
    in agreement, and what it returns or is about to register is covered by
    them. *)
Lemma triple_create_or_start_container k :
  triple ledger_ok (create_or_start_container k) (resolved (hash_api_key k)).
Proof.
  unfold create_or_start_container. cbv zeta. set (f := hash_api_key k).
  apply triple_get_world. intros w0.
  destruct (container_registry w0 !! f) as [info |] eqn:Hf.
  - apply (triple_weaken _ (knows f info)); [intros reg s [H ->]; now split |].
    apply (triple_kept _ _ _ (λ _, True));
      [auto with preserved | done | | intros e reg s [H _]; auto with preserved].
    intros [] _.
    + apply triple_time. intros now.
      apply (triple_alter _ (resolved f (Ok (Done (port info) (container_name info)))));
        [| now apply triple_ret].
      intros reg s. apply knows_altered. intros i. now cbn.
    + apply (triple_kept _ _ _ (λ _, True));
        [auto with preserved | done | | intros e reg s [H _]; auto with preserved].
      intros [] _.
      * apply (triple_kept _ _ _ (λ _, True));
          [auto with preserved | done | | intros e reg s [H _]; auto with preserved].
        intros [] _.
        -- apply triple_time. intros now.
           apply (triple_alter _
                    (resolved f (Ok (Await (Sleep_then_return 1 (port info)
                                              (container_name info))))));
             [| now apply triple_ret].
           intros reg s. apply knows_altered. intros i. now cbn.
        -- apply (triple_del _ ledger_ok);
             [intros reg s [H _]; now apply ledger_ok_delete |].
           apply triple_adopt_stopped.
      * apply (triple_weaken _ ledger_ok); [now intros reg s [H _] |].
        apply triple_adopt_stopped.
  - apply (triple_weaken _ ledger_ok); [now intros reg s [H _] |].
    apply triple_adopt_stopped.
Qed.

(** What [resolve] has established when it returns. *)
Lemma triple_resume f k :
  triple (resolved f (Ok (Await k))) (resume k)
    (λ r reg s,
       ledger_ok reg s
       ∧ match r with
         | Ok (p, n) => step_ok f (Done p n) reg s
         | Raise _ => True
         end).
Proof.
  destruct k as [secs p n | secs h n p]; cbn [resume].
  - now apply triple_ret.
  - apply triple_time. intros now. intros w [H (Hp & -> & ->)].
    unfold mbind, M_bind, registry_set, modify, mret, M_ret, holds. cbn.
    split; [now apply ledger_ok_register |]. split; [exact Hp |].
    exists (new_info f f p now). rewrite lookup_insert_eq. now cbn.
Qed.

Lemma triple_resolve k :
  triple ledger_ok (resolve k)
    (λ r reg s,
       ledger_ok reg s
       ∧ match r with
         | Ok (p, n) => step_ok (hash_api_key k) (Done p n) reg s
         | Raise _ => True
         end).
Proof.
  unfold resolve. apply (triple_bind _ _ _ (resolved (hash_api_key k))).
  - apply triple_create_or_start_container.
  - intros [p n | s]; [now apply triple_ret | apply triple_resume].
  - now intros e reg s [H _].
Qed.

(** X14: the ports and names [resolve] hands to the proxy.  From a state
    in which every record is filed under its container's name and holds an
    allocated port, a call that returns [(p, n)] for key [k] leaves such a
    state, in which [n] is the fingerprint of [k], [p] is allocated, and
    the registry holds for that fingerprint a record with port [p] and
    name [n]. *)
Theorem resolve_returns_registered_port (k : string) (w : World) (p : Z) (n : string) :
  holds ledger_ok w →
  fst (resolve k w) = Ok (p, n) →
  let w' := snd (resolve k w) in
  holds ledger_ok w'
  ∧ n = hash_api_key k
  ∧ p ∈ allocated_ports w'
  ∧ ∃ info, container_registry w' !! hash_api_key k = Some info
            ∧ port info = p ∧ container_name info = n.
Proof.
  intros Hw Hr. cbv zeta. pose proof (triple_resolve k w Hw) as H. unfold holds in H.
  rewrite Hr in H. destruct H as [Hok (Hp & info & Hinfo & Hport & Hname)].
  split; [exact Hok |]. split; [| split; [exact Hp | now exists info]].
  rewrite <- Hname. apply (Hok _ _ Hinfo).
Qed.

Lemma ledger_ok_singleton f p now created st s :
  p ∈ s → ledger_ok {[f := mkContainerInfo f f p now created st]} s.
Proof.
  intros Hp h i Hi. apply lookup_singleton_Some in Hi as [<- <-]. now cbn.
Qed.

Lemma resolve_returns_registered_port_witness :
  4000 ∈ allocated_ports (snd (resolve "tok-A" world_idle_stopped))
  ∧ tok_A_name = hash_api_key "tok-A".
Proof.
  destruct (resolve_returns_registered_port "tok-A" world_idle_stopped 4000 tok_A_name)
    as (_ & Hn & Hp & _).
  - apply (ledger_ok_singleton tok_A_name 4000 100 100 "stopped" {[4000]}).
    now apply elem_of_singleton.
  - vm_compute. reflexivity.
  - split; [exact Hp | exact Hn].
Defined.

(* ===================================================================== *)
(** ** The agreement at every point of every schedule *)
(* ===================================================================== *)

Lemma ledger_ok_swept t reg s : ledger_ok reg s → ledger_ok (swept t <$> reg) s.
Proof.
  intros H h i Hi. rewrite lookup_fmap in Hi.
  destruct (reg !! h) as [i0 |] eqn:E; [| discriminate]. cbn in Hi. injection Hi as <-.
  unfold swept. destruct (is_idle t i0); [cbn |]; now apply H.
Qed.

Lemma caller_ok_mono s s' c : s ⊆ s' → caller_ok s c → caller_ok s' c.
Proof.
  intros Hs. destruct c as [k | [secs p n | secs h n p] | [[p n] | e]]; cbn; [done | | | | done].
  - apply Hs.
  - intros [Hp Hn]. split; [now apply Hs | exact Hn].
  - apply Hs.
Qed.

Lemma run_caller_ledger_ok c w :
  holds ledger_ok w → caller_ok (allocated_ports w) c →
  holds ledger_ok (snd (run_caller c w))
  ∧ caller_ok (allocated_ports (snd (run_caller c w))) (fst (run_caller c w))
  ∧ allocated_ports w ⊆ allocated_ports (snd (run_caller c w)).
Proof.
  intros Hw Hc. destruct c as [k | susp | r]; cbn [run_caller].
  - pose proof (triple_create_or_start_container k w Hw) as H.
    pose proof (grows_create_or_start_container k w) as Hg. unfold holds in H.
    destruct (create_or_start_container k w) as [[[p n | susp] | e] w1];
      cbn [fst snd] in *; destruct H as [Hok Hs]; (split; [exact Hok |]);
      (split; [| exact Hg]).
    + apply Hs.
    + destruct susp as [secs p n | secs h n p]; cbn in *; [apply Hs |].
      destruct Hs as (Hp & -> & ->). now split.
    + exact I.
  - destruct susp as [secs p n | secs h n p]; cbn in *.
    + now split.
    + destruct Hc as [Hp ->]. split; [now apply ledger_ok_register |]. now split.
  - now split.
Qed.

Lemma cleanup_ledger_ok w :
  holds ledger_ok w →
  holds ledger_ok (snd (cleanup_idle_containers w))
  ∧ allocated_ports (snd (cleanup_idle_containers w)) = allocated_ports w.
Proof.
  intros Hw. pose proof (ports_kept_cleanup_idle_containers w) as Hp. unfold ports_kept in Hp.
  split; [| exact Hp]. unfold holds. rewrite Hp, cleanup_registry_fmap.
  now apply ledger_ok_swept.
Qed.

(** X13: the registry and the allocated ports agree at every point of every
    schedule.  Requests for any keys and the sweeper take turns, a request
    giving way at each [await] of [create_or_start_container].  If at the
    start every record is filed under its container's name and holds an
    allocated port, and every request that is asleep or done holds an
    allocated port (and, where it is about to register a container, will
    file it under the container's name), then the same is true after any
    number of turns in any order. *)
Theorem registry_and_ports_agree (turns : list Turn) (callers : list Caller) (w : World) :
  holds ledger_ok w →
  Forall (caller_ok (allocated_ports w)) callers →
  holds ledger_ok (snd (run_turns turns callers w))
  ∧ Forall (caller_ok (allocated_ports (snd (run_turns turns callers w))))
      (fst (run_turns turns callers w)).
Proof.
  revert callers w. induction turns as [| [i |] turns IH]; intros callers w Hw Hcs;
    cbn [run_turns].
  - now split.
  - destruct (callers !! i) as [c |] eqn:Hi; [| now apply IH].
    destruct (run_caller_ledger_ok c w Hw) as (Hw' & Hc' & Hsub).
    { exact (proj1 (Forall_lookup _ _) Hcs i c Hi). }
    destruct (run_caller c w) as [c' w']. cbn [fst snd] in *.
    apply IH; [exact Hw' |]. apply Forall_insert; [| exact Hc'].
    eapply Forall_impl; [exact Hcs |]. intros c0. now apply caller_ok_mono.
  - destruct (cleanup_ledger_ok w Hw) as [Hw' Hp]. apply IH; [exact Hw' |].
    now rewrite Hp.
Qed.

Lemma registry_and_ports_agree_witness :
  holds ledger_ok
    (snd (run_turns [Request_turn 0; Sweeper_turn; Request_turn 1; Request_turn 0]
            [Waiting "tok-A"; Waiting "tok-B"] world_idle_stopped)).
Proof.
  refine (proj1 (registry_and_ports_agree _ _ world_idle_stopped _ _)).
  - apply (ledger_ok_singleton tok_A_name 4000 100 100 "stopped" {[4000]}).
    now apply elem_of_singleton.
  - repeat constructor.
Defined.

(* ===================================================================== *)
(** ** A status is running or stopped *)
(* ===================================================================== *)

#[local] Instance statuses_kept_preorder : PreOrder statuses_kept.
Proof.
  split; [now intros w |]. intros w1 w2 w3 H1 H2 H. apply H2, H1, H.
Qed.

#[local] Instance statuses_kept_blind : Blind statuses_kept.
Proof. split; now intros w ? H. Qed.

#[local] Hint Resolve statuses_kept_preorder statuses_kept_blind : preserved.

Lemma statuses_allocated_ports_add p : preserves statuses_kept (allocated_ports_add p).
Proof. apply (preserves_modify statuses_kept). now intros w H. Qed.

Lemma statuses_registry_set h n p now :
  preserves statuses_kept (registry_set h (new_info n h p now)).
Proof.
  apply (preserves_modify statuses_kept). intros w H h' i. cbn.
  destruct (decide (h = h')) as [<- | Hne].
  - rewrite lookup_insert_eq. intros [= <-]. now left.
  - rewrite lookup_insert_ne by exact Hne. apply H.
Qed.

Lemma statuses_registry_alter g h :
  (∀ i, status_ok i → status_ok (g i)) → preserves statuses_kept (registry_alter g h).
Proof.
  intros Hg. apply (preserves_modify statuses_kept). intros w H h' i. cbn.
  rewrite lookup_alter. case_decide; [| apply H]. subst h'.
  destruct (container_registry w !! h) as [i0 |] eqn:E; [| discriminate]. cbn.
  intros [= <-]. apply Hg, (H h i0 E).
Qed.

Lemma statuses_set_last_used now h :
  preserves statuses_kept (registry_alter (set_last_used now) h).
Proof. apply statuses_registry_alter. now intros i. Qed.

Lemma statuses_set_running now h :
  preserves statuses_kept
    (registry_alter (λ i, set_status "running" (set_last_used now i)) h).
Proof. apply statuses_registry_alter. intros i _. now left. Qed.

Lemma statuses_set_stopped h :
  preserves statuses_kept (registry_alter (set_status "stopped") h).
Proof. apply statuses_registry_alter. intros i _. now right. Qed.

Lemma statuses_registry_del h : preserves statuses_kept (registry_del h).
Proof.
  apply (preserves_modify statuses_kept). intros w H h' i. cbn.
  rewrite lookup_delete. case_decide; [discriminate | apply H].
Qed.

#[local] Hint Resolve statuses_allocated_ports_add statuses_registry_set
  statuses_set_last_used statuses_set_running statuses_set_stopped
  statuses_registry_del : preserved.

Lemma statuses_get_next_available_port : preserves statuses_kept get_next_available_port.
Proof. unfold get_next_available_port. preserves_auto. Qed.

#[local] Hint Resolve statuses_get_next_available_port : preserved.

Lemma statuses_fresh_creation k h : preserves statuses_kept (fresh_creation k h).
Proof. unfold fresh_creation. preserves_auto. Qed.

#[local] Hint Resolve statuses_fresh_creation : preserved.

Lemma statuses_adopt_running k h n : preserves statuses_kept (adopt_running k h n).
Proof. unfold adopt_running. preserves_auto. Qed.

#[local] Hint Resolve statuses_adopt_running : preserved.

Lemma statuses_adopt_stopped k h n : preserves statuses_kept (adopt_stopped k h n).
Proof. unfold adopt_stopped. preserves_auto. Qed.

#[local] Hint Resolve statuses_adopt_stopped : preserved.

Lemma statuses_create_or_start_container k :
  preserves statuses_kept (create_or_start_container k).
Proof. unfold create_or_start_container. preserves_auto. Qed.

Lemma statuses_resume s : preserves statuses_kept (resume s).
Proof. unfold resume. preserves_auto. Qed.

Lemma statuses_stop_idle_items t items keys :
  preserves statuses_kept (stop_idle_items t items keys).
Proof.
  revert keys. induction items as [| item items IH]; intros keys;
    cbn [stop_idle_items]; [preserves_auto |].
  apply (preserves_bind statuses_kept); [| intros ?; apply IH].
  unfold stop_if_idle. preserves_auto.
Qed.

Lemma statuses_update_registry keys : preserves statuses_kept (update_registry keys).
Proof. induction keys as [| k keys IH]; cbn [update_registry]; preserves_auto. Qed.

#[local] Hint Resolve statuses_stop_idle_items statuses_update_registry : preserved.

Lemma statuses_cleanup_idle_containers : preserves statuses_kept cleanup_idle_containers.
Proof. unfold cleanup_idle_containers. preserves_auto. Qed.

Lemma statuses_run_caller c w : statuses_kept w (snd (run_caller c w)).
Proof.
  destruct c as [k | s | r]; cbn [run_caller].
  - pose proof (statuses_create_or_start_container k w) as H.
    now destruct (create_or_start_container k w) as [[[p n | s] | e] w1].
  - pose proof (statuses_resume s w) as H. now destruct (resume s w).
  - reflexivity.
Qed.

(** X15: the comment of line 43 holds of the code.  If every record of the
    registry says running or stopped, so does every record after any number
    of turns of requests and of the sweeper, in any order. *)
Theorem status_is_running_or_stopped (turns : list Turn) (callers : list Caller) (w : World) :
  statuses_ok (container_registry w) →
  statuses_ok (container_registry (snd (run_turns turns callers w))).
Proof.
  revert callers w. induction turns as [| [i |] turns IH]; intros callers w Hw;
    cbn [run_turns].
  - exact Hw.
  - destruct (callers !! i) as [c |]; [| now apply IH].
    pose proof (statuses_run_caller c w Hw) as H.
    destruct (run_caller c w) as [c' w']. now apply IH.
  - apply IH. now apply statuses_cleanup_idle_containers.
Qed.

Lemma status_is_running_or_stopped_witness :
  statuses_ok
    (container_registry
       (snd (run_turns [Request_turn 0; Sweeper_turn; Request_turn 1; Request_turn 0]
               [Waiting "tok-A"; Waiting "tok-B"] world_idle_stopped))).
Proof.
  apply (status_is_running_or_stopped _ _ world_idle_stopped).
  intros h i Hi. unfold world_idle_stopped in Hi. cbn [container_registry] in Hi.
  apply lookup_singleton_Some in Hi as [_ <-]. now right.
Defined.

(* ===================================================================== *)
(** ** [get_stats] *)
(* ===================================================================== *)

#[local] Instance only_traced_preorder : PreOrder only_traced.
Proof.
  split; [now intros w |].
  intros w1 w2 w3 (H1 & H2 & H3 & H4) (H5 & H6 & H7 & H8). repeat split; congruence.
Qed.

Lemma only_traced_called c w : only_traced w (called c w).
Proof. now repeat split. Qed.

Lemma container_info_of_traced details n w w' :
  only_traced w w' → container_info_of details n w' = container_info_of details n w.
Proof.
  intros (_ & _ & Hrun & _). unfold container_info_of, lookup_container. now rewrite Hrun.
Qed.

Lemma container_image_tags_eq details c w :
  daemon_up (runtime w) = true →
  container_image_tags details c w = (image_tags (details c), called (ImagesGet (name c)) w).
Proof.
  intros Hup. unfold container_image_tags. mstep.
  now rewrite (docker_call_up _ _ Hup).
Qed.

(** [get_container_info] never raises and leaves everything but the trace
    as it was. *)
Lemma get_container_info_eq details n w :
  ∃ w', get_container_info details n w = (Ok (container_info_of details n w), w')
        ∧ only_traced w w'.
Proof.
  unfold get_container_info, try_except, container_info_of. mstep.
  rewrite containers_get_eq.
  destruct (daemon_up (runtime w)) eqn:Hup;
    [| eexists; split; [reflexivity | apply only_traced_called]].
  destruct (lookup_container n w) as [c |];
    [| eexists; split; [reflexivity | apply only_traced_called]].
  mstep. unfold reading at 1.
  destruct (attrs_created (details c)) as [created | e];
    [| eexists; split; [reflexivity | apply only_traced_called]].
  mstep. rewrite container_image_tags_eq by exact Hup.
  destruct (image_tags (details c)) as [[| tag tags] | e] eqn:Htags.
  - eexists. split; [reflexivity |]. now repeat split.
  - mstep. mstep. rewrite container_image_tags_eq by exact Hup. rewrite Htags.
    eexists. split; [reflexivity |]. now repeat split.
  - eexists. split; [reflexivity |]. now repeat split.
Qed.

Lemma collect_stats_eq details items : ∀ acc w,
  ∃ w', collect_stats details items acc w
        = (Ok (acc ++ List.map (stats_of details w) items), w')
        ∧ only_traced w w'.
Proof.
  induction items as [| [h info] items IH]; intros acc w; cbn [collect_stats List.map].
  - exists w. rewrite app_nil_r. split; reflexivity.
  - destruct (get_container_info_eq details (container_name info) w) as (w1 & Hinfo & H1).
    mstep. rewrite Hinfo.
    destruct (IH (acc ++ [mkContainerStats (container_name info) h (port info) (status info)
                            (container_info_of details (container_name info) w)]) w1)
      as (w' & Heq & H2).
    assert (Hmap : List.map (stats_of details w1) items = List.map (stats_of details w) items).
    { apply map_ext. intros item. unfold stats_of.
      now rewrite (container_info_of_traced _ _ w w1 H1). }
    rewrite Hmap in Heq. exists w'. rewrite Heq, <- app_assoc.
    split; [reflexivity | etransitivity; eassumption].
Qed.

Lemma count_status_map st details w items :
  count_status st (List.map (stats_of details w) items)
  = List.length (List.filter (λ item, String.eqb (status (snd item)) st) items).
Proof.
  unfold count_status. induction items as [| item items IH]; [reflexivity |].
  cbn [List.map List.filter stats_of stats_status].
  destruct (String.eqb (status (snd item)) st); cbn [List.length]; now rewrite IH.
Qed.

Lemma running_plus_stopped (items : list (string * ContainerInfo)) :
  Forall (λ item, status_ok (snd item)) items →
  (List.length (List.filter (λ item, String.eqb (status (snd item)) "running") items)
   + List.length (List.filter (λ item, String.eqb (status (snd item)) "stopped") items)
   = List.length items)%nat.
Proof.
  induction 1 as [| item items [Hs | Hs] _ IH]; [reflexivity | |];
    cbn [List.filter]; rewrite Hs; cbn [String.eqb Ascii.eqb Bool.eqb List.length]; lia.
Qed.

(** X16: [get_stats] only reads.  It returns, whether the daemon answers or
    not and whatever the reads of a container's details give, one item for
    each record of the registry, made of the record's name, key, port and
    status and of what [get_container_info] finds under the record's
    container name: nothing when the daemon is down, when there is no such
    container or when reading its creation date or its image raises, and
    else its name, status, ports, creation date and first image tag
    ([unknown] without a tag).  [total_containers] is the number of
    records; the registry, the allocated ports and the runtime are what
    they were. *)
Theorem get_stats_reads_only (details : Container → Details) (w : World) :
  ∃ st w',
    get_stats details w = (Ok st, w')
    ∧ stats_containers st
      = List.map (stats_of details w) (map_to_list (container_registry w))
    ∧ total_containers st = size (container_registry w)
    ∧ List.length (stats_containers st) = total_containers st
    ∧ container_registry w' = container_registry w
    ∧ allocated_ports w' = allocated_ports w
    ∧ runtime w' = runtime w.
Proof.
  destruct (collect_stats_eq details (map_to_list (container_registry w)) [] w)
    as (w' & Heq & Hreg & Hports & Hrun & _).
  unfold get_stats. mstep. cbn [get_world]. mstep. rewrite Heq. mstep. cbn [get_world app].
  eexists _, w'. split; [reflexivity |]. cbn [stats_containers total_containers].
  rewrite Hreg, length_map, length_map_to_list.
  now repeat split.
Qed.

(** X17: the three counts of [get_stats] add up.  When every record says
    running or stopped, [running_count] and [stopped_count] sum to
    [total_containers]. *)
Theorem get_stats_counts_add_up (details : Container → Details) (w : World) (st : Stats) :
  statuses_ok (container_registry w) →
  fst (get_stats details w) = Ok st →
  (stats_running_count st + stats_stopped_count st = total_containers st)%nat.
Proof.
  intros Hok Hst.
  destruct (collect_stats_eq details (map_to_list (container_registry w)) [] w)
    as (w' & Heq & Hreg & _).
  unfold get_stats in Hst. revert Hst. mstep. cbn [get_world]. mstep. rewrite Heq. mstep.
  cbn [get_world app fst mret M_ret]. intros [= <-].
  cbn [stats_running_count stats_stopped_count total_containers].
  rewrite !count_status_map, Hreg, running_plus_stopped.
  - apply length_map_to_list.
  - apply Forall_forall. intros [h info] Hin. apply elem_of_map_to_list in Hin.
    apply (Hok h info Hin).
Qed.

Lemma get_stats_counts_add_up_witness :
  ∃ st, fst (get_stats details_ok world_two_records) = Ok st
        ∧ (stats_running_count st + stats_stopped_count st = total_containers st)%nat
        ∧ total_containers st = 2%nat.
Proof.
  destruct (get_stats details_ok world_two_records) as [[st | e] w'] eqn:Hst;
    [| vm_compute in Hst; discriminate].
  exists st. split; [reflexivity |]. split.
  - apply (get_stats_counts_add_up details_ok world_two_records); [| now rewrite Hst].
    intros h i Hi. unfold world_two_records in Hi. cbn [container_registry] in Hi.
    apply lookup_insert_Some in Hi as [[_ <-] | [_ Hi]]; [now right |].
    apply lookup_singleton_Some in Hi as [_ <-]. now left.
  - vm_compute in Hst. now injection Hst as <- _.
Defined.
